(** * Narrator: timing, segmentation and subtitle engine

    A shallow embedding of the caption segmenters, the karaoke frame
    sequencer, the per-slide duration logic of [gerar_video] and the
    subtitle writer [gerar_srt], and of the code around them: the line
    breakers, the slide store, the icon placement, the image fitting, the
    caption band, the line window of a karaoke frame and the clip list of
    a video; followed by the properties proved of them.

    Conventions.
    - A Python [str] is a list of characters ([ascii], read as code
      points below 256); [len] is the list length as a [Z].
    - A Python [float] duration is an exact rational ([Q]); equalities
      between durations are stated with [==].  Such statements leave the
      rounding of binary floating point out.  Where the outcome turns on
      rounding, the code is followed on IEEE doubles instead: the batch
      size of the karaoke sequencer in module [Binary64], the times and
      timestamps of the subtitle track in module [SrtBinary64].
    - A Python [int] is a [Z].
    - Files are reached through an explicit environment record; text
      measurement through a font record.  Calls that only draw or write
      are taken to return. *)

From Stdlib Require Import Ascii String List ZArith QArith Qround Lia Lqa Bool Arith.
From Stdlib Require Import PrimFloat FloatOps SpecFloat Uint63.
From Stdlib Require Import DecimalString.
Import ListNotations.

Local Open Scope Z_scope.

(** ** Python string primitives used by the sources *)

Module PyStr.

Definition str := list ascii.

Definition lit (s : string) : str := list_ascii_of_string s.

Definition len (s : str) : Z := Z.of_nat (length s).

(** [str.isspace] on one character: TAB..CR, FS..US, SPACE, NEL, NBSP.
    The regular expression class [\s] agrees with it. *)
Definition isspace (c : ascii) : bool :=
  let n := N_of_ascii c in
  (((9 <=? n) && (n <=? 13)) || ((28 <=? n) && (n <=? 32))
   || (n =? 133) || (n =? 160))%N.

Definition space : ascii := " "%char.
Definition newline : ascii := ascii_of_N 10.

(** Truthiness of a string: [if s:] *)
Definition truthy (s : str) : bool :=
  match s with [] => false | _ :: _ => true end.

Fixpoint lstrip (s : str) : str :=
  match s with
  | [] => []
  | c :: r => if isspace c then lstrip r else s
  end.

(** [s.rstrip()]: a character is kept when something is kept after it
    or when it is not whitespace. *)
Fixpoint rstrip (s : str) : str :=
  match s with
  | [] => []
  | c :: r =>
      match rstrip r with
      | [] => if isspace c then [] else [c]
      | (_ :: _) as r' => c :: r'
      end
  end.

(** [s.strip()] *)
Definition strip (s : str) : str := rstrip (lstrip s).

(** [s.replace('\n', ' ')] *)
Definition replace_newline (s : str) : str :=
  map (fun c => if Ascii.eqb c newline then space else c) s.

(** [s.replace('  ', ' ')]: one left-to-right pass over non-overlapping
    occurrences. *)
Fixpoint replace_double_space (s : str) : str :=
  match s with
  | a :: ((b :: r) as t) =>
      if Ascii.eqb a space && Ascii.eqb b space
      then space :: replace_double_space r
      else a :: replace_double_space t
  | _ => s
  end.

Definition push (w : str) (ws : list str) : list str :=
  match w with [] => ws | _ :: _ => w :: ws end.

Fixpoint split_aux (s : str) : str * list str :=
  match s with
  | [] => ([], [])
  | c :: r =>
      let '(w, ws) := split_aux r in
      if isspace c then ([], push w ws) else (c :: w, ws)
  end.

(** [s.split()]: the maximal runs of non-whitespace characters. *)
Definition split (s : str) : list str :=
  let '(w, ws) := split_aux s in push w ws.

(** [sep.join(l)] *)
Fixpoint join (sep : str) (l : list str) : str :=
  match l with
  | [] => []
  | x :: r => match r with [] => x | _ :: _ => x ++ sep ++ join sep r end
  end.

(** [s[:n]] for any integer [n] (a negative [n] counts from the end). *)
Definition slice_to (n : Z) (s : str) : str :=
  if 0 <=? n then firstn (Z.to_nat n) s
  else firstn (length s - Z.to_nat (- n)) s.

Definition is_sentence_end (c : ascii) : bool :=
  Ascii.eqb c "."%char || Ascii.eqb c "!"%char || Ascii.eqb c "?"%char.

(** Scanner state of [re.split(r'(?<=[.!?])\s+', s)]: the previous
    character was ordinary, was one of [.!?], or belongs to a separator
    being consumed. *)
Inductive scan := Plain | AfterEnd | InSep.

Fixpoint re_split_aux (m : scan) (s : str) : str * list str :=
  match s with
  | [] => ([], [])
  | c :: r =>
      if isspace c then
        match m with
        | Plain => let '(p, ps) := re_split_aux Plain r in (c :: p, ps)
        | AfterEnd => let '(p, ps) := re_split_aux InSep r in ([], p :: ps)
        | InSep => re_split_aux InSep r
        end
      else
        let '(p, ps) :=
          re_split_aux (if is_sentence_end c then AfterEnd else Plain) r in
        (c :: p, ps)
  end.

(** [re.split(r'(?<=[.!?])\s+', s)] *)
Definition re_split_sentences (s : str) : list str :=
  let '(p, ps) := re_split_aux Plain s in p :: ps.

(** The whitespace normalisation the spec speaks of: [' '.join(s.split())]. *)
Definition normalize (s : str) : str := join [space] (split s).

(** Predicates used in the statements: a string made of whitespace only,
    a string with no whitespace in it, and a word (non-empty, no
    whitespace). *)
Definition so_espacos (s : str) : bool := forallb isspace s.

Definition sem_espacos (s : str) : bool :=
  forallb (fun c => negb (isspace c)) s.

Definition e_palavra (s : str) : bool := truthy s && sem_espacos s.

End PyStr.

Import PyStr.

(** ** The two caption segmenters and the subtitle line wrapper *)

Module Segmenter.

(** Loop state of both segmenters: [(segmentos, segmento_atual)]. *)
Definition estado := (list str * str)%type.

Definition guardar (segmentos : list str) (segmento_atual : str) : list str :=
  if truthy segmento_atual then segmentos ++ [segmento_atual] else segmentos.

(** pptx_handler.py, body of [for palavra in palavras] (lines 1005-1011) *)
Definition srt_passo_palavra (max_chars : Z) (st : estado) (palavra : str)
  : estado :=
  let '(segmentos, segmento_atual) := st in
  if len segmento_atual + len palavra + 1 <=? max_chars
  then (segmentos, strip (segmento_atual ++ [space] ++ palavra))
  else (guardar segmentos segmento_atual, palavra).

(** pptx_handler.py, body of [for frase in frases] (lines 988-1013) *)
Definition srt_passo_frase (max_chars : Z) (st : estado) (frase0 : str)
  : estado :=
  let frase := strip frase0 in
  if negb (truthy frase) then st
  else
    let '(segmentos, segmento_atual) := st in
    if len segmento_atual + len frase + 1 <=? max_chars
    then (segmentos, strip (segmento_atual ++ [space] ++ frase))
    else
      let segmentos := guardar segmentos segmento_atual in
      if max_chars <? len frase
      then fold_left (srt_passo_palavra max_chars) (split frase)
                     (segmentos, [])
      else (segmentos, frase).

(** pptx_handler.py [_dividir_texto_segmentos_srt] (lines 969-1019);
    [max_linhas] is accepted and never read, as in the source. *)
Definition dividir_texto_segmentos_srt
    (texto : str) (max_chars : Z) (max_linhas : Z) : list str :=
  let texto := replace_double_space (replace_newline (strip texto)) in
  if len texto <=? max_chars then [texto]
  else
    let frases := re_split_sentences texto in
    let '(segmentos, segmento_atual) :=
      fold_left (srt_passo_frase max_chars) frases ([], []) in
    let segmentos := guardar segmentos segmento_atual in
    match segmentos with
    | [] => [slice_to max_chars texto]
    | _ :: _ => segmentos
    end.

Definition guardar_strip (segmentos : list str) (segmento_atual : str)
  : list str :=
  if truthy segmento_atual then segmentos ++ [strip segmento_atual]
  else segmentos.

(** video_generator.py, body of [for palavra in palavras] (lines 525-531) *)
Definition video_passo_palavra (max_chars_segmento : Z) (st : estado)
    (palavra : str) : estado :=
  let '(segmentos, segmento_atual) := st in
  if max_chars_segmento <? len segmento_atual + len palavra + 1
  then (guardar_strip segmentos segmento_atual, palavra)
  else (segmentos, strip (segmento_atual ++ [space] ++ palavra)).

(** video_generator.py, body of [for frase in frases] (lines 513-535) *)
Definition video_passo_frase (max_chars_segmento : Z) (st : estado)
    (frase0 : str) : estado :=
  let frase := strip frase0 in
  if negb (truthy frase) then st
  else
    let '(segmentos, segmento_atual) := st in
    if max_chars_segmento <? len segmento_atual + len frase + 1
    then
      let segmentos := guardar_strip segmentos segmento_atual in
      if max_chars_segmento <? len frase
      then fold_left (video_passo_palavra max_chars_segmento) (split frase)
                     (segmentos, [])
      else (segmentos, frase)
    else (segmentos, strip (segmento_atual ++ [space] ++ frase)).

(** The limit the video segmenter derives from [config.legendas_linhas]
    (video_generator.py lines 498-500). *)
Definition max_chars_video (legendas_linhas : Z) : Z :=
  Z.min (legendas_linhas * 40) 120.

(** video_generator.py [_dividir_texto_segmentos] (lines 496-543) *)
Definition dividir_texto_segmentos (legendas_linhas : Z) (texto : str)
  : list str :=
  let max_chars_segmento := max_chars_video legendas_linhas in
  let texto := replace_double_space (replace_newline (strip texto)) in
  if len texto <=? max_chars_segmento then [texto]
  else
    let frases := re_split_sentences texto in
    let '(segmentos, segmento_atual) :=
      fold_left (video_passo_frase max_chars_segmento) frases ([], []) in
    let segmentos := guardar_strip segmentos segmento_atual in
    match segmentos with
    | [] => [slice_to max_chars_segmento texto]
    | _ :: _ => segmentos
    end.

(** pptx_handler.py, the wrapping loop of [_formatar_texto_srt]
    (lines 1037-1049); returns [(linhas, linha_atual)] at loop exit,
    the [break] included. *)
Fixpoint srt_quebrar (max_chars_linha : Z) (palavras : list str)
    (linhas : list str) (linha_atual : list str) (tamanho_atual : Z)
  : list str * list str :=
  match palavras with
  | [] => (linhas, linha_atual)
  | palavra :: resto =>
      if tamanho_atual + len palavra + 1 <=? max_chars_linha
      then srt_quebrar max_chars_linha resto linhas
                       (linha_atual ++ [palavra])
                       (tamanho_atual + len palavra + 1)
      else
        let linhas :=
          match linha_atual with
          | [] => linhas
          | _ :: _ => linhas ++ [join [space] linha_atual]
          end in
        if (2 <=? length linhas)%nat then (linhas, [palavra])
        else srt_quebrar max_chars_linha resto linhas [palavra] (len palavra)
  end.

(** pptx_handler.py [_formatar_texto_srt] (lines 1021-1054) *)
Definition formatar_texto_srt (texto : str) (max_chars_linha : Z) : str :=
  let texto := replace_double_space (replace_newline (strip texto)) in
  if len texto <=? max_chars_linha then texto
  else
    let palavras := split texto in
    let '(linhas, linha_atual) :=
      srt_quebrar max_chars_linha palavras [] [] 0 in
    let linhas :=
      match linha_atual with
      | [] => linhas
      | _ :: _ =>
          if (length linhas <? 2)%nat
          then linhas ++ [join [space] linha_atual] else linhas
      end in
    join [newline] (firstn 2 linhas).

(** The words held by a loop state, in order: those of the finished
    segments, then those of the running one. *)
Definition palavras_do_estado (st : estado) : list str :=
  concat (map split (fst st)) ++ split (snd st).

(** A segment respects the limit, or is one unbroken run of
    non-whitespace characters. *)
Definition segmento_ok (max_chars : Z) (s : str) : Prop :=
  len s <= max_chars \/ sem_espacos s = true.

(** Every finished segment and the running one are such segments. *)
Definition estado_ok (max_chars : Z) (st : estado) : Prop :=
  Forall (segmento_ok max_chars) (fst st) /\ segmento_ok max_chars (snd st).

End Segmenter.

Import Segmenter.

(** ** Numbers: Python floats as exact rationals *)

Module Num.

Local Open Scope Q_scope.

Definition Qltb (x y : Q) : bool := negb (Qle_bool y x).

(** [max(a, b)]: [b] when [b > a], else [a]. *)
Definition py_max (a b : Q) : Q := if Qltb a b then b else a.

(** [int(x)] of a float: truncation toward zero. *)
Definition py_int (x : Q) : Z := Z.quot (Qnum x) (Zpos (Qden x)).

Definition of_nat (n : nat) : Q := inject_Z (Z.of_nat n).

Fixpoint Qsum (l : list Q) : Q :=
  match l with
  | [] => 0
  | x :: r => x + Qsum r
  end.

(** [enumerate(l)] *)
Definition enumerate {A} (l : list A) : list (nat * A) :=
  combine (seq 0 (length l)) l.

End Num.

Import Num.

(** ** What the code reads from the file system *)

Record Ambiente := {
  (** [os.path.exists(p)] *)
  existe : str -> bool;
  (** [AudioFileClip(p)]: [Some d] when it loads, with [.duration = d];
      [None] when it raises. *)
  audio_file_clip : str -> option Q;
  (** What the probing chain of [_obter_duracao_audio] returns for an
      existing file ([0.0] when every method fails). *)
  medir_audio : str -> Q
}.

(** pptx_handler.py [SlideInfo], the fields the engine reads. *)
Record SlideInfo := {
  texto_narrar : str;
  caminho_audio : str;
  duracao_audio : Q;
  texto_traduzido : str;
  caminho_audio_traduzido : str;
  duracao_audio_traduzido : Q
}.

(** ** Karaoke frame sequencer (video_generator.py lines 621-687) *)

Module Karaoke.

Local Open Scope Q_scope.

(** One emitted [ImageClip]: the highlighted word range handed to
    [_criar_frame_karaoke], its duration, and whether audio was set. *)
Record Clip := {
  idx_palavra_inicio : Z;
  idx_palavra_fim : Z;
  duracao_frame : Q;
  com_audio : bool
}.

Definition min_tempo_frame : Q := 3 # 10.

(** [range(0, n, k)] for [k >= 1] *)
Definition range_passo (n k : nat) : list nat :=
  map (fun j => (j * k)%nat) (seq 0 ((n + k - 1) / k)).

(** [l[i:i+k]] *)
Definition fatia {A} (l : list A) (i k : nat) : list A :=
  firstn k (skipn i l).

(** Line 637 *)
Definition palavras_por_frame (tempo_por_palavra : Q) : Z :=
  Z.max 1%Z (py_int (min_tempo_frame / tempo_por_palavra)).

(** Lines 635-642; [None] is the [ZeroDivisionError] of line 637. *)
Definition agrupar (palavras : list str) (tempo_por_palavra : Q)
  : option (list (list str)) :=
  if Qltb tempo_por_palavra min_tempo_frame then
    if Qeq_bool tempo_por_palavra 0 then None
    else
      let k := Z.to_nat (palavras_por_frame tempo_por_palavra) in
      Some (map (fun i => fatia palavras i k)
                (range_passo (length palavras) k))
  else Some (map (fun p => [p]) palavras).

(** Line 631 *)
Definition duracao_para_palavras (duracao_slide : Q) (duracao_audio : option Q)
  : Q :=
  match duracao_audio with
  | Some d => if negb (Qeq_bool d 0) && Qltb 0 d then d else duracao_slide
  | None => duracao_slide
  end.

(** Lines 652-657 *)
Definition carregar_audio (amb : Ambiente) (audio_path : option str) : bool :=
  match audio_path with
  | Some p =>
      if truthy p && existe amb p
      then match audio_file_clip amb p with Some _ => true | None => false end
      else false
  | None => false
  end.

(** [sum(len(g) for g in grupos_palavras[:idx])] *)
Definition palavras_antes (grupos : list (list str)) (idx : nat) : Z :=
  Z.of_nat (list_sum (map (@length str) (firstn idx grupos))).

(** Lines 659-685, one iteration *)
Definition clip_do_grupo (grupos : list (list str)) (num_frames : nat)
    (tempo_por_frame_audio tempo_extra_final : Q) (audio_clip : bool)
    (par : nat * list str) : Clip :=
  let '(idx, grupo) := par in
  let inicio := palavras_antes grupos idx in
  {| idx_palavra_inicio := inicio;
     idx_palavra_fim := (inicio + Z.of_nat (length grupo) - 1)%Z;
     duracao_frame :=
       if (idx =? num_frames - 1)%nat
       then tempo_por_frame_audio + tempo_extra_final
       else tempo_por_frame_audio;
     com_audio := (idx =? 0)%nat && audio_clip |}.

(** [_gerar_clips_karaoke]; [None] when the call raises.  The image drawn
    for a frame by [_criar_frame_karaoke] is represented by the word range
    it highlights. *)
Definition gerar_clips_karaoke (amb : Ambiente) (texto : str)
    (duracao_slide : Q) (audio_path : option str) (duracao_audio : option Q)
  : option (list Clip) :=
  let palavras := split (strip texto) in
  let num_palavras := length palavras in
  if (num_palavras =? 0)%nat then Some []
  else
    let dpp := duracao_para_palavras duracao_slide duracao_audio in
    let tempo_por_palavra := dpp / of_nat num_palavras in
    match agrupar palavras tempo_por_palavra with
    | None => None
    | Some grupos_palavras =>
        let num_frames := length grupos_palavras in
        let tempo_por_frame_audio := dpp / of_nat num_frames in
        let tempo_extra_final := py_max 0 (duracao_slide - dpp) in
        let audio_clip := carregar_audio amb audio_path in
        Some (map (clip_do_grupo grupos_palavras num_frames
                     tempo_por_frame_audio tempo_extra_final audio_clip)
                  (enumerate grupos_palavras))
    end.

End Karaoke.

(** ** The batch size of line 637 on IEEE doubles *)

Module Binary64.

(** [int(x)] of a finite double: truncation toward zero ([0] stands for
    the infinities and NaN, on which Python raises). *)
Definition py_int (x : float) : Z :=
  match Prim2SF x with
  | S754_finite s m e =>
      let v := if 0 <=? e then Z.pos m * 2 ^ e else Z.pos m / 2 ^ (- e) in
      if s then - v else v
  | _ => 0
  end.

(** An [int] below 2^63 used as a double. *)
Definition of_int (n : Z) : float := PrimFloat.of_uint63 (Uint63.of_Z n).

(** The double written [0.3]. *)
Definition min_tempo_frame : float := 0x1.3333333333333p-2%float.

(** Lines 633 and 637 *)
Definition palavras_por_frame (duracao_para_palavras : float)
    (num_palavras : Z) : Z :=
  let tempo_por_palavra :=
    (duracao_para_palavras / of_int num_palavras)%float in
  Z.max 1 (py_int (min_tempo_frame / tempo_por_palavra)%float).

End Binary64.

(** ** Per-slide timing of [gerar_video] (video_generator.py lines 910-1011) *)

Module Video.

Local Open Scope Q_scope.

(** video_generator.py [ConfigVideo], the fields read here. *)
Record ConfigVideo := {
  tempo_minimo_slide : Q;
  tempo_extra_slide : Q;
  legendas_embutidas : bool;
  legendas_linhas : Z;
  karaoke_ativo : bool;
  karaoke_usar_traducao : bool
}.

(** The messages handed to [_reportar_progresso] while the audio of a
    slide is chosen. *)
Inductive Relato :=
| AudioTraduzido (d : Q)
| FallbackOriginal (d : Q)
| AudioOriginal (d : Q)
| SemInformacao.

(** What lines 915-986 leave in the local variables. *)
Record Tempos := {
  audio_path : option str;
  duracao_audio_real : Q;
  duracao_audio_max : Q;
  duracao : Q;
  relatos : list Relato
}.

Definition disponivel (amb : Ambiente) (caminho : str) : bool :=
  truthy caminho && existe amb caminho.

(** Lines 925-931 and 933-939: the duration read from a file, the
    stored one when loading raises, [0] when there is no file. *)
Definition duracao_ficheiro (amb : Ambiente) (caminho : str) (guardada : Q)
  : Q :=
  if disponivel amb caminho then
    match audio_file_clip amb caminho with
    | Some d => d
    | None => guardada
    end
  else 0.

(** Lines 943-965 *)
Definition escolher_audio (amb : Ambiente) (usar_audio_traduzido : bool)
    (s : SlideInfo) (duracao_orig duracao_trad : Q)
  : option str * Q * list Relato :=
  if usar_audio_traduzido then
    if disponivel amb (caminho_audio_traduzido s)
    then (Some (caminho_audio_traduzido s), duracao_trad,
          [AudioTraduzido duracao_trad])
    else if disponivel amb (caminho_audio s)
    then (Some (caminho_audio s), duracao_orig,
          [FallbackOriginal duracao_orig])
    else (None, 0, [])
  else
    if disponivel amb (caminho_audio s)
    then (Some (caminho_audio s), duracao_orig, [AudioOriginal duracao_orig])
    else (None, 0, []).

(** Lines 983-986 *)
Definition duracao_total (cfg : ConfigVideo) (duracao_audio : Q) : Q :=
  if Qltb 0 duracao_audio then duracao_audio + tempo_extra_slide cfg
  else tempo_minimo_slide cfg.

(** Lines 915-986 *)
Definition tempos_slide (amb : Ambiente) (cfg : ConfigVideo)
    (usar_audio_traduzido : bool) (slide_info : option SlideInfo) : Tempos :=
  match slide_info with
  | Some s =>
      let duracao_orig :=
        duracao_ficheiro amb (caminho_audio s) (duracao_audio s) in
      let duracao_trad :=
        duracao_ficheiro amb (caminho_audio_traduzido s)
                         (duracao_audio_traduzido s) in
      let '(path, real, rel) :=
        escolher_audio amb usar_audio_traduzido s duracao_orig duracao_trad in
      let maior := py_max duracao_orig duracao_trad in
      let real := if Qle_bool real 0 then maior else real in
      let maior :=
        if Qle_bool maior 0
        then py_max (duracao_audio s) (duracao_audio_traduzido s)
        else maior in
      {| audio_path := path;
         duracao_audio_real := real;
         duracao_audio_max := maior;
         duracao := duracao_total cfg maior;
         relatos := rel |}
  | None =>
      {| audio_path := None;
         duracao_audio_real := 0;
         duracao_audio_max := 0;
         duracao := duracao_total cfg 0;
         relatos := [SemInformacao] |}
  end.

(** Lines 993-996 *)
Definition texto_karaoke (cfg : ConfigVideo) (s : SlideInfo) : str :=
  if karaoke_usar_traducao cfg
  then (if truthy (texto_traduzido s) then texto_traduzido s
        else texto_narrar s)
  else texto_narrar s.


End Video.

(** ** Subtitle writer [gerar_srt] (pptx_handler.py lines 864-967) *)

Module Srt.

Local Open Scope Q_scope.

(** One numbered block of the subtitle file; the two times are kept as
    numbers (the file holds them formatted to milliseconds).  In this
    module they are exact rationals: it serves for what does not depend
    on rounding (which entries there are, their numbers and texts, sums
    of durations).  The order of the times the code computes is a matter
    of module [SrtBinary64]. *)
Record Entrada := {
  indice : Z;
  inicio : Q;
  fim : Q;
  texto_formatado : str
}.

(** Loop state: [(linhas_srt, tempo_atual, contador)]. *)
Record Estado := {
  linhas_srt : list Entrada;
  tempo_atual : Q;
  contador : Z
}.

(** [_obter_duracao_audio] (lines 1093-1141) *)
Definition obter_duracao_audio (amb : Ambiente) (caminho : str) : Q :=
  if negb (truthy caminho) || negb (existe amb caminho) then 0
  else medir_audio amb caminho.

Definition duracao_se (amb : Ambiente) (caminho : str) : Q :=
  if truthy caminho then obter_duracao_audio amb caminho else 0.

(** Lines 892-906: the text of the slide *)
Definition texto_slide (usar_traducao : bool) (slide : SlideInfo) : str :=
  if usar_traducao
  then (if truthy (texto_traduzido slide) then texto_traduzido slide
        else texto_narrar slide)
  else texto_narrar slide.

(** Lines 892-921: the duration of the slide *)
Definition duracao_slide (amb : Ambiente) (usar_traducao : bool)
    (tempo_extra tempo_minimo : Q) (slide : SlideInfo) : Q :=
  let duracao :=
    if usar_traducao
    then py_max (duracao_se amb (caminho_audio_traduzido slide))
                (duracao_se amb (caminho_audio slide))
    else duracao_se amb (caminho_audio slide) in
  let duracao :=
    if Qle_bool duracao 0 then
      if usar_traducao
      then py_max (duracao_audio_traduzido slide) (duracao_audio slide)
      else duracao_audio slide
    else duracao in
  if Qltb 0 duracao then duracao + tempo_extra else tempo_minimo.

(** Lines 940-955, one iteration, the two sums and the product taken
    exactly (the code rounds each of them) *)
Definition entrada_do_segmento (tempo_atual : Q) (contador : Z)
    (duracao_por_segmento : Q) (par : nat * str) : Entrada :=
  let '(seg_idx, segmento) := par in
  let inicio := tempo_atual + of_nat seg_idx * duracao_por_segmento in
  {| indice := (contador + Z.of_nat seg_idx)%Z;
     inicio := inicio;
     fim := inicio + duracao_por_segmento;
     texto_formatado := formatar_texto_srt segmento 60 |}.

(** Lines 890-957, one slide; the running clock is the exact sum of the
    slide durations (in the code, the rounded one) *)
Definition passo_slide (amb : Ambiente) (usar_traducao : bool)
    (tempo_extra tempo_minimo : Q) (max_chars_segmento max_linhas : Z)
    (st : Estado) (slide : SlideInfo) : Estado :=
  let texto := texto_slide usar_traducao slide in
  let duracao_slide :=
    duracao_slide amb usar_traducao tempo_extra tempo_minimo slide in
  let avancar :=
    {| linhas_srt := linhas_srt st;
       tempo_atual := tempo_atual st + duracao_slide;
       contador := contador st |} in
  if negb (truthy texto) || negb (truthy (strip texto)) then avancar
  else
    let segmentos :=
      dividir_texto_segmentos_srt texto max_chars_segmento max_linhas in
    let num_segmentos := length segmentos in
    if (num_segmentos =? 0)%nat then avancar
    else
      let duracao_por_segmento := duracao_slide / of_nat num_segmentos in
      {| linhas_srt :=
           linhas_srt st ++
           map (entrada_do_segmento (tempo_atual st) (contador st)
                  duracao_por_segmento)
               (enumerate segmentos);
         tempo_atual := tempo_atual st + duracao_slide;
         contador := (contador st + Z.of_nat num_segmentos)%Z |}.

(** No entry ends after the next one starts. *)
Fixpoint sem_sobreposicao (l : list Entrada) : Prop :=
  match l with
  | [] => True
  | e1 :: r =>
      match r with
      | [] => True
      | e2 :: _ => fim e1 <= inicio e2
      end /\ sem_sobreposicao r
  end.

Definition estado_inicial : Estado :=
  {| linhas_srt := []; tempo_atual := 0; contador := 1%Z |}.

(** [gerar_srt]: the entries written for the slides of the presentation. *)
Definition gerar_srt (amb : Ambiente) (slides : list SlideInfo)
    (usar_traducao : bool) (tempo_extra tempo_minimo : Q)
    (max_chars_segmento max_linhas : Z) : list Entrada :=
  linhas_srt
    (fold_left (passo_slide amb usar_traducao tempo_extra tempo_minimo
                  max_chars_segmento max_linhas)
               slides estado_inicial).

End Srt.

(** ** Predicates used in the statements about line wrapping *)

(** A wrapped line: no line break in it, and within the limit unless it is
    one unbroken word. *)
Definition linha_ok (max_chars_linha : Z) (l : str) : Prop :=
  ~ In newline l /\ (len l <= max_chars_linha \/ sem_espacos l = true).

(** ** Plain line breaking by character count (pptx_handler.py) *)

Module Linhas.

(** [_quebrar_texto_linhas], body of [for palavra in palavras]
    (lines 847-852); the state is [(linhas, linha_atual)]. *)
Definition quebrar_passo (max_chars : Z) (st : list str * str) (palavra : str)
  : list str * str :=
  let '(linhas, linha_atual) := st in
  if len linha_atual + len palavra + 1 <=? max_chars
  then (linhas, strip (linha_atual ++ [space] ++ palavra))
  else ((if truthy linha_atual then linhas ++ [linha_atual] else linhas),
        palavra).

(** [_quebrar_texto_linhas] (lines 841-858) *)
Definition quebrar_texto_linhas (texto : str) (max_chars : Z) : list str :=
  let palavras := split (replace_newline texto) in
  let '(linhas, linha_atual) :=
    fold_left (quebrar_passo max_chars) palavras ([], []) in
  if truthy linha_atual then linhas ++ [linha_atual] else linhas.

(** [_formatar_texto_legenda], body of [for palavra in palavras]
    (lines 1077-1082); the state is [(linha1, linha2, tamanho_atual)]. *)
Definition legenda_passo (max_chars : Z) (st : list str * list str * Z)
    (palavra : str) : list str * list str * Z :=
  let '(linha1, linha2, tamanho_atual) := st in
  if tamanho_atual + len palavra + 1 <=? max_chars
  then (linha1 ++ [palavra], linha2, tamanho_atual + len palavra + 1)
  else (linha1, linha2 ++ [palavra], tamanho_atual).

(** The second line of [_formatar_texto_legenda] (lines 1086-1088) *)
Definition segunda_linha (max_chars : Z) (linha2 : list str) : str :=
  let texto_l2 := join [space] linha2 in
  if max_chars <? len texto_l2
  then slice_to (max_chars - 3) texto_l2 ++ lit "..."
  else texto_l2.

(** [_formatar_texto_legenda] (lines 1064-1091) *)
Definition formatar_texto_legenda (texto : str) (max_chars : Z) : str :=
  let texto := replace_double_space (replace_newline (strip texto)) in
  if len texto <=? max_chars then texto
  else
    let palavras := split texto in
    let '(linha1, linha2, _) :=
      fold_left (legenda_passo max_chars) palavras ([], [], 0) in
    let resultado := join [space] linha1 in
    match linha2 with
    | [] => resultado
    | _ :: _ => resultado ++ [newline] ++ segunda_linha max_chars linha2
    end.

End Linhas.

(** ** Line breaking by measured width (video_generator.py) *)

Module Medida.

(** The text-measurement capability: [draw.textbbox((0, 0), s, font=fonte)]
    as [(x0, y0, x1, y1)]. *)
Record Fonte := {
  textbbox : str -> Z * Z * Z * Z
}.

(** [bbox[2] - bbox[0]] *)
Definition largura (f : Fonte) (s : str) : Z :=
  let '(x0, _, x1, _) := textbbox f s in x1 - x0.

(** [draw.textbbox((0, 0), ' ', font=fonte)[2]] *)
Definition espaco (f : Fonte) : Z :=
  let '(_, _, x1, _) := textbbox f [space] in x1.

(** [_quebrar_texto_largura], body of [for palavra in palavras]
    (lines 479-489); the state is [(linhas, linha_atual)]. *)
Definition largura_passo (f : Fonte) (largura_max : Z)
    (st : list str * list str) (palavra : str) : list str * list str :=
  let '(linhas, linha_atual) := st in
  let linha_teste := join [space] (linha_atual ++ [palavra]) in
  if largura f linha_teste <=? largura_max
  then (linhas, linha_atual ++ [palavra])
  else
    (match linha_atual with
     | [] => linhas
     | _ :: _ => linhas ++ [join [space] linha_atual]
     end, [palavra]).

(** [_quebrar_texto_largura] (lines 473-494) *)
Definition quebrar_texto_largura (f : Fonte) (texto : str) (largura_max : Z)
  : list str :=
  let palavras := split texto in
  let '(linhas, linha_atual) :=
    fold_left (largura_passo f largura_max) palavras ([], []) in
  let linhas :=
    match linha_atual with
    | [] => linhas
    | _ :: _ => linhas ++ [join [space] linha_atual]
    end in
  match linhas with
  | [] => [slice_to 50 texto]
  | _ :: _ => linhas
  end.

(** [_organizar_palavras_linhas], body of [for palavra in palavras]
    (lines 838-848); the state is [(linhas, linha_atual, largura_atual)]. *)
Definition organizar_passo (f : Fonte) (largura_max : Z)
    (st : list (list str) * list str * Z) (palavra : str)
  : list (list str) * list str * Z :=
  let '(linhas, linha_atual, largura_atual) := st in
  let largura_palavra := largura f palavra in
  if (largura_atual + largura_palavra + espaco f <=? largura_max)
     || negb (match linha_atual with [] => false | _ :: _ => true end)
  then (linhas, linha_atual ++ [palavra],
        largura_atual + largura_palavra + espaco f)
  else (linhas ++ [linha_atual], [palavra], largura_palavra + espaco f).

(** [_organizar_palavras_linhas] (lines 831-854) *)
Definition organizar_palavras_linhas (f : Fonte) (palavras : list str)
    (largura_max : Z) : list (list str) :=
  let '(linhas, linha_atual, _) :=
    fold_left (organizar_passo f largura_max) palavras ([], [], 0) in
  match linha_atual with
  | [] => linhas
  | _ :: _ => linhas ++ [linha_atual]
  end.

(** The width a line of [_organizar_palavras_linhas] is charged with: each
    word and one space after it. *)
Definition largura_cobrada (f : Fonte) (linha : list str) : Z :=
  fold_right (fun p acc => largura f p + espaco f + acc) 0 linha.

End Medida.

(** ** The word indices a karaoke frame highlights *)


(** ** The number of subtitle entries a slide gives *)

(** Zero for a slide skipped at line 923, else the number of segments of
    its text. *)
Definition entradas_do_slide (usar_traducao : bool)
    (max_chars_segmento max_linhas : Z) (slide : SlideInfo) : nat :=
  let texto := Srt.texto_slide usar_traducao slide in
  if negb (truthy texto) || negb (truthy (strip texto)) then 0%nat
  else length (dividir_texto_segmentos_srt texto max_chars_segmento
                                           max_linhas).

(** ** Timestamps of the subtitle file (pptx_handler.py lines 1056-1062) *)

Module TempoSrt.

Local Open Scope Q_scope.

(** [x // m] on floats, for [m > 0] *)
Definition floordiv (x m : Q) : Q := inject_Z (Qfloor (x / m)).

(** [x % m] on floats, for [m > 0] *)
Definition pymod (x m : Q) : Q := x - m * inject_Z (Qfloor (x / m)).

(** The four integers [horas], [minutos], [segs], [milisseg] of
    [_formatar_tempo_srt] (lines 1058-1061). *)
Definition campos_tempo_srt (segundos : Q) : Z * Z * Z * Z :=
  let horas := py_int (floordiv segundos 3600) in
  let minutos := py_int (floordiv (pymod segundos 3600) 60) in
  let segs := py_int (pymod segundos 60) in
  let milisseg := py_int (pymod segundos 1 * 1000) in
  (horas, minutos, segs, milisseg).

(** The decimal digits of a non-negative integer. *)
Definition digitos (n : Z) : str :=
  lit (NilZero.string_of_uint (N.to_uint (Z.to_N n))).

(** [f"{n:0Wd}"]: zero padding to width [W], the sign counted in. *)
Definition fmt_0d (largura : nat) (n : Z) : str :=
  if (n <? 0)%Z
  then lit "-" ++ repeat "0"%char (largura - 1 - length (digitos (- n)))
           ++ digitos (- n)
  else repeat "0"%char (largura - length (digitos n)) ++ digitos n.

(** [_formatar_tempo_srt] (lines 1056-1062) *)
Definition formatar_tempo_srt (segundos : Q) : str :=
  let '(horas, minutos, segs, milisseg) := campos_tempo_srt segundos in
  fmt_0d 2 horas ++ lit ":" ++ fmt_0d 2 minutos ++ lit ":" ++ fmt_0d 2 segs
  ++ lit "," ++ fmt_0d 3 milisseg.

(** The instant a timestamp denotes, in milliseconds. *)
Definition milissegundos (campos : Z * Z * Z * Z) : Z :=
  let '(horas, minutos, segs, milisseg) := campos in
  (((horas * 60 + minutos) * 60 + segs) * 1000 + milisseg)%Z.

End TempoSrt.

(** ** The slide store of [GestorPPTX] (pptx_handler.py lines 168-205) *)

Module Gestor.

(** [self.apresentacao]: [None] until a presentation is opened, else the
    slide list of its [ApresentacaoInfo].  [abrir] builds one [SlideInfo]
    object per slide, so the entries of the list are distinct objects and
    an assignment to a field of one of them is an update at its index. *)
Definition Apresentacao := option (list SlideInfo).

(** [num_slides] (lines 168-173) *)
Definition num_slides (g : Apresentacao) : Z :=
  match g with
  | Some slides => Z.of_nat (length slides)
  | None => 0
  end.

(** [obter_slide] (lines 175-179) *)
Definition obter_slide (g : Apresentacao) (numero : Z) : option SlideInfo :=
  match g with
  | Some slides =>
      if (1 <=? numero) && (numero <=? num_slides g)
      then nth_error slides (Z.to_nat (numero - 1))
      else None
  | None => None
  end.

(** [slide.texto_narrar = texto] *)
Definition com_texto_narrar (texto : str) (s : SlideInfo) : SlideInfo :=
  {| texto_narrar := texto;
     caminho_audio := caminho_audio s;
     duracao_audio := duracao_audio s;
     texto_traduzido := texto_traduzido s;
     caminho_audio_traduzido := caminho_audio_traduzido s;
     duracao_audio_traduzido := duracao_audio_traduzido s |}.

(** [slide.texto_traduzido = texto] *)
Definition com_texto_traduzido (texto : str) (s : SlideInfo) : SlideInfo :=
  {| texto_narrar := texto_narrar s;
     caminho_audio := caminho_audio s;
     duracao_audio := duracao_audio s;
     texto_traduzido := texto;
     caminho_audio_traduzido := caminho_audio_traduzido s;
     duracao_audio_traduzido := duracao_audio_traduzido s |}.

(** [slide.caminho_audio = caminho; slide.duracao_audio = duracao] *)
Definition com_audio_original (caminho : str) (duracao : Q) (s : SlideInfo)
  : SlideInfo :=
  {| texto_narrar := texto_narrar s;
     caminho_audio := caminho;
     duracao_audio := duracao;
     texto_traduzido := texto_traduzido s;
     caminho_audio_traduzido := caminho_audio_traduzido s;
     duracao_audio_traduzido := duracao_audio_traduzido s |}.

(** [slide.caminho_audio_traduzido = caminho;
     slide.duracao_audio_traduzido = duracao] *)
Definition com_audio_traduzido (caminho : str) (duracao : Q) (s : SlideInfo)
  : SlideInfo :=
  {| texto_narrar := texto_narrar s;
     caminho_audio := caminho_audio s;
     duracao_audio := duracao_audio s;
     texto_traduzido := texto_traduzido s;
     caminho_audio_traduzido := caminho;
     duracao_audio_traduzido := duracao |}.

(** The list with the element at index [i] replaced. *)
Fixpoint substituir {A} (i : nat) (x : A) (l : list A) : list A :=
  match l, i with
  | [], _ => []
  | _ :: r, O => x :: r
  | y :: r, S j => y :: substituir j x r
  end.

(** [slide = self.obter_slide(numero)] followed by [if slide:] and the
    assignments [f] to its fields. *)
Definition alterar_slide (g : Apresentacao) (numero : Z)
    (f : SlideInfo -> SlideInfo) : Apresentacao :=
  match obter_slide g numero, g with
  | Some slide, Some slides =>
      Some (substituir (Z.to_nat (numero - 1)) (f slide) slides)
  | _, _ => g
  end.

(** [atualizar_texto_narrar] (lines 181-185) *)
Definition atualizar_texto_narrar (g : Apresentacao) (numero : Z)
    (texto : str) : Apresentacao :=
  alterar_slide g numero (com_texto_narrar texto).

(** [atualizar_texto_traduzido] (lines 187-191) *)
Definition atualizar_texto_traduzido (g : Apresentacao) (numero : Z)
    (texto : str) : Apresentacao :=
  alterar_slide g numero (com_texto_traduzido texto).

(** [definir_audio_slide] (lines 193-198) *)
Definition definir_audio_slide (g : Apresentacao) (numero : Z)
    (caminho : str) (duracao : Q) : Apresentacao :=
  alterar_slide g numero (com_audio_original caminho duracao).

(** [definir_audio_traduzido_slide] (lines 200-205) *)
Definition definir_audio_traduzido_slide (g : Apresentacao) (numero : Z)
    (caminho : str) (duracao : Q) : Apresentacao :=
  alterar_slide g numero (com_audio_traduzido caminho duracao).

End Gestor.

(** ** Where the audio icons go (pptx_handler.py lines 272-362) *)

Module Icone.

(** Lengths are integers in EMU; [Cm(x)] is [int(x * 360000)]. *)
Definition margem : Z := 180000.          (* Cm(0.5) *)
Definition espaco_entre : Z := 108000.    (* Cm(0.3) *)
Definition margem_com_legenda : Z := 900000.   (* Cm(2.5) *)

(** [a == b] on strings *)
Fixpoint igual (a b : str) : bool :=
  match a, b with
  | [], [] => true
  | x :: a', y :: b' => Ascii.eqb x y && igual a' b'
  | _, _ => false
  end.

(** [_calcular_posicao_icone]; [largura] and [altura] are the slide's,
    [tamanho] is [Cm(self.config_icone.tamanho_cm)]. *)
Definition calcular_posicao_icone (largura altura tamanho : Z)
    (posicao : str) (incluir_segundo tem_legenda : bool)
  : (Z * Z) * (Z * Z) :=
  let margem_inferior := if tem_legenda then margem_com_legenda else margem in
  let largura_dois := tamanho * 2 + espaco_entre in
  let centro_x := (largura - tamanho) / 2 in
  let centro_y := (altura - tamanho) / 2 in
  if igual posicao (lit "sup_dir") then
    if incluir_segundo
    then ((largura - largura_dois - margem, margem),
          (largura - tamanho - margem, margem))
    else ((largura - tamanho - margem, margem),
          (largura - tamanho - margem, margem))
  else if igual posicao (lit "sup_esq") then
    ((margem, margem), (margem + tamanho + espaco_entre, margem))
  else if igual posicao (lit "inf_dir") then
    let y_pos := altura - tamanho - margem_inferior in
    if incluir_segundo
    then ((largura - largura_dois - margem, y_pos),
          (largura - tamanho - margem, y_pos))
    else ((largura - tamanho - margem, y_pos),
          (largura - tamanho - margem, y_pos))
  else if igual posicao (lit "inf_esq") then
    let y_pos := altura - tamanho - margem_inferior in
    ((margem, y_pos), (margem + tamanho + espaco_entre, y_pos))
  else if igual posicao (lit "centro_esq") then
    ((margem, centro_y), (margem, centro_y + tamanho + espaco_entre))
  else if igual posicao (lit "centro_dir") then
    if incluir_segundo
    then ((largura - tamanho - margem,
           centro_y - tamanho / 2 - espaco_entre / 2),
          (largura - tamanho - margem,
           centro_y + tamanho / 2 + espaco_entre / 2))
    else ((largura - tamanho - margem, centro_y),
          (largura - tamanho - margem, centro_y))
  else if igual posicao (lit "centro_sup") then
    if incluir_segundo
    then ((centro_x - tamanho / 2 - espaco_entre / 2, margem),
          (centro_x + tamanho / 2 + espaco_entre / 2, margem))
    else ((centro_x, margem), (centro_x, margem))
  else if igual posicao (lit "centro_inf") then
    let y_pos := altura - tamanho - margem_inferior in
    if incluir_segundo
    then ((centro_x - tamanho / 2 - espaco_entre / 2, y_pos),
          (centro_x + tamanho / 2 + espaco_entre / 2, y_pos))
    else ((centro_x, y_pos), (centro_x, y_pos))
  else
    ((largura - tamanho - margem, margem),
     (largura - tamanho - margem, margem)).

(** The eight positions [ConfigIcone] documents. *)
Definition posicoes : list str :=
  [lit "sup_dir"; lit "sup_esq"; lit "inf_dir"; lit "inf_esq";
   lit "centro_sup"; lit "centro_inf"; lit "centro_esq"; lit "centro_dir"].


End Icone.

(** ** Fitting a slide image into the frame (video_generator.py
    lines 400-427) *)

Module Imagem.

Local Open Scope Q_scope.

(** What [_redimensionar_imagem] computes: the size the image is resized
    to and where it is pasted on the black frame. *)
Record Colagem := {
  novo_w : Z;
  novo_h : Z;
  pos_x : Z;
  pos_y : Z
}.

(** Lines 406-420, for a frame of [largura] x [altura] and an image of
    [img_w] x [img_h]; [None] is a [ZeroDivisionError]. *)
Definition redimensionar (largura altura img_w img_h : Z) : option Colagem :=
  if (img_h =? 0)%Z || (altura =? 0)%Z then None
  else
    let img_ratio := inject_Z img_w / inject_Z img_h in
    let video_ratio := inject_Z largura / inject_Z altura in
    if Qltb video_ratio img_ratio then
      if Qeq_bool img_ratio 0 then None
      else
        let novo_w := largura in
        let novo_h := py_int (inject_Z largura / img_ratio) in
        Some {| novo_w := novo_w;
                novo_h := novo_h;
                pos_x := ((largura - novo_w) / 2)%Z;
                pos_y := ((altura - novo_h) / 2)%Z |}
    else
      let novo_h := altura in
      let novo_w := py_int (inject_Z altura * img_ratio) in
      Some {| novo_w := novo_w;
              novo_h := novo_h;
              pos_x := ((largura - novo_w) / 2)%Z;
              pos_y := ((altura - novo_h) / 2)%Z |}.

End Imagem.

(** ** The caption band drawn under or over a slide image
    (video_generator.py lines 545-619 and 689-764) *)

Module Legenda.

(** [l[:n]] on a list, for any integer [n] *)
Definition fatia_ate {A} (n : Z) (l : list A) : list A :=
  if 0 <=? n then firstn (Z.to_nat n) l
  else firstn (length l - Z.to_nat (- n)) l.

(** [s.startswith(prefixo)] *)
Fixpoint startswith (s prefixo : str) {struct prefixo} : bool :=
  match prefixo, s with
  | [], _ => true
  | _ :: _, [] => false
  | p :: prefixo', c :: s' => Ascii.eqb c p && startswith s' prefixo'
  end.

(** [s.endswith(sufixo)] *)
Definition endswith (s sufixo : str) : bool :=
  startswith (rev s) (rev sufixo).

(** Lines 593-596: the lines beyond [max_linhas] are dropped and the last
    line kept is marked with an ellipsis; [None] is the [IndexError] of
    [linhas[-1]] on an empty list. *)
Definition limitar_linhas (max_linhas : Z) (linhas : list str)
  : option (list str) :=
  if max_linhas <? Z.of_nat (length linhas) then
    let linhas := fatia_ate max_linhas linhas in
    match rev linhas with
    | [] => None
    | ultima :: antes =>
        if truthy ultima && negb (endswith ultima (lit "..."))
        then Some (rev antes ++
                   [if 3 <? len ultima
                    then slice_to (-3) ultima ++ lit "..."
                    else lit "..."])
        else Some linhas
    end
  else Some linhas.

(** [max(20, int(altura_orig * 0.028))], the product taken exactly. *)
Definition tamanho_fonte (altura_orig : Z) : Z :=
  Z.max 20 (py_int (inject_Z altura_orig * (28 # 1000))).

(** The band: the height of one line, the height of the band, the height
    of the finished image and the row the band starts at. *)
Record Faixa := {
  altura_linha : Z;
  altura_barra : Z;
  altura : Z;
  y_barra : Z
}.

(** Lines 549-583 (and, identically, 694-727): in mode "sobrepor" the band
    covers the bottom of the image, otherwise it is added below it. *)
Definition faixa (modo_sobrepor : bool) (max_linhas altura_orig : Z) : Faixa :=
  let altura_linha := tamanho_fonte altura_orig + 8 in
  let altura_barra := max_linhas * altura_linha + 20 in
  if modo_sobrepor
  then {| altura_linha := altura_linha;
          altura_barra := altura_barra;
          altura := altura_orig;
          y_barra := altura_orig - altura_barra |}
  else {| altura_linha := altura_linha;
          altura_barra := altura_barra;
          altura := altura_orig + altura_barra;
          y_barra := altura_orig |}.

(** Lines 598-599 and 608: the row line [i] of [n_linhas] is drawn at. *)
Definition y_linha (f : Faixa) (n_linhas i : Z) : Z :=
  let altura_total_texto := n_linhas * altura_linha f in
  let y_inicio := y_barra f + (altura_barra f - altura_total_texto) / 2 in
  y_inicio + i * altura_linha f.

(** Lines 586-608 of [_adicionar_legenda_imagem]: the lines drawn, each
    with its row; an empty line is skipped (line 602). *)
Definition linhas_desenhadas (fonte : Medida.Fonte) (modo_sobrepor : bool)
    (max_linhas largura_orig altura_orig : Z) (texto : str)
  : option (list (Z * str)) :=
  let texto := replace_double_space (replace_newline (strip texto)) in
  let margem := 40 in
  let largura_max := largura_orig - margem * 2 in
  let linhas := Medida.quebrar_texto_largura fonte texto largura_max in
  match limitar_linhas max_linhas linhas with
  | None => None
  | Some linhas =>
      let f := faixa modo_sobrepor max_linhas altura_orig in
      let n := Z.of_nat (length linhas) in
      Some (map (fun '(i, linha) => (y_linha f n (Z.of_nat i), linha))
                (filter (fun '(_, linha) => truthy linha)
                        (enumerate linhas)))
  end.

End Legenda.

(** ** The lines a karaoke frame shows (video_generator.py
    lines 733-817) *)

Module Quadro.

(** A slice bound [i] of [l[a:b]] brought into [0 .. len(l)]. *)
Definition indice_fatia (n i : Z) : Z :=
  if i <? 0 then Z.max 0 (i + n) else Z.min i n.

(** [l[a:b]] for any integers [a] and [b] *)
Definition fatia_entre {A} (a b : Z) (l : list A) : list A :=
  let n := Z.of_nat (length l) in
  let a' := indice_fatia n a in
  let b' := indice_fatia n b in
  firstn (Z.to_nat (b' - a')) (skipn (Z.to_nat a') l).

(** [sum(len(l) for l in linhas)] *)
Definition conta_palavras (linhas : list (list str)) : Z :=
  Z.of_nat (list_sum (map (@length str) linhas)).

(** Lines 736-742: the index of the first line that reaches past word
    [idx_inicio]; [linha_atual] keeps its initial 0 when no line does. *)
Fixpoint procurar_linha (linhas : list (list str)) (i contador idx_inicio : Z)
  : Z :=
  match linhas with
  | [] => 0
  | linha :: resto =>
      if idx_inicio <? contador + Z.of_nat (length linha) then i
      else procurar_linha resto (i + 1)
                          (contador + Z.of_nat (length linha)) idx_inicio
  end.

(** What the frame shows: the visible lines and the global index of their
    first word. *)
Record Janela := {
  linhas_visiveis : list (list str);
  idx_offset : Z
}.

(** Lines 735-753, mode "scroll"; [None] is the [IndexError] of
    [linhas_palavras[i]] in line 753. *)
Definition janela_scroll (max_linhas idx_inicio : Z)
    (linhas_palavras : list (list str)) : option Janela :=
  let n := Z.of_nat (length linhas_palavras) in
  let linha_atual := procurar_linha linhas_palavras 0 0 idx_inicio in
  let linhas_antes := max_linhas / 2 in
  let linha_inicio := Z.max 0 (linha_atual - linhas_antes) in
  let linha_fim := Z.min n (linha_inicio + max_linhas) in
  let linha_inicio :=
    if linha_fim =? n then Z.max 0 (linha_fim - max_linhas)
    else linha_inicio in
  if linha_inicio <=? n
  then Some {| linhas_visiveis :=
                 fatia_entre linha_inicio linha_fim linhas_palavras;
               idx_offset :=
                 conta_palavras
                   (firstn (Z.to_nat linha_inicio) linhas_palavras) |}
  else None.

(** Lines 758-765: the first page that reaches past word [idx_inicio]. *)
Fixpoint procurar_pagina (paginas : list (list (list str)))
    (contador idx_inicio : Z) : option Janela :=
  match paginas with
  | [] => None
  | linhas_pagina :: resto =>
      let palavras_pagina := conta_palavras linhas_pagina in
      if idx_inicio <? contador + palavras_pagina
      then Some {| linhas_visiveis := linhas_pagina;
                   idx_offset := contador |}
      else procurar_pagina resto (contador + palavras_pagina) idx_inicio
  end.

(** Lines 755-768, the other mode; [None] is the [ValueError] of a
    [range] with step zero.  A negative step gives an empty range, and
    the [else] of the loop then takes [linhas_palavras[:max_linhas]]. *)
Definition janela_pagina (max_linhas idx_inicio : Z)
    (linhas_palavras : list (list str)) : option Janela :=
  let primeira :=
    {| linhas_visiveis := fatia_entre 0 max_linhas linhas_palavras;
       idx_offset := 0 |} in
  if max_linhas =? 0 then None
  else if max_linhas <? 0 then Some primeira
  else
    let k := Z.to_nat max_linhas in
    let paginas :=
      map (fun i => Karaoke.fatia linhas_palavras i k)
          (Karaoke.range_passo (length linhas_palavras) k) in
    match procurar_pagina paginas 0 idx_inicio with
    | Some j => Some j
    | None => Some primeira
    end.

(** Lines 733-768 *)
Definition janela (modo_scroll : bool) (max_linhas idx_inicio : Z)
    (linhas_palavras : list (list str)) : option Janela :=
  if modo_scroll then janela_scroll max_linhas idx_inicio linhas_palavras
  else janela_pagina max_linhas idx_inicio linhas_palavras.

(** Lines 775-817: the words drawn, in order, each with the value
    [idx_palavra_global] has when it is drawn and whether it gets the
    highlight box of line 786. *)
Definition palavras_desenhadas (j : Janela) (idx_inicio idx_fim : Z)
  : list (Z * str * bool) :=
  map (fun '(k, palavra) =>
         let idx_palavra_global := idx_offset j + Z.of_nat k in
         (idx_palavra_global, palavra,
          (idx_inicio <=? idx_palavra_global)
          && (idx_palavra_global <=? idx_fim)))
      (enumerate (concat (linhas_visiveis j))).

End Quadro.

(** ** The clips [gerar_video] puts together (video_generator.py
    lines 856-1072) *)

Module Montagem.

Local Open Scope Q_scope.

(** The picture of a clip, by the call that made it; the drawing calls
    are taken to return. *)
Inductive Figura :=
| Simples                        (* _redimensionar_imagem(img_path) *)
| ComLegenda (texto : str)       (* _adicionar_legenda_imagem(img, texto) *)
| QuadroKaraoke (idx_inicio idx_fim : Z).   (* _criar_frame_karaoke *)

(** One [ImageClip] of the list handed to [concatenate_videoclips]. *)
Record ClipVideo := {
  figura : Figura;
  duracao_clip : Q;
  audio : bool
}.

Definition de_karaoke (c : Karaoke.Clip) : ClipVideo :=
  {| figura := QuadroKaraoke (Karaoke.idx_palavra_inicio c)
                             (Karaoke.idx_palavra_fim c);
     duracao_clip := Karaoke.duracao_frame c;
     audio := Karaoke.com_audio c |}.

(** Line 1014; [legendas_usar_traducao] is the field of [ConfigVideo]. *)
Definition texto_legenda (legendas_usar_traducao : bool) (s : SlideInfo)
  : str :=
  if legendas_usar_traducao then texto_traduzido s else texto_narrar s.

(** Lines 1019-1042, reached with more than one segment; [None] when
    [AudioFileClip] raises at line 1034, which no handler inside the loop
    catches. *)
Definition clips_segmentos (amb : Ambiente) (segmentos : list str)
    (duracao : Q) (audio_path : option str) : option (list ClipVideo) :=
  let num_segmentos := length segmentos in
  let duracao_por_segmento := duracao / of_nat num_segmentos in
  let com_som :=
    match audio_path with Some p => truthy p | None => false end in
  let carregou :=
    match audio_path with
    | Some p =>
        match audio_file_clip amb p with Some _ => true | None => false end
    | None => false
    end in
  if com_som && negb carregou then None
  else
    Some (map (fun '(seg_idx, segmento) =>
                 {| figura := ComLegenda segmento;
                    duracao_clip := duracao_por_segmento;
                    audio := (seg_idx =? 0)%nat && com_som |})
              (enumerate segmentos)).

(** Lines 1050-1065 *)
Definition clip_simples (amb : Ambiente) (img_processada : Figura)
    (duracao : Q) (audio_path : option str) : ClipVideo :=
  {| figura := img_processada;
     duracao_clip := duracao;
     audio := Karaoke.carregar_audio amb audio_path |}.

(** One iteration of the loop over the slide images (lines 910-1065):
    the clips it appends; [None] when it raises. *)
Definition clips_do_slide (amb : Ambiente) (cfg : Video.ConfigVideo)
    (legendas_usar_traducao usar_audio_traduzido : bool)
    (slide_info : option SlideInfo) : option (list ClipVideo) :=
  let t := Video.tempos_slide amb cfg usar_audio_traduzido slide_info in
  let duracao := Video.duracao t in
  let audio_path := Video.audio_path t in
  let simples img_processada :=
    Some [clip_simples amb img_processada duracao audio_path] in
  match slide_info with
  | Some s =>
      if Video.legendas_embutidas cfg then
        if Video.karaoke_ativo cfg then
          let texto_karaoke := Video.texto_karaoke cfg s in
          if truthy texto_karaoke && truthy (strip texto_karaoke) then
            match Karaoke.gerar_clips_karaoke
                    amb texto_karaoke duracao audio_path
                    (Some (Video.duracao_audio_real t)) with
            | None => None
            | Some [] => simples Simples
            | Some ((_ :: _) as clips_karaoke) =>
                Some (map de_karaoke clips_karaoke)
            end
          else simples Simples
        else
          let texto_legenda := texto_legenda legendas_usar_traducao s in
          if truthy texto_legenda && truthy (strip texto_legenda) then
            let segmentos :=
              dividir_texto_segmentos (Video.legendas_linhas cfg)
                                      texto_legenda in
            if (1 <? length segmentos)%nat
            then clips_segmentos amb segmentos duracao audio_path
            else simples (ComLegenda texto_legenda)
          else simples Simples
      else simples Simples
  | None => simples Simples
  end.

(** The loop body folded over the images. *)
Definition juntar_slide (amb : Ambiente) (cfg : Video.ConfigVideo)
    (legendas_usar_traducao usar_audio_traduzido : bool)
    (g : Gestor.Apresentacao) (clips : option (list ClipVideo)) (i : nat)
  : option (list ClipVideo) :=
  match clips with
  | None => None
  | Some clips =>
      let slide_num := (Z.of_nat i + 1)%Z in
      match clips_do_slide amb cfg legendas_usar_traducao
                           usar_audio_traduzido
                           (Gestor.obter_slide g slide_num) with
      | None => None
      | Some novos => Some (clips ++ novos)
      end
  end.

(** [gerar_video] up to the call of [concatenate_videoclips]
    (lines 873-1072), with MoviePy available and [n_imagens] exported
    slide images: the clip list, or [None] when the method returns
    [False] before that. *)
Definition clips_do_video (amb : Ambiente) (cfg : Video.ConfigVideo)
    (legendas_usar_traducao usar_audio_traduzido : bool)
    (g : Gestor.Apresentacao) (n_imagens : nat)
  : option (list ClipVideo) :=
  match g with
  | None => None
  | Some _ =>
      if (n_imagens =? 0)%nat then None
      else
        match fold_left (juntar_slide amb cfg legendas_usar_traducao
                                      usar_audio_traduzido g)
                        (seq 0 n_imagens) (Some []) with
        | None => None
        | Some [] => None
        | Some ((_ :: _) as clips) => Some clips
        end
  end.

End Montagem.

(** ** What [_formatar_texto_legenda] charges a line with *)

(** The value [tamanho_atual] has for the words of [linha1]: each word and
    one more. *)
Fixpoint custo (l : list str) : Z :=
  match l with
  | [] => 0
  | w :: r => len w + 1 + custo r
  end.

(** ** What a karaoke frame draws, and the words of a clip's caption *)

(** [_criar_frame_karaoke] (video_generator.py lines 689-829), for an
    image [largura] pixels wide: the words drawn, each with its index and
    whether it is highlighted; [None] when the call raises. *)
Definition criar_frame_karaoke (fonte : Medida.Fonte) (modo_scroll : bool)
    (max_linhas largura : Z) (palavras : list str) (idx_inicio idx_fim : Z)
  : option (list (Z * str * bool)) :=
  let margem := 40 in
  let largura_max := largura - margem * 2 in
  let linhas_palavras :=
    Medida.organizar_palavras_linhas fonte palavras largura_max in
  match Quadro.janela modo_scroll max_linhas idx_inicio linhas_palavras with
  | Some j => Some (Quadro.palavras_desenhadas j idx_inicio idx_fim)
  | None => None
  end.

(** The words of the text a clip's caption was drawn from; a clip
    without a caption has none. *)
Definition palavras_da_legenda (c : Montagem.ClipVideo) : list str :=
  match Montagem.figura c with
  | Montagem.ComLegenda texto => split texto
  | _ => []
  end.

(** ** The subtitle times on IEEE doubles (pptx_handler.py lines 892-957
    and 1056-1062) *)

(** Module [Srt] above keeps every time as an exact rational.  The code
    computes on doubles and rounds at every step; this module follows the
    same lines with the operations of binary64, so that the order of the
    times it yields is the order the code sees. *)

Module SrtBinary64.

(** The double a duration [n/d] of the environment or of a slide stands
    for: the quotient of the two integers, correctly rounded (for
    integers below 2^53 that is the double nearest to [n/d], the one the
    literal [3.4] denotes for [34/10]). *)
Definition de_Q (x : Q) : float :=
  let d := Binary64.of_int (Zpos (Qden x)) in
  if Qnum x <? 0
  then (- (Binary64.of_int (- Qnum x) / d))%float
  else (Binary64.of_int (Qnum x) / d)%float.

Record Entrada := {
  indice : Z;
  inicio : float;
  fim : float;
  texto_formatado : str
}.

(** Loop state: [(linhas_srt, tempo_atual, contador)]. *)
Record Estado := {
  linhas_srt : list Entrada;
  tempo_atual : float;
  contador : Z
}.

(** [max(a, b)]: [b] when [b > a], else [a]. *)
Definition py_max (a b : float) : float := if (a <? b)%float then b else a.

(** [self._obter_duracao_audio(caminho) if caminho else 0] *)
Definition duracao_se (amb : Ambiente) (caminho : str) : float :=
  if truthy caminho
  then (if negb (existe amb caminho) then 0%float
        else de_Q (medir_audio amb caminho))
  else 0%float.

(** Lines 892-921: the duration of the slide *)
Definition duracao_slide (amb : Ambiente) (usar_traducao : bool)
    (tempo_extra tempo_minimo : float) (slide : SlideInfo) : float :=
  let duracao :=
    if usar_traducao
    then py_max (duracao_se amb (caminho_audio_traduzido slide))
                (duracao_se amb (caminho_audio slide))
    else duracao_se amb (caminho_audio slide) in
  let duracao :=
    if (duracao <=? 0)%float then
      if usar_traducao
      then py_max (de_Q (duracao_audio_traduzido slide))
                  (de_Q (duracao_audio slide))
      else de_Q (duracao_audio slide)
    else duracao in
  if (0 <? duracao)%float then (duracao + tempo_extra)%float
  else tempo_minimo.

(** Lines 940-955, one iteration *)
Definition entrada_do_segmento (tempo_atual : float) (contador : Z)
    (duracao_por_segmento : float) (par : nat * str) : Entrada :=
  let '(seg_idx, segmento) := par in
  let inicio :=
    (tempo_atual
     + Binary64.of_int (Z.of_nat seg_idx) * duracao_por_segmento)%float in
  {| indice := contador + Z.of_nat seg_idx;
     inicio := inicio;
     fim := (inicio + duracao_por_segmento)%float;
     texto_formatado := formatar_texto_srt segmento 60 |}.

(** Lines 890-957, one slide *)
Definition passo_slide (amb : Ambiente) (usar_traducao : bool)
    (tempo_extra tempo_minimo : float) (max_chars_segmento max_linhas : Z)
    (st : Estado) (slide : SlideInfo) : Estado :=
  let texto := Srt.texto_slide usar_traducao slide in
  let duracao_slide :=
    duracao_slide amb usar_traducao tempo_extra tempo_minimo slide in
  let avancar :=
    {| linhas_srt := linhas_srt st;
       tempo_atual := (tempo_atual st + duracao_slide)%float;
       contador := contador st |} in
  if negb (truthy texto) || negb (truthy (strip texto)) then avancar
  else
    let segmentos :=
      dividir_texto_segmentos_srt texto max_chars_segmento max_linhas in
    let num_segmentos := length segmentos in
    if (num_segmentos =? 0)%nat then avancar
    else
      let duracao_por_segmento :=
        (duracao_slide / Binary64.of_int (Z.of_nat num_segmentos))%float in
      {| linhas_srt :=
           linhas_srt st ++
           map (entrada_do_segmento (tempo_atual st) (contador st)
                  duracao_por_segmento)
               (enumerate segmentos);
         tempo_atual := (tempo_atual st + duracao_slide)%float;
         contador := contador st + Z.of_nat num_segmentos |}.

Definition estado_inicial : Estado :=
  {| linhas_srt := []; tempo_atual := 0%float; contador := 1 |}.

(** [gerar_srt]: the entries written for the slides of the presentation. *)
Definition gerar_srt (amb : Ambiente) (slides : list SlideInfo)
    (usar_traducao : bool) (tempo_extra tempo_minimo : float)
    (max_chars_segmento max_linhas : Z) : list Entrada :=
  linhas_srt
    (fold_left (passo_slide amb usar_traducao tempo_extra tempo_minimo
                  max_chars_segmento max_linhas)
               slides estado_inicial).

(** [math.floor(x)] of a finite double that is not negative, as a
    double. *)
Definition floor (x : float) : float :=
  match Prim2SF x with
  | S754_finite false m e =>
      if 0 <=? e then x else Binary64.of_int (Z.pos m / 2 ^ (- e))
  | _ => x
  end.

(** C's [fmod(x, w)] for a finite [x >= 0] and a finite [w > 0]: the
    remainder of the exact division, which is a double; [nan] stands for
    every other pair of arguments. *)
Definition fmod (x w : float) : float :=
  match Prim2SF x, Prim2SF w with
  | S754_zero _, S754_finite false _ _ => x
  | S754_finite false mx ex, S754_finite false mw ew =>
      let e := Z.min ex ew in
      let r := (Z.pos mx * 2 ^ (ex - e)) mod (Z.pos mw * 2 ^ (ew - e)) in
      FloatOps.Z.ldexp (Binary64.of_int r) e
  | _, _ => nan
  end.

(** [x % w] on doubles, for [x >= 0] and [w > 0] (CPython's [float_rem]:
    no sign to adjust there). *)
Definition pymod (x w : float) : float := fmod x w.

(** [x // w] on doubles, for [x >= 0] and [w > 0] (CPython's
    [float_floor_div]). *)
Definition floordiv (x w : float) : float :=
  let div := ((x - fmod x w) / w)%float in
  if (div =? 0)%float then 0%float
  else
    let floordiv := floor div in
    if (0.5 <? div - floordiv)%float then (floordiv + 1)%float
    else floordiv.

(** The four integers of [_formatar_tempo_srt] (lines 1058-1061) *)
Definition campos_tempo_srt (segundos : float) : Z * Z * Z * Z :=
  let horas := Binary64.py_int (floordiv segundos 3600) in
  let minutos := Binary64.py_int (floordiv (pymod segundos 3600) 60) in
  let segs := Binary64.py_int (pymod segundos 60) in
  let milisseg := Binary64.py_int (pymod segundos 1 * 1000)%float in
  (horas, minutos, segs, milisseg).

(** [_formatar_tempo_srt] (lines 1056-1062) *)
Definition formatar_tempo_srt (segundos : float) : str :=
  let '(horas, minutos, segs, milisseg) := campos_tempo_srt segundos in
  TempoSrt.fmt_0d 2 horas ++ lit ":" ++ TempoSrt.fmt_0d 2 minutos
  ++ lit ":" ++ TempoSrt.fmt_0d 2 segs ++ lit "," ++ TempoSrt.fmt_0d 3 milisseg.

End SrtBinary64.

(** ** The texts a slide contributes to the subtitle track *)


(** ** Concrete inputs used by the examples *)

(** A 300-character text made of one unbroken word. *)
Definition palavra_300 : str := repeat "a"%char 300.

(** 43 words of 6 letters joined by single spaces: 300 characters. *)
Definition texto_300 : str := join [space] (repeat (lit "narrar") 43).

(** An environment with no audio file at all. *)
Definition amb_sem_ficheiros : Ambiente :=
  {| existe := fun _ => false;
     audio_file_clip := fun _ => None;
     medir_audio := fun _ => 0%Q |}.

Definition slide_de_texto (texto : str) : SlideInfo :=
  {| texto_narrar := texto;
     caminho_audio := [];
     duracao_audio := 0%Q;
     texto_traduzido := [];
     caminho_audio_traduzido := [];
     duracao_audio_traduzido := 0%Q |}.

(** Three slides, the middle one without text. *)
Definition slides_exemplo : list SlideInfo :=
  [slide_de_texto (lit "Hello there. How are you? I am fine!");
   slide_de_texto (lit "   ");
   slide_de_texto (lit "Goodbye for now.")].

(** Eleven words of ten letters: 120 characters, the default limit. *)
Definition texto_11_palavras : str :=
  lit "aaaaaaaaaa bbbbbbbbbb cccccccccc dddddddddd eeeeeeeeee ffffffffff gggggggggg hhhhhhhhhh iiiiiiiiii jjjjjjjjjj kkkkkkkkkk".

Definition e_caminho (nome : string) (p : str) : bool :=
  String.eqb (string_of_list_ascii p) nome.

(** Two audio files: the original lasts 5 s, the translated one 7 s. *)
Definition amb_5_7 : Ambiente :=
  {| existe := fun p => e_caminho "orig.mp3" p || e_caminho "trad.mp3" p;
     audio_file_clip := fun p =>
       if e_caminho "orig.mp3" p then Some 5%Q
       else if e_caminho "trad.mp3" p then Some 7%Q else None;
     medir_audio := fun p =>
       if e_caminho "orig.mp3" p then 5%Q
       else if e_caminho "trad.mp3" p then 7%Q else 0%Q |}.

Definition slide_5_7 : SlideInfo :=
  {| texto_narrar := lit "Hello world foo bar";
     caminho_audio := lit "orig.mp3";
     duracao_audio := 5%Q;
     texto_traduzido := lit "Ola mundo foo bar";
     caminho_audio_traduzido := lit "trad.mp3";
     duracao_audio_traduzido := 7%Q |}.

Definition cfg_karaoke : Video.ConfigVideo :=
  {| Video.tempo_minimo_slide := 3%Q;
     Video.tempo_extra_slide := (1 # 2)%Q;
     Video.legendas_embutidas := true;
     Video.legendas_linhas := 3;
     Video.karaoke_ativo := true;
     Video.karaoke_usar_traducao := false |}.

Definition texto_4_palavras : str := lit "um dois tres quatro".

(** [n] words of ten letters joined by single spaces; eleven of them fill
    a segment of 120 characters. *)
Definition texto_de_palavras (n : nat) : str :=
  join [space] (repeat (lit "aaaaaaaaaa") n).

(** Two audio files, of 3.4 s and of 1.6 s. *)
Definition amb_34_16 : Ambiente :=
  {| existe := fun p => e_caminho "a34.mp3" p || e_caminho "a16.mp3" p;
     audio_file_clip := fun p =>
       if e_caminho "a34.mp3" p then Some (34 # 10)%Q
       else if e_caminho "a16.mp3" p then Some (16 # 10)%Q else None;
     medir_audio := fun p =>
       if e_caminho "a34.mp3" p then (34 # 10)%Q
       else if e_caminho "a16.mp3" p then (16 # 10)%Q else 0%Q |}.

Definition slide_com_audio (texto : str) (caminho : string) (duracao : Q)
  : SlideInfo :=
  {| texto_narrar := texto;
     caminho_audio := lit caminho;
     duracao_audio := duracao;
     texto_traduzido := [];
     caminho_audio_traduzido := [];
     duracao_audio_traduzido := 0%Q |}.

(** A slide of 33 words (three segments) with 3.4 s of audio, followed by
    a slide of one short sentence without audio. *)
Definition slides_34 : list SlideInfo :=
  [slide_com_audio (texto_de_palavras 33) "a34.mp3" (34 # 10);
   slide_de_texto (lit "Goodbye for now.")].

(** One slide of 77 words (seven segments) with 1.6 s of audio. *)
Definition slides_16 : list SlideInfo :=
  [slide_com_audio (texto_de_palavras 77) "a16.mp3" (16 # 10)].



(** The slide [slide_5_7] with a blank narration. *)
Definition slide_5_7_sem_texto : SlideInfo :=
  {| texto_narrar := lit "   ";
     caminho_audio := lit "orig.mp3";
     duracao_audio := 5%Q;
     texto_traduzido := [];
     caminho_audio_traduzido := lit "trad.mp3";
     duracao_audio_traduzido := 7%Q |}.

(** * Properties *)

(** ** Facts about the string primitives *)

Section StringFacts.

(** The primitives on small inputs, as Python evaluates them. *)

Example strip_exemplo : strip (lit "  a b  ") = lit "a b".
Proof. reflexivity. Qed.

Example split_exemplo :
  split (lit "  a b   cd  ") = [lit "a"; lit "b"; lit "cd"].
Proof. reflexivity. Qed.

Example replace_double_space_exemplo :
  replace_double_space (lit "a   b  c") = lit "a  b c".
Proof. reflexivity. Qed.

Example re_split_sentences_exemplo :
  re_split_sentences (lit "Um. Dois!  Tres ?quatro. ") =
  [lit "Um."; lit "Dois!"; lit "Tres ?quatro."; lit ""].
Proof. reflexivity. Qed.

Example slice_to_exemplo :
  slice_to 2 (lit "abcd") = lit "ab" /\ slice_to (-1) (lit "abcd") = lit "abc".
Proof. split; reflexivity. Qed.

Example dividir_texto_segmentos_srt_exemplo :
  dividir_texto_segmentos_srt
    (lit "  Hello there. How are you?  I am fine! ok ") 15 2 =
  [lit "Hello there."; lit "How are you?"; lit "I am fine! ok"].
Proof. reflexivity. Qed.

Example formatar_texto_srt_exemplo :
  formatar_texto_srt (lit "um dois tres quatro") 8 =
  lit "um dois" ++ [newline] ++ lit "tres".
Proof. reflexivity. Qed.

Lemma push_app (w : str) (ws l : list str) :
  push w (ws ++ l) = push w ws ++ l.
Proof. destruct w; reflexivity. Qed.

Lemma split_unfold (s : str) :
  split s = push (fst (split_aux s)) (snd (split_aux s)).
Proof. unfold split. destruct (split_aux s); reflexivity. Qed.

Lemma split_aux_cons (c : ascii) (s : str) :
  split_aux (c :: s) =
  if isspace c then ([], split s)
  else (c :: fst (split_aux s), snd (split_aux s)).
Proof.
  simpl. rewrite split_unfold. destruct (split_aux s); reflexivity.
Qed.

Lemma split_cons_space (c : ascii) (s : str) :
  isspace c = true -> split (c :: s) = split s.
Proof.
  intros Hc. rewrite (split_unfold (c :: s)), split_aux_cons, Hc.
  reflexivity.
Qed.

Lemma split_cons_char (c : ascii) (s : str) :
  isspace c = false ->
  split (c :: s) = (c :: fst (split_aux s)) :: snd (split_aux s).
Proof.
  intros Hc. rewrite (split_unfold (c :: s)), split_aux_cons, Hc.
  reflexivity.
Qed.

Lemma split_aux_app_space (a : str) (c : ascii) (b : str) :
  isspace c = true ->
  split_aux (a ++ c :: b) =
  (fst (split_aux a), snd (split_aux a) ++ split b).
Proof.
  intros Hc. induction a as [|x a IH].
  - simpl app. rewrite split_aux_cons, Hc. reflexivity.
  - rewrite <- app_comm_cons, !split_aux_cons.
    destruct (isspace x).
    + rewrite (split_unfold (a ++ c :: b)), IH. cbn [fst snd].
      rewrite push_app, <- split_unfold. reflexivity.
    + rewrite IH. reflexivity.
Qed.

Lemma split_app_space (a : str) (c : ascii) (b : str) :
  isspace c = true -> split (a ++ c :: b) = split a ++ split b.
Proof.
  intros Hc. rewrite (split_unfold (a ++ c :: b)).
  rewrite split_aux_app_space by assumption. cbn [fst snd].
  rewrite push_app, <- split_unfold. reflexivity.
Qed.

Lemma split_so_espacos (s : str) : so_espacos s = true -> split s = [].
Proof.
  induction s as [|c s IH]; [reflexivity|]. cbn [so_espacos forallb].
  intros H. apply andb_prop in H as [Hc Hs].
  rewrite split_cons_space by assumption. auto.
Qed.

Lemma split_nil_so_espacos (s : str) : split s = [] -> so_espacos s = true.
Proof.
  induction s as [|c s IH]; [reflexivity|]. cbn [so_espacos forallb].
  destruct (isspace c) eqn:Hc.
  - rewrite split_cons_space by assumption. intros H. simpl. auto.
  - rewrite split_cons_char by assumption. discriminate.
Qed.

Lemma split_app_espacos (a t : str) :
  so_espacos t = true -> split (a ++ t) = split a.
Proof.
  destruct t as [|c t]; intros H.
  - rewrite app_nil_r. reflexivity.
  - cbn [so_espacos forallb] in H. apply andb_prop in H as [Hc Ht].
    rewrite split_app_space by assumption.
    rewrite (split_so_espacos t Ht), app_nil_r. reflexivity.
Qed.

Lemma split_lstrip (s : str) : split (lstrip s) = split s.
Proof.
  induction s as [|c s IH]; [reflexivity|]. simpl lstrip.
  destruct (isspace c) eqn:Hc; [|reflexivity].
  rewrite split_cons_space by assumption. assumption.
Qed.

Lemma rstrip_cons (c : ascii) (s : str) :
  rstrip (c :: s) =
  match rstrip s with
  | [] => if isspace c then [] else [c]
  | _ :: _ => c :: rstrip s
  end.
Proof. simpl. destruct (rstrip s); reflexivity. Qed.

Lemma rstrip_decomp (s : str) :
  exists t, s = rstrip s ++ t /\ so_espacos t = true.
Proof.
  induction s as [|c s (t & Hs & Ht)].
  - exists []. split; reflexivity.
  - rewrite rstrip_cons. destruct (rstrip s) as [|d r] eqn:Hr.
    + destruct (isspace c) eqn:Hc.
      * exists (c :: s). split; [reflexivity|].
        simpl in Hs. subst t. cbn [so_espacos forallb].
        rewrite Hc. exact Ht.
      * exists s. split; [reflexivity|]. simpl in Hs. subst t. exact Ht.
    + exists t. split; [|exact Ht]. rewrite Hs at 1. reflexivity.
Qed.

Lemma split_rstrip (s : str) : split (rstrip s) = split s.
Proof.
  destruct (rstrip_decomp s) as (t & Hs & Ht).
  rewrite Hs at 2. rewrite split_app_espacos by assumption. reflexivity.
Qed.

Lemma split_strip (s : str) : split (strip s) = split s.
Proof. unfold strip. rewrite split_rstrip, split_lstrip. reflexivity. Qed.

Lemma split_aux_sem_espacos (w : str) :
  sem_espacos w = true -> split_aux w = (w, []).
Proof.
  induction w as [|c w IH]; [reflexivity|]. cbn [sem_espacos forallb].
  intros H. apply andb_prop in H as [Hc Hw].
  rewrite split_aux_cons. apply negb_true_iff in Hc. rewrite Hc.
  rewrite (IH Hw). reflexivity.
Qed.

Lemma split_palavra (w : str) : e_palavra w = true -> split w = [w].
Proof.
  unfold e_palavra. intros H. apply andb_prop in H as [Hw Hs].
  rewrite split_unfold, split_aux_sem_espacos by assumption.
  destruct w; [discriminate|reflexivity].
Qed.

Lemma split_aux_palavras (s : str) :
  sem_espacos (fst (split_aux s)) = true /\
  Forall (fun w => e_palavra w = true) (snd (split_aux s)).
Proof.
  induction s as [|c s [IH1 IH2]]; [split; [reflexivity|constructor]|].
  rewrite split_aux_cons. destruct (isspace c) eqn:Hc; cbn [fst snd].
  - split; [reflexivity|]. rewrite split_unfold.
    destruct (fst (split_aux s)) as [|d w] eqn:Hw; cbn [push];
      [assumption|]. constructor; [|assumption].
    unfold e_palavra. rewrite IH1. reflexivity.
  - split; [|assumption]. cbn [sem_espacos forallb]. rewrite Hc. exact IH1.
Qed.

Lemma split_palavras (s : str) :
  Forall (fun w => e_palavra w = true) (split s).
Proof.
  destruct (split_aux_palavras s) as [H1 H2]. rewrite split_unfold.
  destruct (fst (split_aux s)) as [|d w] eqn:Hw; cbn [push]; [assumption|].
  constructor; [|assumption]. unfold e_palavra. rewrite H1. reflexivity.
Qed.

Lemma split_aux_map (f : ascii -> ascii) (s : str) :
  (forall c, isspace c = true -> isspace (f c) = true) ->
  (forall c, isspace c = false -> f c = c) ->
  split_aux (map f s) = split_aux s.
Proof.
  intros Hsp Hid. induction s as [|c s IH]; [reflexivity|].
  cbn [map]. rewrite !split_aux_cons, !split_unfold, IH.
  destruct (isspace c) eqn:Hc.
  - rewrite (Hsp c Hc). reflexivity.
  - rewrite (Hid c Hc), Hc. reflexivity.
Qed.

Lemma split_replace_newline (s : str) :
  split (replace_newline s) = split s.
Proof.
  unfold replace_newline. rewrite !split_unfold, split_aux_map;
    [reflexivity| |].
  - intros c Hc. destruct (Ascii.eqb c newline); [reflexivity|assumption].
  - intros c Hc. destruct (Ascii.eqb c newline) eqn:E; [|reflexivity].
    apply Ascii.eqb_eq in E. subst c. discriminate.
Qed.

Lemma replace_double_space_cons (a b : ascii) (r : str) :
  replace_double_space (a :: b :: r) =
  if Ascii.eqb a space && Ascii.eqb b space
  then space :: replace_double_space r
  else a :: replace_double_space (b :: r).
Proof. reflexivity. Qed.

Lemma split_aux_replace_double_space (s : str) :
  split_aux (replace_double_space s) = split_aux s.
Proof.
  remember (length s) as n eqn:Hn.
  revert s Hn. induction n as [n IH] using lt_wf_ind. intros s Hn.
  destruct s as [|a [|b r]]; [reflexivity|reflexivity|].
  rewrite replace_double_space_cons.
  destruct (Ascii.eqb a space && Ascii.eqb b space) eqn:E.
  - apply andb_prop in E as [Ea Eb].
    apply Ascii.eqb_eq in Ea, Eb. subst a b.
    rewrite !split_aux_cons. change (isspace space) with true. cbv iota.
    rewrite (split_cons_space space r eq_refl).
    rewrite !split_unfold.
    rewrite (IH (length r)); [reflexivity| |reflexivity].
    subst n. simpl. lia.
  - rewrite (split_aux_cons a (b :: r)), split_aux_cons.
    rewrite !split_unfold.
    rewrite (IH (length (b :: r))); [reflexivity| |reflexivity].
    subst n. simpl. lia.
Qed.

Lemma split_replace_double_space (s : str) :
  split (replace_double_space s) = split s.
Proof. rewrite !split_unfold, split_aux_replace_double_space. reflexivity. Qed.

Lemma split_normalizado (s : str) :
  split (replace_double_space (replace_newline (strip s))) = split s.
Proof.
  rewrite split_replace_double_space, split_replace_newline, split_strip.
  reflexivity.
Qed.

(** The pieces returned by the sentence splitter hold the words of the
    text, in order. *)
Lemma re_split_aux_split (s : str) (m : scan) :
  split (fst (re_split_aux m s)) ++
    concat (map split (snd (re_split_aux m s))) = split s /\
  (m <> InSep \/ lstrip s = s ->
   split_aux s =
   (fst (split_aux (fst (re_split_aux m s))),
    snd (split_aux (fst (re_split_aux m s))) ++
      concat (map split (snd (re_split_aux m s))))).
Proof.
  revert m. induction s as [|c s IH]; intros m.
  - split; [reflexivity|]. intros _. reflexivity.
  - assert (Hweak : forall p ps,
               split_aux (c :: s) =
               (fst (split_aux p), snd (split_aux p) ++ concat (map split ps)) ->
               split p ++ concat (map split ps) = split (c :: s)).
    { intros p ps H. rewrite (split_unfold (c :: s)), H. cbn [fst snd].
      rewrite push_app, <- split_unfold. reflexivity. }
    cbn [re_split_aux]. destruct (isspace c) eqn:Hc.
    + destruct m.
      * destruct (IH Plain) as [IHw IHs].
        destruct (re_split_aux Plain s) as [p ps]. cbn [fst snd] in *.
        assert (Hs : split_aux (c :: s) =
                     (fst (split_aux (c :: p)),
                      snd (split_aux (c :: p)) ++ concat (map split ps))).
        { rewrite !split_aux_cons, Hc. cbn [fst snd]. rewrite IHw.
          reflexivity. }
        split; [apply Hweak; exact Hs|intros _; exact Hs].
      * destruct (IH InSep) as [IHw _].
        destruct (re_split_aux InSep s) as [p ps]. cbn [fst snd] in *.
        assert (Hs : split_aux (c :: s) =
                     (fst (split_aux []),
                      snd (split_aux []) ++ concat (map split (p :: ps)))).
        { rewrite split_aux_cons, Hc. cbn. rewrite IHw. reflexivity. }
        split; [apply Hweak; exact Hs|intros _; exact Hs].
      * destruct (IH InSep) as [IHw _].
        split.
        -- rewrite IHw. symmetry. apply split_cons_space. exact Hc.
        -- intros [H|H]; [contradiction|]. simpl in H. rewrite Hc in H.
           exfalso. clear - H.
           assert (L : forall t : str, (length (lstrip t) <= length t)%nat).
           { induction t as [|x t IHt]; simpl; [lia|].
             destruct (isspace x); simpl; lia. }
           specialize (L s). rewrite H in L. simpl in L. lia.
    + set (m' := if is_sentence_end c then AfterEnd else Plain).
      destruct (IH m') as [_ IHs].
      assert (Hm' : m' <> InSep) by (unfold m'; destruct is_sentence_end; discriminate).
      specialize (IHs (or_introl Hm')).
      destruct (re_split_aux m' s) as [p ps]. cbn [fst snd] in *.
      assert (Hs : split_aux (c :: s) =
                   (fst (split_aux (c :: p)),
                    snd (split_aux (c :: p)) ++ concat (map split ps))).
      { rewrite !split_aux_cons, Hc. cbn [fst snd]. rewrite IHs.
        reflexivity. }
      split; [apply Hweak; exact Hs|intros _; exact Hs].
Qed.

Lemma re_split_sentences_split (s : str) :
  concat (map split (re_split_sentences s)) = split s.
Proof.
  unfold re_split_sentences.
  destruct (re_split_aux_split s Plain) as [H _].
  destruct (re_split_aux Plain s) as [p ps]. exact H.
Qed.

Lemma lstrip_length (s : str) : (length (lstrip s) <= length s)%nat.
Proof.
  induction s as [|c s IH]; simpl; [lia|]. destruct (isspace c); simpl; lia.
Qed.

Lemma lstrip_fixed_head (c : ascii) (s : str) :
  lstrip (c :: s) = c :: s -> isspace c = false.
Proof.
  simpl. destruct (isspace c); [|reflexivity]. intros H.
  pose proof (lstrip_length s) as L. rewrite H in L. simpl in L. lia.
Qed.

Lemma lstrip_lstrip (s : str) : lstrip (lstrip s) = lstrip s.
Proof.
  induction s as [|c s IH]; [reflexivity|]. simpl.
  destruct (isspace c) eqn:Hc; [assumption|]. simpl. rewrite Hc.
  reflexivity.
Qed.

Lemma lstrip_rstrip_fixed (s : str) :
  lstrip s = s -> lstrip (rstrip s) = rstrip s.
Proof.
  destruct s as [|c s]; [reflexivity|]. intros H.
  apply lstrip_fixed_head in H. rewrite rstrip_cons.
  destruct (rstrip s); rewrite ?H; simpl; rewrite H; reflexivity.
Qed.

Lemma rstrip_rstrip (s : str) : rstrip (rstrip s) = rstrip s.
Proof.
  induction s as [|c s IH]; [reflexivity|]. rewrite rstrip_cons.
  destruct (rstrip s) as [|d r] eqn:Hr.
  - destruct (isspace c) eqn:Hc; [reflexivity|]. simpl. rewrite Hc.
    reflexivity.
  - rewrite rstrip_cons, IH. reflexivity.
Qed.

Lemma strip_strip (s : str) : strip (strip s) = strip s.
Proof.
  unfold strip.
  rewrite (lstrip_rstrip_fixed (lstrip s)) by apply lstrip_lstrip.
  apply rstrip_rstrip.
Qed.

Lemma strip_sem_espacos (w : str) : sem_espacos w = true -> strip w = w.
Proof.
  intros H. unfold strip.
  assert (L : lstrip w = w).
  { destruct w as [|c w]; [reflexivity|]. cbn [sem_espacos forallb] in H.
    apply andb_prop in H as [Hc _]. apply negb_true_iff in Hc.
    simpl. rewrite Hc. reflexivity. }
  rewrite L. clear L. induction w as [|c w IH]; [reflexivity|].
  cbn [sem_espacos forallb] in H. apply andb_prop in H as [Hc Hw].
  apply negb_true_iff in Hc. rewrite rstrip_cons, (IH Hw), Hc.
  destruct w; reflexivity.
Qed.

Lemma strip_palavra (w : str) : e_palavra w = true -> strip w = w.
Proof.
  unfold e_palavra. intros H. apply andb_prop in H as [_ H].
  apply strip_sem_espacos. exact H.
Qed.

Lemma rstrip_length (s : str) : (length (rstrip s) <= length s)%nat.
Proof.
  destruct (rstrip_decomp s) as (t & Hs & _).
  rewrite Hs at 2. rewrite length_app. lia.
Qed.

Lemma len_strip (s : str) : len (strip s) <= len s.
Proof.
  unfold len, strip. pose proof (rstrip_length (lstrip s)).
  pose proof (lstrip_length s). lia.
Qed.

Lemma strip_so_espacos_nil (s : str) : so_espacos s = true -> strip s = [].
Proof.
  intros H. unfold strip.
  assert (L : lstrip s = []).
  { induction s as [|c s IH]; [reflexivity|].
    cbn [so_espacos forallb] in H. apply andb_prop in H as [Hc Hs].
    simpl. rewrite Hc. auto. }
  rewrite L. reflexivity.
Qed.

Lemma len_app (a b : str) : len (a ++ b) = len a + len b.
Proof. unfold len. rewrite length_app. lia. Qed.

Lemma truthy_false (s : str) : truthy s = false -> s = [].
Proof. destruct s; [reflexivity|discriminate]. Qed.

End StringFacts.

(** ** Facts about the two segmenters *)

Section SegmenterFacts.

Variable max_chars : Z.

Lemma palavras_guardar (segmentos : list str) (segmento_atual : str) :
  concat (map split (guardar segmentos segmento_atual)) =
  concat (map split segmentos) ++ split segmento_atual.
Proof.
  unfold guardar. destruct segmento_atual as [|c s]; cbn [truthy].
  - rewrite app_nil_r. reflexivity.
  - rewrite map_app, concat_app. cbn [map concat]. rewrite app_nil_r.
    reflexivity.
Qed.

Lemma palavras_guardar_strip (segmentos : list str) (segmento_atual : str) :
  concat (map split (guardar_strip segmentos segmento_atual)) =
  concat (map split segmentos) ++ split segmento_atual.
Proof.
  unfold guardar_strip. destruct segmento_atual as [|c s]; cbn [truthy].
  - rewrite app_nil_r. reflexivity.
  - rewrite map_app, concat_app. cbn [map concat].
    rewrite app_nil_r, split_strip. reflexivity.
Qed.

Lemma split_juntar (a b : str) :
  split (strip (a ++ [space] ++ b)) = split a ++ split b.
Proof. rewrite split_strip. apply split_app_space. reflexivity. Qed.

Lemma srt_passo_palavra_palavras (st : estado) (w : str) :
  e_palavra w = true ->
  palavras_do_estado (srt_passo_palavra max_chars st w) =
  palavras_do_estado st ++ [w].
Proof.
  intros Hw. destruct st as [segs seg]. unfold srt_passo_palavra.
  unfold palavras_do_estado.
  destruct (len seg + len w + 1 <=? max_chars); cbn [fst snd].
  - rewrite split_juntar, (split_palavra w Hw), app_assoc. reflexivity.
  - rewrite palavras_guardar, (split_palavra w Hw). reflexivity.
Qed.

Lemma video_passo_palavra_palavras (st : estado) (w : str) :
  e_palavra w = true ->
  palavras_do_estado (video_passo_palavra max_chars st w) =
  palavras_do_estado st ++ [w].
Proof.
  intros Hw. destruct st as [segs seg]. unfold video_passo_palavra.
  unfold palavras_do_estado.
  destruct (max_chars <? len seg + len w + 1); cbn [fst snd].
  - rewrite palavras_guardar_strip, (split_palavra w Hw). reflexivity.
  - rewrite split_juntar, (split_palavra w Hw), app_assoc. reflexivity.
Qed.

Lemma fold_palavras (passo : estado -> str -> estado) :
  (forall st w, e_palavra w = true ->
                palavras_do_estado (passo st w) = palavras_do_estado st ++ [w]) ->
  forall ws st,
    Forall (fun w => e_palavra w = true) ws ->
    palavras_do_estado (fold_left passo ws st) = palavras_do_estado st ++ ws.
Proof.
  intros Hp ws. induction ws as [|w ws IH]; intros st Hws.
  - rewrite app_nil_r. reflexivity.
  - inversion Hws as [|? ? Hw Hr]; subst. cbn [fold_left].
    rewrite (IH _ Hr), (Hp _ _ Hw), <- app_assoc. reflexivity.
Qed.

Lemma srt_passo_frase_palavras (st : estado) (frase : str) :
  palavras_do_estado (srt_passo_frase max_chars st frase) =
  palavras_do_estado st ++ split frase.
Proof.
  unfold srt_passo_frase. rewrite <- (split_strip frase).
  destruct (truthy (strip frase)) eqn:Ht; cbn [negb].
  2:{ apply truthy_false in Ht. rewrite Ht. cbn. rewrite app_nil_r.
      reflexivity. }
  destruct st as [segs seg].
  destruct (len seg + len (strip frase) + 1 <=? max_chars).
  - unfold palavras_do_estado. cbn [fst snd].
    rewrite split_juntar, app_assoc. reflexivity.
  - destruct (max_chars <? len (strip frase)).
    + rewrite (fold_palavras _ srt_passo_palavra_palavras)
        by apply split_palavras.
      unfold palavras_do_estado. cbn [fst snd].
      rewrite palavras_guardar. cbn. rewrite app_nil_r. reflexivity.
    + unfold palavras_do_estado. cbn [fst snd].
      rewrite palavras_guardar. reflexivity.
Qed.

Lemma video_passo_frase_palavras (st : estado) (frase : str) :
  palavras_do_estado (video_passo_frase max_chars st frase) =
  palavras_do_estado st ++ split frase.
Proof.
  unfold video_passo_frase. rewrite <- (split_strip frase).
  destruct (truthy (strip frase)) eqn:Ht; cbn [negb].
  2:{ apply truthy_false in Ht. rewrite Ht. cbn. rewrite app_nil_r.
      reflexivity. }
  destruct st as [segs seg].
  destruct (max_chars <? len seg + len (strip frase) + 1).
  - destruct (max_chars <? len (strip frase)).
    + rewrite (fold_palavras _ video_passo_palavra_palavras)
        by apply split_palavras.
      unfold palavras_do_estado. cbn [fst snd].
      rewrite palavras_guardar_strip. cbn. rewrite app_nil_r. reflexivity.
    + unfold palavras_do_estado. cbn [fst snd].
      rewrite palavras_guardar_strip. reflexivity.
  - unfold palavras_do_estado. cbn [fst snd].
    rewrite split_juntar, app_assoc. reflexivity.
Qed.

Lemma fold_frases (passo : estado -> str -> estado) :
  (forall st f,
      palavras_do_estado (passo st f) = palavras_do_estado st ++ split f) ->
  forall frases st,
    palavras_do_estado (fold_left passo frases st) =
    palavras_do_estado st ++ concat (map split frases).
Proof.
  intros Hp frases. induction frases as [|f fs IH]; intros st.
  - cbn. rewrite app_nil_r. reflexivity.
  - cbn [fold_left map concat]. rewrite IH, Hp, <- app_assoc. reflexivity.
Qed.

Lemma so_espacos_firstn (n : nat) (s : str) :
  so_espacos s = true -> so_espacos (firstn n s) = true.
Proof.
  revert n. induction s as [|c s IH]; intros [|n] H; try reflexivity.
  cbn [so_espacos forallb firstn] in *. apply andb_prop in H as [Hc Hs].
  rewrite Hc. apply IH. exact Hs.
Qed.

Lemma split_slice_to (s : str) : split s = [] -> split (slice_to max_chars s) = [].
Proof.
  intros H. apply split_so_espacos. apply split_nil_so_espacos in H.
  unfold slice_to. destruct (0 <=? max_chars); apply so_espacos_firstn, H.
Qed.

Lemma split_join_space (l : list str) :
  split (join [space] l) = concat (map split l).
Proof.
  induction l as [|x r IH]; [reflexivity|]. cbn [join map concat].
  destruct r as [|y r'].
  - cbn. rewrite app_nil_r. reflexivity.
  - cbn [app]. rewrite split_app_space by reflexivity. rewrite IH.
    reflexivity.
Qed.

Lemma dividir_srt_palavras (texto : str) (max_linhas : Z) :
  concat (map split (dividir_texto_segmentos_srt texto max_chars max_linhas))
  = split texto.
Proof.
  unfold dividir_texto_segmentos_srt.
  set (t := replace_double_space (replace_newline (strip texto))).
  assert (Ht : split t = split texto) by apply split_normalizado.
  destruct (len t <=? max_chars).
  - cbn. rewrite app_nil_r. exact Ht.
  - pose proof (fold_frases _ srt_passo_frase_palavras
                  (re_split_sentences t) ([], [])) as H.
    rewrite re_split_sentences_split, Ht in H.
    destruct (fold_left (srt_passo_frase max_chars) (re_split_sentences t)
                ([], [])) as [segs seg].
    unfold palavras_do_estado in H. cbn [fst snd] in H. cbn [app] in H.
    rewrite <- palavras_guardar in H.
    destruct (guardar segs seg) as [|x r]; [|exact H].
    cbn in H. cbn. rewrite app_nil_r, <- H. apply split_slice_to.
    rewrite Ht. auto.
Qed.

Lemma dividir_video_palavras (texto : str) (legendas_linhas : Z) :
  max_chars = max_chars_video legendas_linhas ->
  concat (map split (dividir_texto_segmentos legendas_linhas texto))
  = split texto.
Proof.
  intros Hm. unfold dividir_texto_segmentos. rewrite <- Hm.
  set (t := replace_double_space (replace_newline (strip texto))).
  assert (Ht : split t = split texto) by apply split_normalizado.
  destruct (len t <=? max_chars).
  - cbn. rewrite app_nil_r. exact Ht.
  - pose proof (fold_frases _ video_passo_frase_palavras
                  (re_split_sentences t) ([], [])) as H.
    rewrite re_split_sentences_split, Ht in H.
    destruct (fold_left (video_passo_frase max_chars) (re_split_sentences t)
                ([], [])) as [segs seg].
    unfold palavras_do_estado in H. cbn [fst snd] in H. cbn [app] in H.
    rewrite <- palavras_guardar_strip in H.
    destruct (guardar_strip segs seg) as [|x r]; [|exact H].
    cbn in H. cbn. rewrite app_nil_r, <- H. apply split_slice_to.
    rewrite Ht. auto.
Qed.

(** *** The two segmenters take the same steps *)

Lemma guardar_strip_guardar (segs : list str) (seg : str) :
  strip seg = seg -> guardar_strip segs seg = guardar segs seg.
Proof. intros H. unfold guardar_strip, guardar. rewrite H. reflexivity. Qed.

Lemma fold_mesmos_passos {A} (Q : A -> Prop) (f g : estado -> A -> estado) :
  (forall st x, Q x -> strip (snd st) = snd st ->
                f st x = g st x /\ strip (snd (g st x)) = snd (g st x)) ->
  forall xs st,
    Forall Q xs -> strip (snd st) = snd st ->
    fold_left f xs st = fold_left g xs st /\
    strip (snd (fold_left g xs st)) = snd (fold_left g xs st).
Proof.
  intros H xs. induction xs as [|x xs IH]; intros st Hxs Hst.
  - split; [reflexivity|exact Hst].
  - inversion Hxs as [|? ? Hx Hr]; subst. cbn [fold_left].
    destruct (H st x Hx Hst) as [E P]. rewrite E. apply IH; assumption.
Qed.

Lemma passo_palavra_igual (st : estado) (w : str) :
  e_palavra w = true -> strip (snd st) = snd st ->
  video_passo_palavra max_chars st w = srt_passo_palavra max_chars st w /\
  strip (snd (srt_passo_palavra max_chars st w)) =
  snd (srt_passo_palavra max_chars st w).
Proof.
  intros Hw Hst. destruct st as [segs seg]. cbn [snd] in Hst.
  unfold video_passo_palavra, srt_passo_palavra.
  rewrite (Z.leb_antisym max_chars (len seg + len w + 1)).
  destruct (max_chars <? len seg + len w + 1); cbn [negb snd].
  - rewrite guardar_strip_guardar by assumption.
    split; [reflexivity|apply strip_palavra; assumption].
  - split; [reflexivity|apply strip_strip].
Qed.

Lemma passo_frase_igual (st : estado) (frase : str) :
  True -> strip (snd st) = snd st ->
  video_passo_frase max_chars st frase = srt_passo_frase max_chars st frase /\
  strip (snd (srt_passo_frase max_chars st frase)) =
  snd (srt_passo_frase max_chars st frase).
Proof.
  intros _ Hst. unfold video_passo_frase, srt_passo_frase.
  destruct (truthy (strip frase)); cbn [negb]; [|split; [reflexivity|exact Hst]].
  destruct st as [segs seg]. cbn [snd] in Hst.
  rewrite (Z.leb_antisym max_chars (len seg + len (strip frase) + 1)).
  destruct (max_chars <? len seg + len (strip frase) + 1); cbn [negb snd].
  - rewrite guardar_strip_guardar by assumption.
    destruct (max_chars <? len (strip frase)).
    + apply (fold_mesmos_passos _ _ _ passo_palavra_igual);
        [apply split_palavras|reflexivity].
    + split; [reflexivity|apply strip_strip].
  - split; [reflexivity|apply strip_strip].
Qed.

Lemma dividir_video_srt (texto : str) (legendas_linhas max_linhas : Z) :
  max_chars = max_chars_video legendas_linhas ->
  dividir_texto_segmentos legendas_linhas texto =
  dividir_texto_segmentos_srt texto max_chars max_linhas.
Proof.
  intros Hm. unfold dividir_texto_segmentos, dividir_texto_segmentos_srt.
  rewrite <- Hm.
  set (t := replace_double_space (replace_newline (strip texto))).
  destruct (len t <=? max_chars); [reflexivity|].
  destruct (fold_mesmos_passos (fun _ => True) _ _ passo_frase_igual
              (re_split_sentences t) ([], [])) as [E P];
    [apply Forall_forall; intros; exact I|reflexivity|].
  rewrite E.
  destruct (fold_left (srt_passo_frase max_chars) (re_split_sentences t)
              ([], [])) as [segs seg].
  cbn [snd] in P. rewrite guardar_strip_guardar by assumption. reflexivity.
Qed.

(** *** Every segment respects the limit or is one unbroken word *)

Lemma guardar_ok (segs : list str) (seg : str) :
  Forall (segmento_ok max_chars) segs -> segmento_ok max_chars seg ->
  Forall (segmento_ok max_chars) (guardar segs seg).
Proof.
  intros Hs Hseg. unfold guardar. destruct (truthy seg); [|exact Hs].
  apply Forall_app. split; [exact Hs|]. constructor; [exact Hseg|constructor].
Qed.

Lemma juntar_ok (a b : str) :
  len a + len b + 1 <= max_chars ->
  segmento_ok max_chars (strip (a ++ [space] ++ b)).
Proof.
  intros H. left. pose proof (len_strip (a ++ [space] ++ b)) as L.
  rewrite !len_app in L. change (len [space]) with 1 in L. lia.
Qed.

Lemma srt_passo_palavra_ok (st : estado) (w : str) :
  e_palavra w = true -> estado_ok max_chars st ->
  estado_ok max_chars (srt_passo_palavra max_chars st w).
Proof.
  intros Hw [Hs Hseg]. destruct st as [segs seg]. cbn [fst snd] in *.
  unfold srt_passo_palavra.
  destruct (len seg + len w + 1 <=? max_chars) eqn:E.
  - apply Z.leb_le in E. split; [exact Hs|apply juntar_ok; exact E].
  - split; cbn [fst snd]; [apply guardar_ok; assumption|].
    right. unfold e_palavra in Hw. apply andb_prop in Hw as [_ Hw].
    exact Hw.
Qed.

Lemma fold_palavras_ok (ws : list str) (st : estado) :
  Forall (fun w => e_palavra w = true) ws -> estado_ok max_chars st ->
  estado_ok max_chars (fold_left (srt_passo_palavra max_chars) ws st).
Proof.
  revert st. induction ws as [|w ws IH]; intros st Hws Hst; [exact Hst|].
  inversion Hws as [|? ? Hw Hr]; subst. cbn [fold_left].
  apply IH; [exact Hr|]. apply srt_passo_palavra_ok; assumption.
Qed.

Lemma srt_passo_frase_ok (st : estado) (frase : str) :
  estado_ok max_chars st -> estado_ok max_chars (srt_passo_frase max_chars st frase).
Proof.
  intros Hst. unfold srt_passo_frase.
  destruct (truthy (strip frase)); cbn [negb]; [|exact Hst].
  destruct st as [segs seg]. destruct Hst as [Hs Hseg]. cbn [fst snd] in *.
  destruct (len seg + len (strip frase) + 1 <=? max_chars) eqn:E.
  - apply Z.leb_le in E. split; [exact Hs|apply juntar_ok; exact E].
  - destruct (max_chars <? len (strip frase)) eqn:F.
    + apply fold_palavras_ok; [apply split_palavras|].
      split; cbn [fst snd]; [apply guardar_ok; assumption|].
      right. reflexivity.
    + apply Z.ltb_ge in F.
      split; cbn [fst snd]; [apply guardar_ok; assumption|].
      left. exact F.
Qed.

Lemma fold_frases_ok (frases : list str) (st : estado) :
  estado_ok max_chars st ->
  estado_ok max_chars (fold_left (srt_passo_frase max_chars) frases st).
Proof.
  revert st. induction frases as [|f fs IH]; intros st Hst; [exact Hst|].
  cbn [fold_left]. apply IH, srt_passo_frase_ok, Hst.
Qed.

Lemma strip_nil_of_split_nil (s : str) : split s = [] -> strip s = [].
Proof. intros H. apply strip_so_espacos_nil, split_nil_so_espacos, H. Qed.

Lemma dividir_srt_ok (texto : str) (max_linhas : Z) :
  Forall (segmento_ok max_chars)
         (dividir_texto_segmentos_srt texto max_chars max_linhas).
Proof.
  unfold dividir_texto_segmentos_srt.
  set (t := replace_double_space (replace_newline (strip texto))).
  destruct (len t <=? max_chars) eqn:E.
  - apply Z.leb_le in E. constructor; [left; exact E|constructor].
  - pose proof (fold_frases_ok (re_split_sentences t) ([], [])) as H.
    pose proof (fold_frases _ srt_passo_frase_palavras
                  (re_split_sentences t) ([], [])) as W.
    rewrite re_split_sentences_split in W. unfold t in W at 2.
    rewrite split_normalizado in W.
    destruct (fold_left (srt_passo_frase max_chars) (re_split_sentences t)
                ([], [])) as [segs seg].
    destruct H as [Hs Hseg];
      [split; [constructor|right; reflexivity]|]. cbn [fst snd] in *.
    unfold palavras_do_estado in W. cbn [fst snd app] in W.
    rewrite <- palavras_guardar in W.
    pose proof (guardar_ok segs seg Hs Hseg) as G.
    destruct (guardar segs seg) as [|x r]; [|exact G].
    constructor; [|constructor]. right.
    assert (T : t = []).
    { unfold t. rewrite (strip_nil_of_split_nil texto); [reflexivity|].
      symmetry. exact W. }
    rewrite T. unfold slice_to. destruct (0 <=? max_chars);
      rewrite firstn_nil; reflexivity.
Qed.

(** *** Counting segments *)

Lemma len_nonneg (s : str) : 0 <= len s.
Proof. unfold len. lia. Qed.

Lemma len_cons (c : ascii) (s : str) : len (c :: s) = 1 + len s.
Proof. unfold len. cbn [length]. lia. Qed.

Lemma len_join_cons_cons (x y : str) (r : list str) :
  len (join [space] (x :: y :: r)) = len x + 1 + len (join [space] (y :: r)).
Proof.
  change (join [space] (x :: y :: r))
    with (x ++ space :: join [space] (y :: r)).
  rewrite len_app, len_cons. lia.
Qed.

Lemma len_join_app (l1 l2 : list str) :
  len (join [space] (l1 ++ l2)) <=
  len (join [space] l1) + 1 + len (join [space] l2).
Proof.
  induction l1 as [|x r IH].
  - cbn [app]. change (len (join [space] [])) with 0. lia.
  - destruct r as [|y r].
    + cbn [app]. destruct l2 as [|z l2].
      * change (len (join [space] [])) with 0. lia.
      * rewrite len_join_cons_cons. change (join [space] [x]) with x. lia.
    + change ((x :: y :: r) ++ l2) with (x :: y :: (r ++ l2)).
      rewrite !len_join_cons_cons.
      change (y :: r ++ l2) with ((y :: r) ++ l2). lia.
Qed.

Lemma len_join_split_aux (s : str) :
  len (fst (split_aux s)) +
  match snd (split_aux s) with
  | [] => 0
  | _ :: _ => 1 + len (join [space] (snd (split_aux s)))
  end <= len s /\
  len (normalize s) <= len s.
Proof.
  unfold normalize. induction s as [|c s [IH1 IH2]].
  - cbn. lia.
  - assert (A : len (fst (split_aux (c :: s))) +
                match snd (split_aux (c :: s)) with
                | [] => 0
                | _ :: _ => 1 + len (join [space] (snd (split_aux (c :: s))))
                end <= len (c :: s)).
    { rewrite split_aux_cons, len_cons.
      destruct (isspace c); cbn [fst snd].
      - change (len []) with 0. pose proof (len_nonneg s).
        destruct (split s); lia.
      - rewrite len_cons. lia. }
    split; [exact A|].
    rewrite split_unfold.
    destruct (fst (split_aux (c :: s))) as [|d w]; cbn [push].
    + change (len []) with 0 in A.
      destruct (snd (split_aux (c :: s)));
        [change (len (join [space] [])) with 0; rewrite len_cons;
         pose proof (len_nonneg s); lia|lia].
    + destruct (snd (split_aux (c :: s))) as [|y r].
      * change (join [space] [d :: w]) with (d :: w). lia.
      * rewrite len_join_cons_cons. lia.
Qed.

Lemma len_normalize (s : str) : len (normalize s) <= len s.
Proof. apply len_join_split_aux. Qed.

Lemma len_join_concat (segs : list str) :
  Forall (fun s => len s <= max_chars) segs ->
  len (join [space] (concat (map split segs))) <=
  Z.of_nat (length segs) * (max_chars + 1).
Proof.
  induction segs as [|x r IH]; intros H.
  - cbn. lia.
  - inversion H as [|? ? Hx Hr]; subst. cbn [map concat].
    pose proof (len_join_app (split x) (concat (map split r))) as L.
    pose proof (len_normalize x) as N. unfold normalize in N.
    specialize (IH Hr). cbn [length]. lia.
Qed.

End SegmenterFacts.

(** ** Facts about rational arithmetic and the subtitle writer *)

Section SrtFacts.

Local Open Scope Q_scope.

Lemma Qltb_lt (x y : Q) : Qltb x y = true <-> x < y.
Proof.
  unfold Qltb. rewrite negb_true_iff. split.
  - intros H. apply Qnot_le_lt. intros L.
    apply Qle_bool_iff in L. congruence.
  - intros H. destruct (Qle_bool y x) eqn:E; [|reflexivity].
    apply Qle_bool_iff in E. apply Qle_not_lt in E. contradiction.
Qed.

Lemma Qltb_ge (x y : Q) : Qltb x y = false <-> y <= x.
Proof.
  unfold Qltb. rewrite negb_false_iff. apply Qle_bool_iff.
Qed.

Lemma of_nat_S (n : nat) : of_nat (S n) == of_nat n + 1.
Proof.
  unfold of_nat. rewrite Nat2Z.inj_succ. unfold Z.succ.
  rewrite inject_Z_plus. reflexivity.
Qed.

Lemma of_nat_pos (n : nat) : (0 < n)%nat -> 0 < of_nat n.
Proof.
  intros H. unfold of_nat. change 0 with (inject_Z 0).
  rewrite <- Zlt_Qlt. lia.
Qed.

Lemma Qmul_div_cancel (d : Q) (n : nat) :
  (0 < n)%nat -> of_nat n * (d / of_nat n) == d.
Proof.
  intros H. pose proof (of_nat_pos n H) as P. field.
  intros E. rewrite E in P. apply (Qlt_irrefl 0 P).
Qed.

Lemma py_max_cases (a b : Q) :
  (a < b /\ py_max a b = b) \/ (b <= a /\ py_max a b = a).
Proof.
  unfold py_max. destruct (Qltb a b) eqn:E.
  - left. split; [apply Qltb_lt, E|reflexivity].
  - right. split; [apply Qltb_ge, E|reflexivity].
Qed.

Lemma enumerate_length {A} (l : list A) : length (enumerate l) = length l.
Proof. unfold enumerate. rewrite length_combine, length_seq. lia. Qed.

Variable amb : Ambiente.
Variable usar_traducao : bool.
Variables tempo_extra tempo_minimo : Q.
Variables max_chars_segmento max_linhas : Z.

Hypothesis tempo_extra_nonneg : 0 <= tempo_extra.
Hypothesis tempo_minimo_nonneg : 0 <= tempo_minimo.

End SrtFacts.

(** * The claims about the segmenters *)

(** C4 — Segmentation round-trip.  For every text and every limit, the
    segments of either segmenter, joined with single spaces and
    whitespace-normalised, give back the whitespace-normalised text; the
    segments, read in order, hold exactly the words of the text. *)
Theorem C4_segmentation_round_trip :
  forall (texto : str) (max_chars max_linhas legendas_linhas : Z),
    normalize (join [space]
                 (dividir_texto_segmentos_srt texto max_chars max_linhas))
    = normalize texto /\
    concat (map split (dividir_texto_segmentos_srt texto max_chars max_linhas))
    = split texto /\
    normalize (join [space] (dividir_texto_segmentos legendas_linhas texto))
    = normalize texto /\
    concat (map split (dividir_texto_segmentos legendas_linhas texto))
    = split texto.
Proof.
  intros texto max_chars max_linhas legendas_linhas.
  pose proof (dividir_srt_palavras max_chars texto max_linhas) as A.
  pose proof (dividir_video_palavras _ texto legendas_linhas eq_refl) as B.
  unfold normalize. rewrite !split_join_space, A, B. auto.
Qed.

(** C9 — The caption segmenter and the subtitle segmenter compute the same
    function: at the limit the caption segmenter derives from its
    configuration, both return the same list of segments.  (Both are
    functions of their arguments, hence deterministic.) *)
Theorem C9_same_packing :
  forall (texto : str) (legendas_linhas max_linhas : Z),
    dividir_texto_segmentos legendas_linhas texto =
    dividir_texto_segmentos_srt texto (max_chars_video legendas_linhas)
                                max_linhas.
Proof.
  intros. apply dividir_video_srt. reflexivity.
Qed.

(** C5, as stated, fails: a text of 300 characters that is one unbroken
    word comes back as a single segment of 300 characters under the limit
    120 — more than 120 characters, and fewer than 3 segments. *)
Lemma C5_counterexample :
  len palavra_300 = 300 /\
  dividir_texto_segmentos_srt palavra_300 120 2 = [palavra_300] /\
  ~ Forall (fun s => len s <= 120)
           (dividir_texto_segmentos_srt palavra_300 120 2) /\
  ~ (3 <= length (dividir_texto_segmentos_srt palavra_300 120 2))%nat.
Proof.
  assert (E : dividir_texto_segmentos_srt palavra_300 120 2 = [palavra_300])
    by (vm_compute; reflexivity).
  split; [reflexivity|]. split; [exact E|]. rewrite E. split.
  - intros H. inversion H as [|? ? Hx _]; subst. vm_compute in Hx.
    apply Hx. reflexivity.
  - cbn [length]. lia.
Qed.

(** C5, amended — For every text and every limit, each segment of the
    subtitle segmenter is at most [max_chars] long or contains no
    whitespace (one word kept whole), and the segments hold exactly the
    words of the text, so no word is split.  When the limit is
    non-negative and no word of the text is longer than it, every segment
    is within the limit and the whitespace-normalised text is at most
    [segments * (max_chars + 1)] long; in particular a text whose
    normalised form has 300 characters, with no word over 120, yields at
    least 3 segments of at most 120 characters under the limit 120. *)
Theorem C5_segment_limit_or_single_word :
  forall (texto : str) (max_chars max_linhas : Z),
    let segs := dividir_texto_segmentos_srt texto max_chars max_linhas in
    Forall (fun s => len s <= max_chars \/ sem_espacos s = true) segs /\
    concat (map split segs) = split texto /\
    (0 <= max_chars ->
     Forall (fun w => len w <= max_chars) (split texto) ->
     Forall (fun s => len s <= max_chars) segs /\
     len (normalize texto) <= Z.of_nat (length segs) * (max_chars + 1)) /\
    (max_chars = 120 ->
     len (normalize texto) = 300 ->
     Forall (fun w => len w <= 120) (split texto) ->
     (3 <= length segs)%nat /\ Forall (fun s => len s <= 120) segs).
Proof.
  intros texto max_chars max_linhas segs.
  pose proof (dividir_srt_ok max_chars texto max_linhas) as Hok.
  pose proof (dividir_srt_palavras max_chars texto max_linhas) as Hw.
  fold segs in Hok, Hw.
  assert (Hlim : 0 <= max_chars ->
                 Forall (fun w => len w <= max_chars) (split texto) ->
                 Forall (fun s => len s <= max_chars) segs /\
                 len (normalize texto) <=
                 Z.of_nat (length segs) * (max_chars + 1)).
  { intros H0 Hwords.
    assert (A : Forall (fun s => len s <= max_chars) segs).
    { apply Forall_forall. intros s Hs.
      destruct (proj1 (Forall_forall _ _) Hok s Hs) as [L|N]; [exact L|].
      destruct s as [|c s']; [exact H0|].
      apply (proj1 (Forall_forall _ _) Hwords). rewrite <- Hw.
      apply in_concat. exists (split (c :: s')). split.
      - apply in_map. exact Hs.
      - rewrite split_palavra; [left; reflexivity|].
        unfold e_palavra. rewrite N. reflexivity. }
    split; [exact A|]. unfold normalize. rewrite <- Hw.
    apply len_join_concat. exact A. }
  split; [exact Hok|]. split; [exact Hw|]. split; [exact Hlim|].
  intros -> H300 Hwords. destruct (Hlim ltac:(lia) Hwords) as [A B].
  split; [lia|exact A].
Qed.

Lemma C5_segment_limit_or_single_word_witness :
  (3 <= length (dividir_texto_segmentos_srt texto_300 120 2))%nat /\
  Forall (fun s => len s <= 120) (dividir_texto_segmentos_srt texto_300 120 2).
Proof.
  apply (C5_segment_limit_or_single_word texto_300 120 2).
  - reflexivity.
  - vm_compute. reflexivity.
  - vm_compute. repeat (constructor; [discriminate|]). constructor.
Defined.

(** C7, as stated, fails: on the empty text both segmenters return a list
    holding one empty segment, not the empty list. *)
Lemma C7_counterexample :
  dividir_texto_segmentos_srt [] 120 2 = [[]] /\
  dividir_texto_segmentos_srt [] 120 2 <> [] /\
  dividir_texto_segmentos 3 [] <> [].
Proof. repeat split; try discriminate. Qed.

(** C7, amended — When the input text is empty or holds only whitespace,
    each segmenter returns the one-element list holding the empty string,
    whatever the limit. *)
Theorem C7_blank_text_one_empty_segment :
  forall (texto : str) (max_chars max_linhas legendas_linhas : Z),
    so_espacos texto = true ->
    dividir_texto_segmentos_srt texto max_chars max_linhas = [[]] /\
    dividir_texto_segmentos legendas_linhas texto = [[]].
Proof.
  intros texto max_chars max_linhas legendas_linhas H.
  rewrite (dividir_video_srt _ texto legendas_linhas max_linhas eq_refl).
  assert (G : forall m, dividir_texto_segmentos_srt texto m max_linhas = [[]]).
  { intros m. unfold dividir_texto_segmentos_srt.
    rewrite (strip_so_espacos_nil texto H).
    change (replace_double_space (replace_newline [])) with (@nil ascii).
    destruct (len [] <=? m); [reflexivity|].
    cbn [re_split_sentences re_split_aux fold_left srt_passo_frase strip
         lstrip rstrip truthy negb guardar].
    unfold slice_to. destruct (0 <=? m); rewrite firstn_nil; reflexivity. }
  split; apply G.
Qed.

Lemma C7_blank_text_one_empty_segment_witness :
  dividir_texto_segmentos_srt (lit "  ") 120 2 = [[]] /\
  dividir_texto_segmentos 3 (lit "  ") = [[]].
Proof.
  apply (C7_blank_text_one_empty_segment (lit "  ") 120 2 3). reflexivity.
Defined.

(** * The claims about the subtitle writer *)

(** C6 — The claim fails on [gerar_srt] by rounding.  The code takes
    [inicio = tempo_atual + seg_idx * duracao_por_segmento] and
    [fim = inicio + duracao_por_segmento], each step rounded to a double,
    so the end of an entry and the start of the next, which are the same
    number in exact arithmetic, can come out one unit in the last place
    apart, the end being the later one.
    - Across two slides (3.4 s of audio plus 0.5 s for three segments,
      then a second slide): the entries are numbered 1 to 4, entry 3 ends
      after the clock value the slide ends at, which is where entry 4
      starts, and the file reads [00:00:03,900] for the end of entry 3
      and [00:00:03,899] for the start of entry 4.
    - Inside one slide (1.6 s plus 0.5 s for seven segments): entry 6
      ends at [00:00:01,800] and entry 7 starts at [00:00:01,799].
    - On the same slides the times in exact arithmetic do not overlap.
    - A slide without text adds no entry and advances the clock by the
      duration [gerar_srt] itself gives the slide; with the original
      language, original audio of 5 s and translated audio of 7 s that is
      5.5 s, while [gerar_video] gives the same slide 7.5 s. *)
Theorem C6_subtitle_entries_overlap :
  let entradas :=
    SrtBinary64.gerar_srt amb_34_16 slides_34 false 0.5 3 120 2 in
  let dentro :=
    SrtBinary64.gerar_srt amb_34_16 slides_16 false 0.5 3 120 2 in
  (map SrtBinary64.indice entradas = [1; 2; 3; 4] /\
   exists e3 e4,
     nth_error entradas 2 = Some e3 /\ nth_error entradas 3 = Some e4 /\
     (SrtBinary64.inicio e4 <? SrtBinary64.fim e3)%float = true /\
     SrtBinary64.inicio e4
     = SrtBinary64.tempo_atual
         (SrtBinary64.passo_slide amb_34_16 false 0.5 3 120 2
            SrtBinary64.estado_inicial
            (slide_com_audio (texto_de_palavras 33) "a34.mp3" (34 # 10))) /\
     SrtBinary64.formatar_tempo_srt (SrtBinary64.fim e3)
     = lit "00:00:03,900" /\
     SrtBinary64.formatar_tempo_srt (SrtBinary64.inicio e4)
     = lit "00:00:03,899") /\
  (length dentro = 7%nat /\
   exists e6 e7,
     nth_error dentro 5 = Some e6 /\ nth_error dentro 6 = Some e7 /\
     (SrtBinary64.inicio e7 <? SrtBinary64.fim e6)%float = true /\
     SrtBinary64.formatar_tempo_srt (SrtBinary64.fim e6)
     = lit "00:00:01,800" /\
     SrtBinary64.formatar_tempo_srt (SrtBinary64.inicio e7)
     = lit "00:00:01,799") /\
  (Srt.sem_sobreposicao
     (Srt.gerar_srt amb_34_16 slides_34 false (1 # 2) 3 120 2) /\
   Srt.sem_sobreposicao
     (Srt.gerar_srt amb_34_16 slides_16 false (1 # 2) 3 120 2)) /\
  (SrtBinary64.passo_slide amb_5_7 false 0.5 3 120 2
     SrtBinary64.estado_inicial slide_5_7_sem_texto
   = {| SrtBinary64.linhas_srt := [];
        SrtBinary64.tempo_atual := 5.5;
        SrtBinary64.contador := 1 |} /\
   (Video.duracao
      (Video.tempos_slide amb_5_7 cfg_karaoke false
         (Some slide_5_7_sem_texto)) == 15 # 2)%Q).
Proof.
  intros entradas dentro. split; [|split; [|split]].
  - split; [vm_compute; reflexivity|].
    do 2 eexists. split; [vm_compute; reflexivity|].
    split; [vm_compute; reflexivity|].
    repeat split; vm_compute; reflexivity.
  - split; [vm_compute; reflexivity|].
    do 2 eexists. split; [vm_compute; reflexivity|].
    split; [vm_compute; reflexivity|].
    repeat split; vm_compute; reflexivity.
  - split; vm_compute; intuition discriminate.
  - split; vm_compute; reflexivity.
Qed.

(** C10 — The subtitle segmenter returns at least one segment for every
    input, so in [gerar_srt] the segment count is never zero, the divisor
    of line 937 is never zero, and a slide is either skipped for having
    blank text or yields one entry per segment: the [num_segmentos == 0]
    branch changes nothing. *)
Theorem C10_segmenter_never_empty :
  (forall (texto : str) (max_chars max_linhas : Z),
      let segs := dividir_texto_segmentos_srt texto max_chars max_linhas in
      (1 <= length segs)%nat /\ (length segs =? 0)%nat = false /\
      ~ (of_nat (length segs) == 0)%Q) /\
  (forall (amb : Ambiente) (usar_traducao : bool) (tempo_extra tempo_minimo : Q)
          (max_chars_segmento max_linhas : Z) (st : Srt.Estado)
          (slide : SlideInfo),
      let texto := Srt.texto_slide usar_traducao slide in
      let d := Srt.duracao_slide amb usar_traducao tempo_extra tempo_minimo
                                 slide in
      let segs :=
        dividir_texto_segmentos_srt texto max_chars_segmento max_linhas in
      Srt.passo_slide amb usar_traducao tempo_extra tempo_minimo
                      max_chars_segmento max_linhas st slide =
      if negb (truthy texto) || negb (truthy (strip texto))
      then {| Srt.linhas_srt := Srt.linhas_srt st;
              Srt.tempo_atual := (Srt.tempo_atual st + d)%Q;
              Srt.contador := Srt.contador st |}
      else {| Srt.linhas_srt :=
                Srt.linhas_srt st ++
                map (Srt.entrada_do_segmento (Srt.tempo_atual st)
                       (Srt.contador st) (d / of_nat (length segs))%Q)
                    (enumerate segs);
              Srt.tempo_atual := (Srt.tempo_atual st + d)%Q;
              Srt.contador :=
                (Srt.contador st + Z.of_nat (length segs))%Z |}).
Proof.
  assert (L : forall texto max_chars max_linhas,
             (1 <= length (dividir_texto_segmentos_srt texto max_chars
                             max_linhas))%nat).
  { intros texto max_chars max_linhas. unfold dividir_texto_segmentos_srt.
    destruct (len _ <=? max_chars); [cbn; lia|].
    destruct (fold_left _ _ _) as [segs seg].
    destruct (guardar segs seg); cbn [length]; lia. }
  split.
  - intros texto max_chars max_linhas segs. specialize (L texto max_chars max_linhas).
    fold segs in L. split; [exact L|]. split; [apply Nat.eqb_neq; lia|].
    intros E. pose proof (of_nat_pos (length segs) L) as P.
    rewrite E in P. apply (Qlt_irrefl 0 P).
  - intros amb usar_traducao tempo_extra tempo_minimo max_chars_segmento
           max_linhas st slide texto d segs.
    unfold Srt.passo_slide. fold texto. fold d. fold segs.
    destruct (negb (truthy texto) || negb (truthy (strip texto)));
      [reflexivity|].
    specialize (L texto max_chars_segmento max_linhas). fold segs in L.
    destruct (length segs =? 0)%nat eqn:E; [|reflexivity].
    apply Nat.eqb_eq in E. lia.
Qed.

(** C8 — The code at the failing input: a narration of eleven ten-letter
    words (120 characters, so one segment under the default limit) gives
    one subtitle entry of two lines holding the first ten words; the
    eleventh word is in no entry. *)
Theorem C8_subtitle_drops_last_word :
  len texto_11_palavras = 120 /\
  In (lit "kkkkkkkkkk") (split texto_11_palavras) /\
  map Srt.texto_formatado
      (Srt.gerar_srt amb_sem_ficheiros [slide_de_texto texto_11_palavras]
                     false (1 # 2) 3 120 2) =
  [lit "aaaaaaaaaa bbbbbbbbbb cccccccccc dddddddddd eeeeeeeeee"
   ++ [newline]
   ++ lit "ffffffffff gggggggggg hhhhhhhhhh iiiiiiiiii jjjjjjjjjj"] /\
  ~ In (lit "kkkkkkkkkk")
       (concat (map (fun e => split (Srt.texto_formatado e))
                    (Srt.gerar_srt amb_sem_ficheiros
                       [slide_de_texto texto_11_palavras]
                       false (1 # 2) 3 120 2))).
Proof.
  split; [reflexivity|]. split; [vm_compute; tauto|].
  split; [vm_compute; reflexivity|].
  vm_compute. intros H.
  repeat (destruct H as [H|H]; [discriminate H|]). exact H.
Qed.

(** ** Facts about the karaoke sequencer *)

Section KaraokeFacts.

Local Open Scope Q_scope.

Import Karaoke.

Lemma range_passo_nonempty (n k : nat) :
  (1 <= n)%nat -> (1 <= k)%nat -> range_passo n k <> [].
Proof.
  intros Hn Hk. unfold range_passo.
  assert (L : (1 <= (n + k - 1) / k)%nat)
    by (apply Nat.div_le_lower_bound; lia).
  destruct ((n + k - 1) / k)%nat; [lia|]. discriminate.
Qed.

Lemma palavras_por_frame_pos (tpp : Q) :
  (1 <= Z.to_nat (palavras_por_frame tpp))%nat.
Proof. unfold palavras_por_frame. lia. Qed.

Lemma agrupar_some (palavras : list str) (tpp : Q) :
  palavras <> [] -> ~ tpp == 0 ->
  exists grupos, agrupar palavras tpp = Some grupos /\ grupos <> [].
Proof.
  intros Hp Ht. unfold agrupar. destruct (Qltb tpp min_tempo_frame).
  - destruct (Qeq_bool tpp 0) eqn:E;
      [apply Qeq_bool_iff in E; contradiction|].
    eexists. split; [reflexivity|].
    pose proof (range_passo_nonempty (length palavras)
                  (Z.to_nat (palavras_por_frame tpp))) as R.
    destruct (range_passo _ _); [|discriminate].
    exfalso. apply R; [|apply palavras_por_frame_pos|reflexivity].
    destruct palavras; [contradiction|cbn; lia].
  - eexists. split; [reflexivity|].
    destruct palavras; [contradiction|discriminate].
Qed.

Variables (grupos : list (list str)) (N : nat) (tp te : Q) (aud : bool).

Lemma soma_duracoes (l : list (list str)) (a : nat) :
  l <> [] -> (a + length l = N)%nat ->
  Qsum (map duracao_frame
          (map (clip_do_grupo grupos N tp te aud)
               (combine (seq a (length l)) l))) ==
  of_nat (length l) * tp + te.
Proof.
  revert a. induction l as [|x r IH]; intros a Hl Ha; [contradiction|].
  cbn [length seq combine map Qsum clip_do_grupo duracao_frame].
  rewrite of_nat_S. destruct r as [|y r'].
  - cbn [length] in Ha. replace (a =? N - 1)%nat with true
      by (symmetry; apply Nat.eqb_eq; lia).
    cbn. change (of_nat 0) with 0. ring.
  - replace (a =? N - 1)%nat with false
      by (symmetry; apply Nat.eqb_neq; cbn [length] in Ha; lia).
    rewrite (IH (S a)); [ring|discriminate|cbn [length] in *; lia].
Qed.

Lemma audio_dos_clips (l : list (list str)) (a : nat) :
  map com_audio
      (map (clip_do_grupo grupos N tp te aud)
           (combine (seq a (length l)) l)) =
  map (fun i => (i =? 0)%nat && aud) (seq a (length l)).
Proof.
  revert a. induction l as [|x r IH]; intros a; [reflexivity|].
  cbn [length seq combine map clip_do_grupo com_audio]. f_equal. apply IH.
Qed.

Lemma audio_depois_do_primeiro (a k : nat) :
  (1 <= a)%nat ->
  map (fun i => (i =? 0)%nat && aud) (seq a k) = repeat false k.
Proof.
  revert a. induction k as [|k IH]; intros a Ha; [reflexivity|].
  cbn [seq map repeat]. rewrite (IH (S a)) by lia.
  destruct a; [lia|reflexivity].
Qed.

Lemma audio_so_no_primeiro (k : nat) :
  map (fun i => (i =? 0)%nat && aud) (seq 0 (S k)) = aud :: repeat false k.
Proof.
  cbn [seq map Nat.eqb andb]. f_equal.
  apply audio_depois_do_primeiro. lia.
Qed.

End KaraokeFacts.

Section KaraokeCall.

Local Open Scope Q_scope.

Import Karaoke.

(** The call, when the text has a word and the pacing duration is
    positive. *)
Lemma gerar_clips_karaoke_ok (amb : Ambiente) (texto : str)
    (duracao_slide : Q) (audio_path : option str) (duracao_audio : option Q) :
  split texto <> [] ->
  0 < duracao_para_palavras duracao_slide duracao_audio ->
  exists clips,
    gerar_clips_karaoke amb texto duracao_slide audio_path duracao_audio
    = Some clips /\
    (1 <= length clips)%nat /\
    Qsum (map duracao_frame clips) ==
      duracao_para_palavras duracao_slide duracao_audio +
      py_max 0 (duracao_slide -
                duracao_para_palavras duracao_slide duracao_audio) /\
    map com_audio clips =
      carregar_audio amb audio_path :: repeat false (length clips - 1).
Proof.
  intros Hw Hd. unfold gerar_clips_karaoke. rewrite split_strip.
  set (dpp := duracao_para_palavras duracao_slide duracao_audio) in *.
  destruct (split texto) as [|w ws] eqn:Ew; [contradiction|].
  set (palavras := w :: ws) in *.
  replace (length palavras =? 0)%nat with false by reflexivity.
  assert (Hn : 0 < of_nat (length palavras))
    by (apply of_nat_pos; cbn; lia).
  assert (Ht : ~ dpp / of_nat (length palavras) == 0).
  { intros E. assert (P : 0 < dpp / of_nat (length palavras))
      by (apply Qlt_shift_div_l; [exact Hn|lra]).
    rewrite E in P. apply (Qlt_irrefl 0 P). }
  destruct (agrupar_some palavras _ Hw Ht) as (grupos & Eg & Hg).
  rewrite Eg. eexists. split; [reflexivity|].
  assert (Lg : (1 <= length grupos)%nat)
    by (destruct grupos; [contradiction|cbn; lia]).
  rewrite !length_map, enumerate_length. split; [exact Lg|]. split.
  - unfold enumerate.
    rewrite (soma_duracoes grupos (length grupos) _ _ _ grupos 0 Hg eq_refl).
    rewrite Qmul_div_cancel by lia. reflexivity.
  - unfold enumerate. rewrite audio_dos_clips.
    destruct (length grupos) as [|k] eqn:Ek; [lia|].
    rewrite audio_so_no_primeiro. f_equal. f_equal. lia.
Qed.

End KaraokeCall.

(** ** Facts about the per-slide timing of [gerar_video] *)

Section VideoFacts.

Local Open Scope Q_scope.

Import Karaoke Video.

Lemma Qle_bool_pos (x : Q) : 0 < x -> Qle_bool x 0 = false.
Proof.
  intros H. destruct (Qle_bool x 0) eqn:E; [|reflexivity].
  apply Qle_bool_iff in E. lra.
Qed.

Lemma Qle_bool_false (x : Q) : Qle_bool x 0 = false -> 0 < x.
Proof.
  intros E. apply Qnot_le_lt. intros L. apply Qle_bool_iff in L. congruence.
Qed.

Lemma duracao_para_palavras_pos (d r : Q) :
  0 < r -> duracao_para_palavras d (Some r) = r.
Proof.
  intros H. unfold duracao_para_palavras.
  replace (Qeq_bool r 0) with false.
  - replace (Qltb 0 r) with true by (symmetry; apply Qltb_lt, H).
    reflexivity.
  - symmetry. destruct (Qeq_bool r 0) eqn:E; [|reflexivity].
    apply Qeq_bool_iff in E. lra.
Qed.

Lemma duracao_para_palavras_nonpos (d r : Q) :
  r <= 0 -> duracao_para_palavras d (Some r) = d.
Proof.
  intros H. unfold duracao_para_palavras.
  replace (Qltb 0 r) with false by (symmetry; apply Qltb_ge, H).
  rewrite andb_false_r. reflexivity.
Qed.

Lemma escolher_audio_cases (amb : Ambiente) (usar : bool) (s : SlideInfo)
    (orig trad : Q) :
  let real := snd (fst (escolher_audio amb usar s orig trad)) in
  real = orig \/ real = trad \/ real = 0.
Proof.
  unfold escolher_audio.
  destruct usar, (disponivel amb (caminho_audio_traduzido s)),
    (disponivel amb (caminho_audio s)); cbn; auto.
Qed.

Variables (amb : Ambiente) (cfg : ConfigVideo) (usar : bool) (s : SlideInfo).

Hypothesis extra_nonneg : 0 <= tempo_extra_slide cfg.
Hypothesis minimo_pos : 0 < tempo_minimo_slide cfg.

Lemma duracao_total_pos (m : Q) : 0 < duracao_total cfg m.
Proof.
  unfold duracao_total. destruct (Qltb 0 m) eqn:E; [|exact minimo_pos].
  apply Qltb_lt in E. lra.
Qed.

(** The duration the words are paced over is positive and never exceeds
    the duration of the slide. *)
Lemma tempos_slide_dpp :
  let t := tempos_slide amb cfg usar (Some s) in
  let dpp := duracao_para_palavras (duracao t) (Some (duracao_audio_real t)) in
  0 < dpp /\ dpp <= duracao t.
Proof.
  unfold tempos_slide.
  set (orig := duracao_ficheiro amb (caminho_audio s) (duracao_audio s)).
  set (trad := duracao_ficheiro amb (caminho_audio_traduzido s)
                 (duracao_audio_traduzido s)).
  pose proof (escolher_audio_cases amb usar s orig trad) as Hsel.
  destruct (escolher_audio amb usar s orig trad) as [[path sel] rel].
  cbn [fst snd] in Hsel.
  cbn [duracao duracao_audio_real].
  destruct (py_max_cases orig trad) as [[Hlt Em]|[Hle Em]];
    rewrite Em; clear Em.
  - (* the translated duration is the larger one *)
    destruct (Qle_bool trad 0) eqn:Et.
    + apply Qle_bool_iff in Et.
      assert (Hs : sel <= 0) by (destruct Hsel as [-> | [-> | ->]]; lra).
      replace (Qle_bool sel 0) with true
        by (symmetry; apply Qle_bool_iff; exact Hs).
      rewrite duracao_para_palavras_nonpos by exact Et.
      split; [apply duracao_total_pos|lra].
    + apply Qle_bool_false in Et. unfold duracao_total.
      replace (Qltb 0 trad) with true by (symmetry; apply Qltb_lt, Et).
      destruct (Qle_bool sel 0) eqn:Es.
      * rewrite duracao_para_palavras_pos by exact Et. lra.
      * apply Qle_bool_false in Es.
        rewrite duracao_para_palavras_pos by exact Es.
        destruct Hsel as [-> | [-> | ->]]; lra.
  - (* the original duration is the larger one *)
    destruct (Qle_bool orig 0) eqn:Eo.
    + apply Qle_bool_iff in Eo.
      assert (Hs : sel <= 0) by (destruct Hsel as [-> | [-> | ->]]; lra).
      replace (Qle_bool sel 0) with true
        by (symmetry; apply Qle_bool_iff; exact Hs).
      rewrite duracao_para_palavras_nonpos by exact Eo.
      split; [apply duracao_total_pos|lra].
    + apply Qle_bool_false in Eo. unfold duracao_total.
      replace (Qltb 0 orig) with true by (symmetry; apply Qltb_lt, Eo).
      destruct (Qle_bool sel 0) eqn:Es.
      * rewrite duracao_para_palavras_pos by exact Eo. lra.
      * apply Qle_bool_false in Es.
        rewrite duracao_para_palavras_pos by exact Es.
        destruct Hsel as [-> | [-> | ->]]; lra.
Qed.

End VideoFacts.

(** * The claims about the karaoke frames and the slide timing *)


(** C2, as stated, fails: with the original audio of 5 s and the
    translated audio of 7 s both present and the original language
    chosen, the words are paced over 5 s but the slide lasts 7 s plus the
    padding, not 5 s plus the padding. *)
Lemma C2_counterexample :
  let t := Video.tempos_slide amb_5_7 cfg_karaoke false (Some slide_5_7) in
  Video.audio_path t = Some (lit "orig.mp3") /\
  (Video.duracao_audio_real t == 5)%Q /\
  (Video.duracao t == 7 + (1 # 2))%Q /\
  ~ (Video.duracao t == Video.duracao_audio_real t + (1 # 2))%Q.
Proof.
  vm_compute. repeat split; discriminate.
Qed.

(** C2, amended — The duration the words are paced over is the duration
    of the file chosen by the language choice when that file exists with a
    positive duration (reported as original, or as translated); with the
    translated language chosen and no translated file, it is the positive
    duration of the original file, reported as a fallback; with the
    original language chosen and no original file, it is the translated
    file's duration when positive, else zero.  The slide lasts [D] plus the
    padding when [D > 0] and the minimum duration otherwise, where [D] is
    the larger of the two file durations or, when that is not positive,
    the larger of the two stored durations.  With 5 s of original and 7 s
    of translated audio and the original language chosen, the words are
    paced over 5 s and the slide lasts 7 s plus the padding. *)
Theorem C2_slide_timing :
  forall (amb : Ambiente) (cfg : Video.ConfigVideo) (usar : bool)
         (s : SlideInfo),
    let orig :=
      Video.duracao_ficheiro amb (caminho_audio s) (duracao_audio s) in
    let trad :=
      Video.duracao_ficheiro amb (caminho_audio_traduzido s)
                             (duracao_audio_traduzido s) in
    let t := Video.tempos_slide amb cfg usar (Some s) in
    (usar = false -> Video.disponivel amb (caminho_audio s) = true ->
     (0 < orig)%Q ->
     Video.duracao_audio_real t = orig /\
     Video.audio_path t = Some (caminho_audio s) /\
     Video.relatos t = [Video.AudioOriginal orig]) /\
    (usar = true ->
     Video.disponivel amb (caminho_audio_traduzido s) = true ->
     (0 < trad)%Q ->
     Video.duracao_audio_real t = trad /\
     Video.audio_path t = Some (caminho_audio_traduzido s) /\
     Video.relatos t = [Video.AudioTraduzido trad]) /\
    (usar = true ->
     Video.disponivel amb (caminho_audio_traduzido s) = false ->
     Video.disponivel amb (caminho_audio s) = true ->
     (0 < orig)%Q ->
     Video.duracao_audio_real t = orig /\
     Video.audio_path t = Some (caminho_audio s) /\
     Video.relatos t = [Video.FallbackOriginal orig]) /\
    (usar = false -> Video.disponivel amb (caminho_audio s) = false ->
     Video.duracao_audio_real t = py_max 0 trad) /\
    Video.duracao_audio_max t =
      (if Qle_bool (py_max orig trad) 0
       then py_max (duracao_audio s) (duracao_audio_traduzido s)
       else py_max orig trad) /\
    Video.duracao t =
      (if Qltb 0 (Video.duracao_audio_max t)
       then Video.duracao_audio_max t + Video.tempo_extra_slide cfg
       else Video.tempo_minimo_slide cfg)%Q /\
    (usar = false ->
     Video.disponivel amb (caminho_audio s) = true ->
     Video.disponivel amb (caminho_audio_traduzido s) = true ->
     (orig == 5)%Q -> (trad == 7)%Q ->
     (Video.duracao_audio_real t == 5)%Q /\
     (Video.duracao t == 7 + Video.tempo_extra_slide cfg)%Q).
Proof.
  intros amb cfg usar s orig trad t.
  assert (Hreal : forall sel, (0 < sel)%Q ->
             (if Qle_bool sel 0 then py_max orig trad else sel) = sel)
    by (intros sel H; rewrite (Qle_bool_pos sel H); reflexivity).
  assert (Hmax : Video.duracao_audio_max t =
                 (if Qle_bool (py_max orig trad) 0
                  then py_max (duracao_audio s) (duracao_audio_traduzido s)
                  else py_max orig trad)).
  { subst t. unfold Video.tempos_slide. fold orig trad.
    destruct (Video.escolher_audio _ _ _ _ _) as [[p r] l]. reflexivity. }
  assert (Hdur : Video.duracao t =
                 (if Qltb 0 (Video.duracao_audio_max t)
                  then Video.duracao_audio_max t + Video.tempo_extra_slide cfg
                  else Video.tempo_minimo_slide cfg)%Q).
  { subst t. unfold Video.tempos_slide. fold orig trad.
    destruct (Video.escolher_audio _ _ _ _ _) as [[p r] l]. reflexivity. }
  assert (Horig : usar = false ->
                  Video.disponivel amb (caminho_audio s) = true ->
                  (0 < orig)%Q ->
                  Video.duracao_audio_real t = orig /\
                  Video.audio_path t = Some (caminho_audio s) /\
                  Video.relatos t = [Video.AudioOriginal orig]).
  { intros U D P. subst t. unfold Video.tempos_slide, Video.escolher_audio.
    fold orig trad. rewrite U, D.
    cbn [Video.duracao_audio_real Video.audio_path Video.relatos].
    rewrite (Hreal _ P). auto. }
  split; [exact Horig|]. split.
  { intros U D P. subst t. unfold Video.tempos_slide, Video.escolher_audio.
    fold orig trad. rewrite U, D.
    cbn [Video.duracao_audio_real Video.audio_path Video.relatos].
    rewrite (Hreal _ P). auto. }
  split.
  { intros U D1 D2 P. subst t.
    unfold Video.tempos_slide, Video.escolher_audio.
    fold orig trad. rewrite U, D1, D2.
    cbn [Video.duracao_audio_real Video.audio_path Video.relatos].
    rewrite (Hreal _ P). auto. }
  split.
  { intros U D. subst t. unfold Video.tempos_slide, Video.escolher_audio.
    fold orig trad. rewrite U, D.
    cbn [Video.duracao_audio_real].
    assert (O : orig = 0%Q)
      by (unfold orig, Video.duracao_ficheiro; rewrite D; reflexivity).
    rewrite O. reflexivity. }
  split; [exact Hmax|]. split; [exact Hdur|].
  intros U D1 D2 E5 E7.
  assert (P : (0 < orig)%Q) by (rewrite E5; reflexivity).
  destruct (Horig U D1 P) as (R & _ & _). rewrite R. split; [exact E5|].
  rewrite Hdur, Hmax.
  destruct (py_max_cases orig trad) as [[L E] | [L E]];
    [|exfalso; rewrite E5, E7 in L; revert L; unfold Qle; simpl; lia].
  rewrite E, (Qle_bool_pos trad) by (rewrite E7; reflexivity).
  replace (Qltb 0 trad) with true
    by (symmetry; apply Qltb_lt; rewrite E7; reflexivity).
  rewrite E7. reflexivity.
Qed.

Lemma C2_slide_timing_witness :
  let t := Video.tempos_slide amb_5_7 cfg_karaoke false (Some slide_5_7) in
  (Video.duracao_audio_real t == 5)%Q /\
  (Video.duracao t == 7 + Video.tempo_extra_slide cfg_karaoke)%Q.
Proof.
  apply (C2_slide_timing amb_5_7 cfg_karaoke false slide_5_7);
    reflexivity.
Defined.

(** C3 — The code at the failing input: four words over 1.0 s of audio
    (0.25 s per word, under the 0.3 s floor) in a slide of 1.5 s.  The
    rounded-up quotient ceil(0.3 / 0.25) is 2, the code truncates it to 1
    word per frame, and the four frames it emits are paced at 0.25 s
    each, under the floor (the last one also carries the 0.5 s of
    padding).  On IEEE doubles the batch size is 1 as well, and the
    truncation also turns the 20 words over 2.0 s of scenario B into
    batches of 2 words, not 3. *)
Theorem C3_batch_size_truncated :
  Qceiling (Karaoke.min_tempo_frame / (1 # 4)) = 2 /\
  Karaoke.palavras_por_frame (1 # 4) = 1 /\
  option_map
    (map (fun c => (Karaoke.idx_palavra_inicio c, Karaoke.idx_palavra_fim c,
                    Qred (Karaoke.duracao_frame c))))
    (Karaoke.gerar_clips_karaoke amb_5_7 texto_4_palavras (3 # 2)
       (Some (lit "orig.mp3")) (Some 1%Q))
  = Some [(0, 0, (1 # 4)%Q); (1, 1, (1 # 4)%Q); (2, 2, (1 # 4)%Q);
          (3, 3, (3 # 4)%Q)] /\
  ((1 # 4) < Karaoke.min_tempo_frame)%Q /\
  Binary64.palavras_por_frame 1%float 4 = 1 /\
  Binary64.palavras_por_frame 2%float 20 = 2.
Proof.
  repeat split.
Qed.

(** Scenario B in exact arithmetic: twenty words over 2.0 s are shown
    three at a time, in seven frames holding 3, 3, 3, 3, 3, 3 and 2
    words. *)
Lemma cenario_B_exacto :
  Karaoke.palavras_por_frame ((2 # 1) / of_nat 20) = 3 /\
  option_map (map (@length str))
    (Karaoke.agrupar (repeat (lit "ab") 20) ((2 # 1) / of_nat 20))
  = Some [3; 3; 3; 3; 3; 3; 2]%nat.
Proof. split; reflexivity. Qed.

(** * Further properties of the modelled code *)

(** ** The subtitle line wrapper [_formatar_texto_srt] *)

Section WrapperFacts.

Variable max_chars_linha : Z.

Lemma split_join_sep (c : ascii) (l : list str) :
  isspace c = true -> split (join [c] l) = concat (map split l).
Proof.
  intros Hc. induction l as [|x r IH]; [reflexivity|]. cbn [join map concat].
  destruct r as [|y r'].
  - cbn. rewrite app_nil_r. reflexivity.
  - cbn [app]. rewrite split_app_space by exact Hc. rewrite IH. reflexivity.
Qed.

Lemma concat_split_palavras (ws : list str) :
  Forall (fun w => e_palavra w = true) ws -> concat (map split ws) = ws.
Proof.
  induction ws as [|w ws IH]; intros H; [reflexivity|].
  inversion H as [|? ? Hw Hr]; subst. cbn [map concat].
  rewrite (split_palavra w Hw), (IH Hr). reflexivity.
Qed.

Lemma split_join_palavras (ws : list str) :
  Forall (fun w => e_palavra w = true) ws -> split (join [space] ws) = ws.
Proof.
  intros H. rewrite split_join_space. apply concat_split_palavras, H.
Qed.

Lemma sem_espacos_not_in (w : str) (c : ascii) :
  sem_espacos w = true -> isspace c = true -> ~ In c w.
Proof.
  intros Hw Hc Hin. unfold sem_espacos in Hw.
  rewrite forallb_forall in Hw. specialize (Hw c Hin).
  rewrite Hc in Hw. discriminate.
Qed.

Lemma in_join_space (c : ascii) (ws : list str) :
  In c (join [space] ws) -> c = space \/ exists w, In w ws /\ In c w.
Proof.
  induction ws as [|x r IH]; [intros []|]. cbn [join].
  destruct r as [|y r'].
  - intros H. right. exists x. split; [left; reflexivity|exact H].
  - intros H. apply in_app_or in H as [H|H].
    + right. exists x. split; [left; reflexivity|exact H].
    + cbn [app] in H. destruct H as [H|H]; [left; symmetry; exact H|].
      destruct (IH H) as [E|(w & Hw & Hc)]; [left; exact E|].
      right. exists w. split; [right; exact Hw|exact Hc].
Qed.

Lemma join_palavras_sem_newline (ws : list str) :
  Forall (fun w => e_palavra w = true) ws -> ~ In newline (join [space] ws).
Proof.
  intros H Hin. apply in_join_space in Hin as [E|(w & Hw & Hc)];
    [discriminate E|].
  rewrite Forall_forall in H. specialize (H w Hw).
  unfold e_palavra in H. apply andb_prop in H as [_ H].
  exact (sem_espacos_not_in w newline H eq_refl Hc).
Qed.

Lemma linha_ok_join (ws : list str) (tamanho : Z) :
  Forall (fun w => e_palavra w = true) ws ->
  len (join [space] ws) <= tamanho ->
  (length ws <= 1)%nat \/ tamanho <= max_chars_linha ->
  linha_ok max_chars_linha (join [space] ws).
Proof.
  intros Hw Hl Hs. split; [apply join_palavras_sem_newline, Hw|].
  destruct Hs as [Hs|Hs]; [|left; lia].
  destruct ws as [|w [|w2 r]]; [right; reflexivity| |cbn in Hs; lia].
  right. cbn [join]. inversion Hw as [|? ? H _]; subst.
  unfold e_palavra in H. apply andb_prop in H as [_ H]. exact H.
Qed.

Lemma srt_quebrar_linhas (palavras : list str) :
  forall (linhas linha_atual : list str) (tamanho : Z),
    Forall (fun w => e_palavra w = true) palavras ->
    Forall (fun w => e_palavra w = true) linha_atual ->
    Forall (linha_ok max_chars_linha) linhas ->
    len (join [space] linha_atual) <= tamanho ->
    (length linha_atual <= 1)%nat \/ tamanho <= max_chars_linha ->
    let r := srt_quebrar max_chars_linha palavras linhas linha_atual tamanho in
    Forall (linha_ok max_chars_linha) (fst r) /\
    linha_ok max_chars_linha (join [space] (snd r)) /\
    Forall (fun w => e_palavra w = true) (snd r) /\
    exists resto,
      concat (map split (fst r)) ++ snd r ++ resto =
      concat (map split linhas) ++ linha_atual ++ palavras.
Proof.
  induction palavras as [|p resto IH];
    intros linhas linha_atual tamanho Hp Ha Hl H1 H2 r.
  - subst r. cbn [srt_quebrar fst snd]. split; [exact Hl|].
    split; [apply (linha_ok_join _ tamanho); assumption|].
    split; [exact Ha|]. exists []. reflexivity.
  - inversion Hp as [|? ? Hw Hr]; subst. subst r. cbn [srt_quebrar].
    destruct (tamanho + len p + 1 <=? max_chars_linha) eqn:E.
    + apply Z.leb_le in E.
      destruct (IH linhas (linha_atual ++ [p]) (tamanho + len p + 1) Hr)
        as (R1 & R2 & R3 & rest & R4).
      * apply Forall_app. split; [exact Ha|]. constructor; [exact Hw|constructor].
      * exact Hl.
      * pose proof (len_join_app linha_atual [p]) as L.
        change (join [space] [p]) with p in L. lia.
      * right. exact E.
      * split; [exact R1|]. split; [exact R2|]. split; [exact R3|].
        exists rest. rewrite R4, <- !app_assoc. reflexivity.
    + set (linhas' := match linha_atual with
                      | [] => linhas
                      | _ :: _ => linhas ++ [join [space] linha_atual]
                      end).
      assert (Hl' : Forall (linha_ok max_chars_linha) linhas').
      { unfold linhas'. destruct linha_atual as [|a la]; [exact Hl|].
        apply Forall_app. split; [exact Hl|].
        constructor; [|constructor].
        apply (linha_ok_join _ tamanho); assumption. }
      assert (Hc : concat (map split linhas') =
                   concat (map split linhas) ++ linha_atual).
      { unfold linhas'. destruct linha_atual as [|a la];
          [rewrite app_nil_r; reflexivity|].
        rewrite map_app, concat_app. cbn [map concat].
        rewrite app_nil_r, split_join_palavras by exact Ha. reflexivity. }
      assert (Hp1 : Forall (fun w => e_palavra w = true) [p])
        by (constructor; [exact Hw|constructor]).
      destruct (2 <=? length linhas')%nat.
      * cbn [fst snd]. split; [exact Hl'|].
        split; [apply (linha_ok_join _ (len p));
                [exact Hp1|cbn [join]; lia|left; cbn; lia]|].
        split; [exact Hp1|].
        exists resto. rewrite Hc, <- !app_assoc. reflexivity.
      * destruct (IH linhas' [p] (len p) Hr Hp1 Hl')
          as (R1 & R2 & R3 & rest & R4);
          [cbn [join]; lia|left; cbn; lia|].
        split; [exact R1|]. split; [exact R2|]. split; [exact R3|].
        exists rest. rewrite R4, Hc, <- !app_assoc. reflexivity.
Qed.

Lemma replace_double_space_in (c : ascii) (s : str) :
  In c (replace_double_space s) -> In c s.
Proof.
  remember (length s) as n eqn:Hn. revert s Hn.
  induction n as [n IH] using lt_wf_ind. intros s Hn.
  destruct s as [|a [|b r]]; [intros []|intros H; exact H|].
  rewrite replace_double_space_cons.
  destruct (Ascii.eqb a space && Ascii.eqb b space) eqn:E.
  - apply andb_prop in E as [Ea _]. apply Ascii.eqb_eq in Ea. subst a.
    intros [H|H]; [left; exact H|].
    right. right. apply (IH (length r)); [subst n; simpl; lia|reflexivity|exact H].
  - intros [H|H]; [left; exact H|].
    right. apply (IH (length (b :: r))); [subst n; simpl; lia|reflexivity|exact H].
Qed.

Lemma normalizado_sem_newline (texto : str) :
  ~ In newline (replace_double_space (replace_newline (strip texto))).
Proof.
  intros H. apply replace_double_space_in in H. unfold replace_newline in H.
  apply in_map_iff in H as (c & E & _).
  destruct (Ascii.eqb c newline) eqn:Ec; [discriminate E|].
  apply Ascii.eqb_neq in Ec. congruence.
Qed.

Lemma formatar_texto_srt_forma (texto : str) :
  exists linhas resto,
    formatar_texto_srt texto max_chars_linha = join [newline] linhas /\
    (length linhas <= 2)%nat /\
    Forall (linha_ok max_chars_linha) linhas /\
    concat (map split linhas) ++ resto = split texto.
Proof.
  unfold formatar_texto_srt.
  set (t := replace_double_space (replace_newline (strip texto))).
  assert (Ht : split t = split texto) by apply split_normalizado.
  destruct (len t <=? max_chars_linha) eqn:E.
  - apply Z.leb_le in E. exists [t], []. split; [reflexivity|].
    split; [cbn; lia|]. split.
    + constructor; [|constructor]. split; [apply normalizado_sem_newline|].
      left. exact E.
    + cbn. rewrite !app_nil_r. exact Ht.
  - destruct (srt_quebrar_linhas (split t) [] [] 0 (split_palavras t))
      as (R1 & R2 & R3 & rest & R4);
      [constructor|constructor|cbn; lia|left; cbn; lia|].
    destruct (srt_quebrar max_chars_linha (split t) [] [] 0) as [ls la].
    cbn [fst snd] in *. cbn [map concat app] in R4. rewrite Ht in R4.
    set (finais := match la with
                   | [] => ls
                   | _ :: _ =>
                       if (length ls <? 2)%nat
                       then ls ++ [join [space] la] else ls
                   end).
    assert (F : Forall (linha_ok max_chars_linha) finais /\
                exists rest', concat (map split finais) ++ rest' = split texto).
    { unfold finais. destruct la as [|a la'].
      - split; [exact R1|]. exists rest. exact R4.
      - destruct (length ls <? 2)%nat.
        + split.
          * apply Forall_app. split; [exact R1|]. constructor; [exact R2|constructor].
          * exists rest. rewrite map_app, concat_app. cbn [map concat].
            rewrite app_nil_r, split_join_palavras by exact R3.
            rewrite <- app_assoc. exact R4.
        + split; [exact R1|]. exists ((a :: la') ++ rest). exact R4. }
    destruct F as (F1 & rest' & F2).
    exists (firstn 2 finais), (concat (map split (skipn 2 finais)) ++ rest').
    split; [reflexivity|]. split; [rewrite length_firstn; lia|]. split.
    + apply Forall_forall. intros l Hl.
      apply (proj1 (Forall_forall _ _) F1).
      rewrite <- (firstn_skipn 2 finais). apply in_or_app. left. exact Hl.
    + rewrite app_assoc, <- concat_app, <- map_app, firstn_skipn. exact F2.
Qed.

End WrapperFacts.

(** X1 — [_formatar_texto_srt] returns at most two lines; no line holds a
    line break, and each line is at most [max_chars_linha] long unless it
    is one unbroken word. *)
Theorem X1_formatar_texto_srt_two_lines :
  forall (texto : str) (max_chars_linha : Z),
  exists linhas,
    formatar_texto_srt texto max_chars_linha = join [newline] linhas /\
    (length linhas <= 2)%nat /\
    Forall (linha_ok max_chars_linha) linhas.
Proof.
  intros texto max_chars_linha.
  destruct (formatar_texto_srt_forma max_chars_linha texto)
    as (linhas & resto & E & L & F & _).
  exists linhas. auto.
Qed.

(** X2 — The words of the text returned by [_formatar_texto_srt] are an
    initial stretch of the words of its input, in the same order: the
    wrapper never alters, reorders or invents a word, it can only leave
    out the end. *)
Theorem X2_formatar_texto_srt_prefix :
  forall (texto : str) (max_chars_linha : Z),
  exists resto,
    split (formatar_texto_srt texto max_chars_linha) ++ resto = split texto.
Proof.
  intros texto max_chars_linha.
  destruct (formatar_texto_srt_forma max_chars_linha texto)
    as (linhas & resto & E & _ & _ & W).
  exists resto. rewrite E, split_join_sep by reflexivity. exact W.
Qed.

(** ** Plain line breaking: [_quebrar_texto_linhas] *)

Section LinhasFacts.

Variable max_chars : Z.

Lemma quebrar_passo_srt (st : list str * str) (w : str) :
  Linhas.quebrar_passo max_chars st w = srt_passo_palavra max_chars st w.
Proof. destruct st as [linhas atual]. reflexivity. Qed.

Lemma fold_quebrar_srt (ws : list str) (st : list str * str) :
  fold_left (Linhas.quebrar_passo max_chars) ws st =
  fold_left (srt_passo_palavra max_chars) ws st.
Proof.
  revert st. induction ws as [|w ws IH]; intros st; [reflexivity|].
  cbn [fold_left]. rewrite quebrar_passo_srt. apply IH.
Qed.

Lemma rstrip_app_nonempty (a b : str) :
  rstrip b <> [] -> rstrip (a ++ b) = a ++ rstrip b.
Proof.
  intros Hb. induction a as [|c a IH]; [reflexivity|].
  cbn [app]. rewrite rstrip_cons, IH.
  destruct (a ++ rstrip b) eqn:E; [|reflexivity].
  apply app_eq_nil in E as [_ E]. contradiction.
Qed.

Lemma rstrip_palavra (w : str) : e_palavra w = true -> rstrip w = w.
Proof.
  intros Hw. pose proof (strip_palavra w Hw) as S. unfold strip in S.
  assert (L : lstrip w = w).
  { unfold e_palavra in Hw. apply andb_prop in Hw as [_ Hs].
    destruct w as [|c w]; [reflexivity|]. cbn [sem_espacos forallb] in Hs.
    apply andb_prop in Hs as [Hc _]. apply negb_true_iff in Hc.
    simpl. rewrite Hc. reflexivity. }
  rewrite L in S. exact S.
Qed.

Lemma palavra_cabeca (w : str) :
  e_palavra w = true -> exists c r, w = c :: r /\ isspace c = false.
Proof.
  unfold e_palavra. intros H. apply andb_prop in H as [Ht Hs].
  destruct w as [|c r]; [discriminate|]. exists c, r. split; [reflexivity|].
  cbn [sem_espacos forallb] in Hs. apply andb_prop in Hs as [Hc _].
  apply negb_true_iff. exact Hc.
Qed.

Lemma join_cons_cons (sep x y : str) (r : list str) :
  join sep (x :: y :: r) = x ++ sep ++ join sep (y :: r).
Proof. reflexivity. Qed.

Lemma join_snoc (sep : str) (ws : list str) (w : str) :
  ws <> [] -> join sep (ws ++ [w]) = join sep ws ++ sep ++ w.
Proof.
  induction ws as [|x r IH]; [contradiction|]. intros _.
  destruct r as [|y r'].
  - reflexivity.
  - change ((x :: y :: r') ++ [w]) with (x :: y :: (r' ++ [w])).
    rewrite !join_cons_cons.
    change (y :: r' ++ [w]) with ((y :: r') ++ [w]).
    rewrite IH by discriminate. rewrite <- !app_assoc. reflexivity.
Qed.

Lemma strip_join_palavras (ws : list str) :
  Forall (fun w => e_palavra w = true) ws ->
  strip (join [space] ws) = join [space] ws.
Proof.
  intros H. unfold strip.
  assert (L : lstrip (join [space] ws) = join [space] ws).
  { destruct ws as [|x r]; [reflexivity|].
    inversion H as [|? ? Hx _]; subst.
    destruct (palavra_cabeca x Hx) as (c & x' & -> & Hc).
    destruct r; cbn [join app lstrip]; rewrite Hc; reflexivity. }
  rewrite L. clear L. induction ws as [|x r IH]; [reflexivity|].
  inversion H as [|? ? Hx Hr]; subst. destruct r as [|y r'].
  - apply rstrip_palavra. exact Hx.
  - rewrite join_cons_cons.
    assert (N : rstrip ([space] ++ join [space] (y :: r')) =
                [space] ++ join [space] (y :: r')).
    { rewrite rstrip_app_nonempty; rewrite (IH Hr); [reflexivity|].
      inversion Hr as [|? ? Hy _]; subst.
      destruct (palavra_cabeca y Hy) as (c & y' & -> & _).
      destruct r'; discriminate. }
    rewrite rstrip_app_nonempty; rewrite N; [reflexivity|discriminate].
Qed.

Lemma strip_juntar_palavras (ws : list str) (w : str) :
  Forall (fun w => e_palavra w = true) ws -> e_palavra w = true ->
  strip (join [space] ws ++ [space] ++ w) = join [space] (ws ++ [w]).
Proof.
  intros Hws Hw. destruct ws as [|x r].
  - cbn [join app]. unfold strip. cbn [lstrip].
    change (isspace space) with true. cbv iota.
    apply (strip_palavra w Hw).
  - rewrite <- join_snoc by discriminate. apply strip_join_palavras.
    apply Forall_app. split; [exact Hws|]. constructor; [exact Hw|constructor].
Qed.

(** The state of the loop as lists of words. *)
Lemma fold_quebrar_forma (ws : list str) :
  forall (linhas : list (list str)) (atual : list str),
    Forall (fun w => e_palavra w = true) ws ->
    Forall (fun w => e_palavra w = true) atual ->
    Forall (fun l => l <> [] /\ Forall (fun w => e_palavra w = true) l) linhas ->
    exists linhas' atual',
      fold_left (Linhas.quebrar_passo max_chars) ws
                (map (join [space]) linhas, join [space] atual) =
      (map (join [space]) linhas', join [space] atual') /\
      Forall (fun w => e_palavra w = true) atual' /\
      Forall (fun l => l <> [] /\ Forall (fun w => e_palavra w = true) l)
             linhas' /\
      concat linhas' ++ atual' = concat linhas ++ atual ++ ws.
Proof.
  induction ws as [|w ws IH]; intros linhas atual Hws Ha Hl.
  - exists linhas, atual. cbn [fold_left]. rewrite app_nil_r. auto.
  - inversion Hws as [|? ? Hw Hr]; subst. cbn [fold_left Linhas.quebrar_passo].
    destruct (len (join [space] atual) + len w + 1 <=? max_chars).
    + rewrite strip_juntar_palavras by assumption.
      destruct (IH linhas (atual ++ [w]) Hr) as (l' & a' & E & A & L & C);
        [apply Forall_app; split; [exact Ha|constructor; [exact Hw|constructor]]
        |exact Hl|].
      exists l', a'. rewrite E, C, <- !app_assoc. auto.
    + assert (Hw1 : Forall (fun w => e_palavra w = true) [w])
        by (constructor; [exact Hw|constructor]).
      destruct atual as [|a0 ar].
      * cbn [join truthy].
        destruct (IH linhas [w] Hr Hw1 Hl) as (l' & a' & E & A & L & C).
        exists l', a'. change (join [space] [w]) with w in E.
        rewrite E, C. auto.
      * assert (T : truthy (join [space] (a0 :: ar)) = true).
        { inversion Ha as [|? ? H0 _]; subst.
          destruct (palavra_cabeca a0 H0) as (c & r & -> & _).
          destruct ar; reflexivity. }
        rewrite T.
        destruct (IH (linhas ++ [a0 :: ar]) [w] Hr Hw1) as (l' & a' & E & A & L & C).
        { apply Forall_app. split; [exact Hl|].
          constructor; [split; [discriminate|exact Ha]|constructor]. }
        exists l', a'. rewrite map_app in E. cbn [map] in E.
        change (join [space] [w]) with w in E.
        rewrite E, C, concat_app. cbn [concat].
        rewrite app_nil_r, <- !app_assoc. auto.
Qed.

End LinhasFacts.

(** X3 — [_quebrar_texto_linhas] loses no word: its lines, read in order,
    hold exactly the words of the text.  Every line is a non-empty run of
    words joined by single spaces, and is at most [max_chars] long unless
    it is one unbroken word; a text with no word gives no line. *)
Theorem X3_quebrar_texto_linhas :
  forall (texto : str) (max_chars : Z),
    let linhas := Linhas.quebrar_texto_linhas texto max_chars in
    concat (map split linhas) = split texto /\
    Forall (fun l => l <> [] /\ l = normalize l /\
                     (len l <= max_chars \/ sem_espacos l = true)) linhas /\
    (split texto = [] -> linhas = []).
Proof.
  intros texto max_chars linhas.
  assert (Hs : split (replace_newline texto) = split texto)
    by apply split_replace_newline.
  destruct (fold_quebrar_forma max_chars (split (replace_newline texto)) [] []
              (split_palavras _) (Forall_nil _) (Forall_nil _))
    as (ls & at' & E & A & L & C).
  cbn [concat app] in C. rewrite Hs in C.
  assert (Ok : estado_ok max_chars
                 (map (join [space]) ls, join [space] at')).
  { rewrite <- E, fold_quebrar_srt.
    apply fold_palavras_ok; [apply split_palavras|].
    split; [constructor|right; reflexivity]. }
  destruct Ok as [Ok1 Ok2].
  subst linhas. unfold Linhas.quebrar_texto_linhas.
  destruct (fold_left (Linhas.quebrar_passo max_chars)
              (split (replace_newline texto)) ([], [])) as [l0 a0] eqn:E0.
  assert (E1 : (l0, a0) = (map (join [space]) ls, join [space] at'))
    by (rewrite <- E0; exact E).
  injection E1 as -> ->. cbn [fst snd] in Ok1, Ok2.
  set (finais := if truthy (join [space] at')
                 then map (join [space]) ls ++ [join [space] at']
                 else map (join [space]) ls).
  assert (F : finais = map (join [space])
                           (match at' with [] => ls | _ :: _ => ls ++ [at'] end)).
  { unfold finais. destruct at' as [|a0 ar]; [reflexivity|].
    inversion A as [|? ? H0 _]; subst.
    destruct (palavra_cabeca a0 H0) as (c & r & -> & _).
    rewrite map_app. destruct ar; reflexivity. }
  set (grupos := match at' with [] => ls | _ :: _ => ls ++ [at'] end) in F.
  assert (G : Forall (fun l => l <> [] /\
                               Forall (fun w => e_palavra w = true) l) grupos).
  { unfold grupos. destruct at' as [|a0 ar]; [exact L|].
    apply Forall_app. split; [exact L|].
    constructor; [split; [discriminate|exact A]|constructor]. }
  assert (Cg : concat grupos = split texto).
  { unfold grupos. destruct at' as [|a0 ar].
    - rewrite app_nil_r in C. exact C.
    - rewrite concat_app. cbn [concat]. rewrite app_nil_r. exact C. }
  assert (OkF : Forall (segmento_ok max_chars) finais).
  { unfold finais. destruct (truthy (join [space] at')); [|exact Ok1].
    apply Forall_app. split; [exact Ok1|]. constructor; [exact Ok2|constructor]. }
  fold finais. rewrite F in OkF. rewrite F. split; [|split].
  - rewrite <- Cg. clear - G. induction grupos as [|g gs IH]; [reflexivity|].
    inversion G as [|? ? [_ Hg] Hgs]; subst. cbn [map concat].
    rewrite split_join_palavras by exact Hg. rewrite (IH Hgs). reflexivity.
  - clear - G OkF. induction grupos as [|g gs IH]; [constructor|].
    inversion G as [|? ? [Hne Hg] Hgs]; subst.
    inversion OkF as [|? ? Hok Hoks]; subst.
    constructor; [|apply IH; assumption].
    split; [|split; [|exact Hok]].
    + destruct g as [|x r]; [contradiction|].
      inversion Hg as [|? ? Hx _]; subst.
      destruct (palavra_cabeca x Hx) as (c & x' & -> & _).
      destruct r; discriminate.
    + unfold normalize. rewrite split_join_palavras by exact Hg. reflexivity.
  - intros Hn. rewrite Hn in Cg. clear - Cg G.
    destruct grupos as [|g gs]; [reflexivity|].
    inversion G as [|? ? [Hne _] _]; subst. cbn [concat] in Cg.
    apply app_eq_nil in Cg as [Cg _]. contradiction.
Qed.

(** ** Line breaking by measured width *)

Section MedidaFacts.

Import Medida.

Variable f : Fonte.
Variable largura_max : Z.

Lemma largura_cobrada_snoc (l : list str) (p : str) :
  largura_cobrada f (l ++ [p]) = largura_cobrada f l + largura f p + espaco f.
Proof.
  induction l as [|x r IH]; cbn [app largura_cobrada fold_right] in *; [lia|].
  fold (largura_cobrada f (r ++ [p])). fold (largura_cobrada f r).
  rewrite IH. lia.
Qed.

Lemma fold_organizar (ws : list str) :
  forall (linhas : list (list str)) (atual : list str) (w_atual : Z),
    w_atual = largura_cobrada f atual ->
    (length atual <= 1)%nat \/ w_atual <= largura_max ->
    Forall (fun l => l <> [] /\
                     ((length l = 1)%nat \/ largura_cobrada f l <= largura_max))
           linhas ->
    exists linhas' atual' w',
      fold_left (organizar_passo f largura_max) ws (linhas, atual, w_atual) =
      (linhas', atual', w') /\
      ((length atual' <= 1)%nat \/ largura_cobrada f atual' <= largura_max) /\
      Forall (fun l => l <> [] /\
                       ((length l = 1)%nat \/
                        largura_cobrada f l <= largura_max)) linhas' /\
      concat linhas' ++ atual' = concat linhas ++ atual ++ ws.
Proof.
  induction ws as [|p ws IH]; intros linhas atual w_atual Hw Ha Hl.
  - exists linhas, atual, w_atual. cbn [fold_left]. rewrite app_nil_r.
    subst w_atual. auto.
  - cbn [fold_left organizar_passo].
    destruct ((w_atual + largura f p + espaco f <=? largura_max)
              || negb match atual with [] => false | _ :: _ => true end)
      eqn:E.
    + destruct (IH linhas (atual ++ [p]) (w_atual + largura f p + espaco f))
        as (l' & a' & w' & E' & A & L & C).
      * rewrite largura_cobrada_snoc. lia.
      * apply orb_prop in E as [E|E].
        -- right. apply Z.leb_le in E. exact E.
        -- left. destruct atual; [cbn; lia|discriminate].
      * exact Hl.
      * exists l', a', w'. rewrite E', C, <- !app_assoc. auto.
    + apply orb_false_elim in E as [_ E].
      destruct atual as [|a0 ar]; [discriminate|].
      destruct (IH (linhas ++ [a0 :: ar]) [p] (largura f p + espaco f))
        as (l' & a' & w' & E' & A & L & C).
      * cbn [largura_cobrada fold_right]. lia.
      * left. cbn. lia.
      * apply Forall_app. split; [exact Hl|].
        constructor; [|constructor]. split; [discriminate|].
        subst w_atual. destruct Ha as [Ha|Ha]; [|right; exact Ha].
        left. cbn [length] in *. destruct ar; [reflexivity|cbn in Ha; lia].
      * exists l', a', w'. rewrite E', C, concat_app. cbn [concat].
        rewrite app_nil_r, <- !app_assoc. auto.
Qed.

(** A group of words that makes a line of [_quebrar_texto_largura]. *)
Lemma fold_largura (ws : list str) :
  forall (linhas : list (list str)) (atual : list str),
    Forall (fun w => e_palavra w = true) ws ->
    Forall (fun w => e_palavra w = true) atual ->
    (length atual <= 1)%nat \/ largura f (join [space] atual) <= largura_max ->
    Forall (fun l => l <> [] /\ Forall (fun w => e_palavra w = true) l /\
                     ((length l = 1)%nat \/
                      largura f (join [space] l) <= largura_max)) linhas ->
    exists linhas' atual',
      fold_left (largura_passo f largura_max) ws
                (map (join [space]) linhas, atual) =
      (map (join [space]) linhas', atual') /\
      Forall (fun w => e_palavra w = true) atual' /\
      ((length atual' <= 1)%nat \/
       largura f (join [space] atual') <= largura_max) /\
      Forall (fun l => l <> [] /\ Forall (fun w => e_palavra w = true) l /\
                       ((length l = 1)%nat \/
                        largura f (join [space] l) <= largura_max)) linhas' /\
      concat linhas' ++ atual' = concat linhas ++ atual ++ ws.
Proof.
  induction ws as [|p ws IH]; intros linhas atual Hws Hw Ha Hl.
  - exists linhas, atual. cbn [fold_left]. rewrite app_nil_r. auto.
  - inversion Hws as [|? ? Hp Hr]; subst. cbn [fold_left largura_passo].
    destruct (largura f (join [space] (atual ++ [p])) <=? largura_max) eqn:E.
    + apply Z.leb_le in E.
      destruct (IH linhas (atual ++ [p]) Hr) as (l' & a' & E' & W & A & L & C);
        [apply Forall_app; split; [exact Hw|constructor; [exact Hp|constructor]]
        |right; exact E|exact Hl|].
      exists l', a'. rewrite E', C, <- !app_assoc. auto.
    + assert (Hp1 : Forall (fun w => e_palavra w = true) [p])
        by (constructor; [exact Hp|constructor]).
      destruct atual as [|a0 ar].
      * destruct (IH linhas [p] Hr Hp1) as (l' & a' & E' & W & A & L & C);
          [left; cbn; lia|exact Hl|].
        exists l', a'. rewrite E', C. auto.
      * destruct (IH (linhas ++ [a0 :: ar]) [p] Hr Hp1)
          as (l' & a' & E' & W & A & L & C); [left; cbn; lia| |].
        { apply Forall_app. split; [exact Hl|].
          constructor; [|constructor]. split; [discriminate|].
          split; [exact Hw|]. destruct Ha as [Ha|Ha]; [|right; exact Ha].
          left. cbn [length] in *. destruct ar; [reflexivity|cbn in Ha; lia]. }
        exists l', a'. rewrite map_app in E'. cbn [map] in E'.
        rewrite E', C, concat_app. cbn [concat].
        rewrite app_nil_r, <- !app_assoc. auto.
Qed.

End MedidaFacts.

(** X4 — [_organizar_palavras_linhas] keeps every word in order: the lines
    concatenated are the word list it was given.  No line is empty, and a
    line of two or more words is charged (each word and one space after
    it) at most [largura_max]. *)
Theorem X4_organizar_palavras_linhas :
  forall (f : Medida.Fonte) (palavras : list str) (largura_max : Z),
    let linhas := Medida.organizar_palavras_linhas f palavras largura_max in
    concat linhas = palavras /\
    Forall (fun l => l <> [] /\
                     ((length l = 1)%nat \/
                      Medida.largura_cobrada f l <= largura_max)) linhas.
Proof.
  intros f palavras largura_max linhas. subst linhas.
  unfold Medida.organizar_palavras_linhas.
  destruct (fold_organizar f largura_max palavras [] [] 0 eq_refl
              (or_introl (Nat.le_0_l 1)) (Forall_nil _))
    as (l' & a' & w' & E & A & L & C).
  rewrite E. cbn [concat app] in C. destruct a' as [|a0 ar].
  - rewrite app_nil_r in C. auto.
  - split.
    + rewrite concat_app. cbn [concat]. rewrite app_nil_r. exact C.
    + apply Forall_app. split; [exact L|]. constructor; [|constructor].
      split; [discriminate|]. destruct A as [A|A]; [|right; exact A].
      left. cbn [length] in *. destruct ar; [reflexivity|cbn in A; lia].
Qed.

(** X5 — [_quebrar_texto_largura] never returns an empty list and loses no
    word: its lines, read in order, hold exactly the words of the text.
    Unless the text has no word at all, every line is its words joined by
    single spaces and measures at most [largura_max], or is one unbroken
    word. *)
Theorem X5_quebrar_texto_largura :
  forall (f : Medida.Fonte) (texto : str) (largura_max : Z),
    let linhas := Medida.quebrar_texto_largura f texto largura_max in
    linhas <> [] /\
    concat (map split linhas) = split texto /\
    (split texto = [] \/
     Forall (fun l => l = normalize l /\
                      (Medida.largura f l <= largura_max \/
                       sem_espacos l = true)) linhas).
Proof.
  intros f texto largura_max linhas. subst linhas.
  unfold Medida.quebrar_texto_largura.
  destruct (fold_largura f largura_max (split texto) [] []
              (split_palavras _) (Forall_nil _) (or_introl (Nat.le_0_l 1))
              (Forall_nil _)) as (ls & a' & E & W & A & L & C).
  cbn [concat app] in C.
  destruct (fold_left (Medida.largura_passo f largura_max) (split texto)
              ([], [])) as [l0 a0] eqn:E0.
  assert (E1 : (l0, a0) = (map (join [space]) ls, a'))
    by (rewrite <- E0; exact E).
  injection E1 as -> ->.
  set (grupos := match a' with [] => ls | _ :: _ => ls ++ [a'] end).
  assert (F : match a' with
              | [] => map (join [space]) ls
              | _ :: _ => map (join [space]) ls ++ [join [space] a']
              end = map (join [space]) grupos).
  { unfold grupos. destruct a'; [reflexivity|]. rewrite map_app. reflexivity. }
  rewrite F.
  assert (G : Forall (fun l => l <> [] /\
                               Forall (fun w => e_palavra w = true) l /\
                               ((length l = 1)%nat \/
                                Medida.largura f (join [space] l)
                                <= largura_max)) grupos).
  { unfold grupos. destruct a' as [|a0 ar]; [exact L|].
    apply Forall_app. split; [exact L|]. constructor; [|constructor].
    split; [discriminate|]. split; [exact W|].
    destruct A as [A|A]; [|right; exact A].
    left. cbn [length] in *. destruct ar; [reflexivity|cbn in A; lia]. }
  assert (Cg : concat grupos = split texto).
  { unfold grupos. destruct a' as [|a0 ar].
    - rewrite app_nil_r in C. exact C.
    - rewrite concat_app. cbn [concat]. rewrite app_nil_r. exact C. }
  clearbody grupos. clear F E E0 C L A W.
  destruct grupos as [|g gs].
  - cbn [map]. cbn [concat] in Cg. split; [discriminate|]. split.
    + cbn. rewrite app_nil_r, <- Cg. apply (split_slice_to 50).
      symmetry. exact Cg.
    + left. symmetry. exact Cg.
  - assert (M : forall gr,
               Forall (fun l => l <> [] /\
                                Forall (fun w => e_palavra w = true) l /\
                                ((length l = 1)%nat \/
                                 Medida.largura f (join [space] l)
                                 <= largura_max)) gr ->
               concat (map split (map (join [space]) gr)) = concat gr /\
               Forall (fun l => l = normalize l /\
                                (Medida.largura f l <= largura_max \/
                                 sem_espacos l = true))
                      (map (join [space]) gr)).
    { induction gr as [|x xs IH]; intros Hg; [split; [reflexivity|constructor]|].
      inversion Hg as [|? ? (Hne & Hw & Hm) Hgs]; subst.
      destruct (IH Hgs) as [I1 I2]. cbn [map concat]. split.
      - rewrite split_join_palavras by exact Hw. rewrite I1. reflexivity.
      - constructor; [|exact I2]. split.
        + unfold normalize. rewrite split_join_palavras by exact Hw.
          reflexivity.
        + destruct Hm as [Hm|Hm]; [|left; exact Hm]. right.
          destruct x as [|w [|w2 r]]; [contradiction| |discriminate Hm].
          cbn [join]. inversion Hw as [|? ? H _]; subst.
          unfold e_palavra in H. apply andb_prop in H as [_ H]. exact H. }
    destruct (M (g :: gs) G) as [M1 M2]. cbn [map] in M1, M2 |- *.
    split; [discriminate|].
    split; [rewrite M1; exact Cg|right; exact M2].
Qed.

(** ** The karaoke sequencer: word ranges, errors, total duration *)

Section KaraokeMore.

Local Open Scope Q_scope.

Import Karaoke.

Lemma firstn_add {A} (k r : nat) (l : list A) :
  firstn (k + r) l = firstn k l ++ firstn r (skipn k l).
Proof.
  revert l. induction k as [|k IH]; intros l; [reflexivity|].
  destruct l as [|x l]; cbn [Nat.add firstn skipn app].
  - rewrite firstn_nil. reflexivity.
  - rewrite IH. reflexivity.
Qed.

Lemma fatias_concat {A} (l : list A) (k : nat) (m a : nat) :
  concat (map (fun i => fatia l i k) (map (fun j => (j * k)%nat) (seq a m)))
  = firstn (m * k) (skipn (a * k) l).
Proof.
  revert a. induction m as [|m IH]; intros a; [reflexivity|].
  cbn [seq map concat]. rewrite IH. unfold fatia.
  change (S m * k)%nat with (k + m * k)%nat. rewrite firstn_add.
  rewrite skipn_skipn. reflexivity.
Qed.

Lemma range_cobre (n k : nat) :
  (1 <= k)%nat -> (n <= (n + k - 1) / k * k)%nat.
Proof.
  intros Hk. pose proof (Nat.div_mod (n + k - 1) k ltac:(lia)) as D.
  pose proof (Nat.mod_upper_bound (n + k - 1) k ltac:(lia)) as U. nia.
Qed.

Lemma fatias_todas {A} (l : list A) (k : nat) :
  (1 <= k)%nat ->
  concat (map (fun i => fatia l i k) (range_passo (length l) k)) = l.
Proof.
  intros Hk. unfold range_passo. rewrite fatias_concat. cbn [Nat.mul skipn].
  apply firstn_all2. apply range_cobre. exact Hk.
Qed.

Lemma fatias_nao_vazias {A} (l : list A) (k : nat) :
  (1 <= k)%nat ->
  Forall (fun g => g <> [] /\ (length g <= k)%nat)
         (map (fun i => fatia l i k) (range_passo (length l) k)).
Proof.
  intros Hk. apply Forall_forall. intros g Hg.
  apply in_map_iff in Hg as (i & <- & Hi). unfold range_passo in Hi.
  apply in_map_iff in Hi as (j & <- & Hj). apply in_seq in Hj.
  assert (Hlt : (j * k < length l)%nat).
  { destruct Hj as [_ Hj]. cbn in Hj.
    pose proof (Nat.div_mod (length l + k - 1) k ltac:(lia)) as D.
    pose proof (Nat.mod_upper_bound (length l + k - 1) k ltac:(lia)) as U.
    nia. }
  unfold fatia. split.
  - intros E. apply (f_equal (@length A)) in E.
    rewrite length_firstn, length_skipn in E. cbn in E. lia.
  - rewrite length_firstn. lia.
Qed.

Lemma agrupar_forma (palavras : list str) (tpp : Q) (grupos : list (list str)) :
  agrupar palavras tpp = Some grupos ->
  concat grupos = palavras /\
  Forall (fun g => g <> []) grupos.
Proof.
  unfold agrupar. destruct (Qltb tpp min_tempo_frame).
  - destruct (Qeq_bool tpp 0); [discriminate|]. intros E. injection E as <-.
    pose proof (palavras_por_frame_pos tpp) as Hk. split.
    + apply fatias_todas. exact Hk.
    + eapply Forall_impl; [|apply fatias_nao_vazias; exact Hk].
      cbn beta. intros g [H _]. exact H.
  - intros E. injection E as <-. split.
    + induction palavras as [|p r IH]; [reflexivity|]. cbn [map concat app].
      rewrite IH. reflexivity.
    + apply Forall_forall. intros g Hg. apply in_map_iff in Hg as (p & <- & _).
      discriminate.
Qed.




End KaraokeMore.






(** ** Slide durations of the video and of the subtitles *)

Section DurationFacts.

Local Open Scope Q_scope.

Lemma py_max_comm (a b : Q) : py_max a b == py_max b a.
Proof.
  destruct (py_max_cases a b) as [[H1 ->] | [H1 ->]];
    destruct (py_max_cases b a) as [[H2 ->] | [H2 ->]]; lra.
Qed.

Lemma Qltb_comp (x y : Q) : x == y -> Qltb 0 x = Qltb 0 y.
Proof.
  intros E. unfold Qltb. rewrite E. reflexivity.
Qed.

Lemma duracao_comp (e m x y : Q) :
  x == y ->
  (if Qltb 0 x then x + e else m) == (if Qltb 0 y then y + e else m).
Proof.
  intros E. rewrite (Qltb_comp x y E). destruct (Qltb 0 y); [|reflexivity].
  rewrite E. reflexivity.
Qed.

Lemma recurso_comp (u v x y : Q) :
  x == y -> u == v ->
  (if Qle_bool x 0 then u else x) == (if Qle_bool y 0 then v else y).
Proof.
  intros E F. rewrite E. destruct (Qle_bool y 0); assumption.
Qed.

Lemma tempos_slide_duracao (amb : Ambiente) (cfg : Video.ConfigVideo)
    (usar : bool) (s : SlideInfo) :
  Video.duracao (Video.tempos_slide amb cfg usar (Some s)) =
  Video.duracao_total cfg
    (let maior :=
       py_max (Video.duracao_ficheiro amb (caminho_audio s) (duracao_audio s))
              (Video.duracao_ficheiro amb (caminho_audio_traduzido s)
                 (duracao_audio_traduzido s)) in
     if Qle_bool maior 0
     then py_max (duracao_audio s) (duracao_audio_traduzido s)
     else maior).
Proof.
  unfold Video.tempos_slide.
  destruct (Video.escolher_audio _ _ _ _ _) as [[p r] l]. reflexivity.
Qed.

Lemma duracao_ficheiro_medida (amb : Ambiente) (caminho : str) (guardada : Q) :
  (forall p, existe amb p = true ->
             audio_file_clip amb p = Some (medir_audio amb p)) ->
  Video.duracao_ficheiro amb caminho guardada = Srt.duracao_se amb caminho.
Proof.
  intros H. unfold Video.duracao_ficheiro, Video.disponivel, Srt.duracao_se,
    Srt.obter_duracao_audio.
  destruct (truthy caminho); cbn [andb negb orb]; [|reflexivity].
  destruct (existe amb caminho) eqn:E; cbn [negb]; [|reflexivity].
  rewrite (H caminho E). reflexivity.
Qed.

End DurationFacts.

(** X9 — In [gerar_video] the duration of a slide does not depend on the
    language chosen for the audio: with or without [usar_audio_traduzido]
    the slide lasts the same time. *)
Theorem X9_video_duration_ignores_language :
  forall (amb : Ambiente) (cfg : Video.ConfigVideo) (s : SlideInfo),
    Video.duracao (Video.tempos_slide amb cfg true (Some s)) =
    Video.duracao (Video.tempos_slide amb cfg false (Some s)) /\
    Video.duracao_audio_max (Video.tempos_slide amb cfg true (Some s)) =
    Video.duracao_audio_max (Video.tempos_slide amb cfg false (Some s)).
Proof.
  intros amb cfg s. split.
  - rewrite !tempos_slide_duracao. reflexivity.
  - unfold Video.tempos_slide.
    destruct (Video.escolher_audio amb true _ _ _) as [[p r] l].
    destruct (Video.escolher_audio amb false _ _ _) as [[p' r'] l'].
    reflexivity.
Qed.

(** X10 — When the two duration probes agree on every existing file, the
    subtitles written for the translated text give each slide the same
    duration as the video does, whatever audio language the video uses. *)
Theorem X10_srt_translated_matches_video :
  forall (amb : Ambiente) (cfg : Video.ConfigVideo) (usar : bool)
         (s : SlideInfo),
    (forall p, existe amb p = true ->
               audio_file_clip amb p = Some (medir_audio amb p)) ->
    (Srt.duracao_slide amb true (Video.tempo_extra_slide cfg)
                       (Video.tempo_minimo_slide cfg) s ==
     Video.duracao (Video.tempos_slide amb cfg usar (Some s)))%Q.
Proof.
  intros amb cfg usar s H. rewrite tempos_slide_duracao.
  rewrite !(duracao_ficheiro_medida amb _ _ H).
  unfold Srt.duracao_slide, Video.duracao_total. cbv zeta.
  apply duracao_comp. apply recurso_comp; apply py_max_comm.
Qed.

Lemma X10_srt_translated_matches_video_witness :
  (Srt.duracao_slide amb_5_7 true (Video.tempo_extra_slide cfg_karaoke)
                     (Video.tempo_minimo_slide cfg_karaoke) slide_5_7 ==
   Video.duracao (Video.tempos_slide amb_5_7 cfg_karaoke false
                    (Some slide_5_7)))%Q.
Proof.
  apply (X10_srt_translated_matches_video amb_5_7 cfg_karaoke false slide_5_7).
  intros p. unfold amb_5_7. cbn [existe audio_file_clip medir_audio].
  destruct (e_caminho "orig.mp3" p); [reflexivity|].
  destruct (e_caminho "trad.mp3" p); [reflexivity|discriminate].
Defined.

(** ** The subtitle writer: clock and entry count *)

Section SrtMore.

Local Open Scope Q_scope.

Variable amb : Ambiente.
Variable usar_traducao : bool.
Variables tempo_extra tempo_minimo : Q.
Variables max_chars_segmento max_linhas : Z.

Lemma passo_slide_relogio (st : Srt.Estado) (slide : SlideInfo) :
  Srt.tempo_atual
    (Srt.passo_slide amb usar_traducao tempo_extra tempo_minimo
                     max_chars_segmento max_linhas st slide) =
  Srt.tempo_atual st +
  Srt.duracao_slide amb usar_traducao tempo_extra tempo_minimo slide.
Proof.
  unfold Srt.passo_slide.
  destruct (negb _ || negb _); [reflexivity|].
  destruct (_ =? 0)%nat; reflexivity.
Qed.

Lemma passo_slide_contagem (st : Srt.Estado) (slide : SlideInfo) :
  length (Srt.linhas_srt
            (Srt.passo_slide amb usar_traducao tempo_extra tempo_minimo
                             max_chars_segmento max_linhas st slide)) =
  (length (Srt.linhas_srt st) +
   entradas_do_slide usar_traducao max_chars_segmento max_linhas slide)%nat.
Proof.
  unfold Srt.passo_slide, entradas_do_slide.
  destruct (negb _ || negb _); cbn [Srt.linhas_srt]; [lia|].
  destruct (_ =? 0)%nat eqn:E; cbn [Srt.linhas_srt].
  - apply Nat.eqb_eq in E. lia.
  - rewrite length_app, length_map, enumerate_length. reflexivity.
Qed.

Lemma fold_passo_slide_total (slides : list SlideInfo) (st : Srt.Estado) :
  let fim := fold_left (Srt.passo_slide amb usar_traducao tempo_extra
                          tempo_minimo max_chars_segmento max_linhas)
                       slides st in
  Srt.tempo_atual fim ==
    Srt.tempo_atual st +
    Qsum (map (Srt.duracao_slide amb usar_traducao tempo_extra tempo_minimo)
              slides) /\
  length (Srt.linhas_srt fim) =
    (length (Srt.linhas_srt st) +
     list_sum (map (entradas_do_slide usar_traducao max_chars_segmento
                      max_linhas) slides))%nat.
Proof.
  revert st. induction slides as [|s r IH]; intros st.
  - cbn. split; [ring|lia].
  - cbn [fold_left map Qsum]. destruct (IH (Srt.passo_slide amb usar_traducao
      tempo_extra tempo_minimo max_chars_segmento max_linhas st s)) as [T L].
    split.
    + rewrite T, passo_slide_relogio. ring.
    + rewrite L, passo_slide_contagem.
      change (list_sum (?x :: ?y)) with (x + list_sum y)%nat. cbn [list_sum fold_right]. lia.
Qed.

End SrtMore.

(** X11 — After [gerar_srt] has gone through the slides, its running clock
    is the sum of the durations of all slides, with or without text, and
    the number of entries written is the number of segments of the slides
    whose text is not blank. *)
Theorem X11_srt_clock_and_count :
  forall (amb : Ambiente) (slides : list SlideInfo) (usar_traducao : bool)
         (tempo_extra tempo_minimo : Q) (max_chars_segmento max_linhas : Z),
    (Srt.tempo_atual
       (fold_left (Srt.passo_slide amb usar_traducao tempo_extra tempo_minimo
                     max_chars_segmento max_linhas)
                  slides Srt.estado_inicial) ==
     Qsum (map (Srt.duracao_slide amb usar_traducao tempo_extra tempo_minimo)
               slides))%Q /\
    length (Srt.gerar_srt amb slides usar_traducao tempo_extra tempo_minimo
                          max_chars_segmento max_linhas) =
    list_sum (map (entradas_do_slide usar_traducao max_chars_segmento
                     max_linhas) slides).
Proof.
  intros. destruct (fold_passo_slide_total amb usar_traducao tempo_extra
                      tempo_minimo max_chars_segmento max_linhas slides
                      Srt.estado_inicial) as [T L].
  split.
  - rewrite T. cbn [Srt.estado_inicial Srt.tempo_atual]. ring.
  - exact L.
Qed.

(** ** Timestamps *)

Section TempoFacts.

Local Open Scope Q_scope.

Import TempoSrt.

Example formatar_tempo_srt_exemplo :
  formatar_tempo_srt (7323 + (1 # 2)) = lit "02:02:03,500".
Proof. reflexivity. Qed.

Lemma Qfloor_unico (x : Q) (z : Z) :
  inject_Z z <= x -> x < inject_Z (z + 1) -> Qfloor x = z.
Proof.
  intros H1 H2. pose proof (Qfloor_le x). pose proof (Qlt_floor x).
  assert (A : (Qfloor x < z + 1)%Z) by (rewrite Zlt_Qlt; lra).
  assert (B : (z < Qfloor x + 1)%Z) by (rewrite Zlt_Qlt; lra).
  lia.
Qed.

Lemma inject_Z_pos (c : Z) : (0 < c)%Z -> 0 < inject_Z c.
Proof. intros H. change 0 with (inject_Z 0). rewrite <- Zlt_Qlt. exact H. Qed.

Lemma Qfloor_div (x : Q) (c : Z) :
  (0 < c)%Z -> Qfloor (x / inject_Z c) = (Qfloor x / c)%Z.
Proof.
  intros Hc. pose proof (inject_Z_pos c Hc) as P.
  pose proof (Z.div_mod (Qfloor x) c ltac:(lia)) as D.
  pose proof (Z.mod_pos_bound (Qfloor x) c Hc) as M.
  apply Qfloor_unico.
  - pose proof (Qfloor_le x). apply Qle_shift_div_l; [exact P|].
    rewrite <- inject_Z_mult.
    assert (inject_Z (Qfloor x / c * c) <= inject_Z (Qfloor x))
      by (rewrite <- Zle_Qle; lia).
    lra.
  - pose proof (Qlt_floor x). apply Qlt_shift_div_r; [exact P|].
    rewrite <- inject_Z_mult.
    assert (inject_Z (Qfloor x + 1) <= inject_Z ((Qfloor x / c + 1) * c))
      by (rewrite <- Zle_Qle; nia).
    lra.
Qed.

Lemma Qfloor_menos (x : Q) (z : Z) :
  Qfloor (x - inject_Z z) = (Qfloor x - z)%Z.
Proof.
  apply Qfloor_unico.
  - pose proof (Qfloor_le x). unfold Z.sub. rewrite inject_Z_plus, inject_Z_opp.
    lra.
  - pose proof (Qlt_floor x).
    replace (Qfloor x - z + 1)%Z with ((Qfloor x + 1) + - z)%Z by lia.
    rewrite inject_Z_plus, inject_Z_opp. lra.
Qed.

Lemma py_int_inject (z : Z) : py_int (inject_Z z) = z.
Proof. unfold py_int. cbn. apply Z.quot_1_r. Qed.

Lemma py_int_floor (x : Q) : 0 <= x -> py_int x = Qfloor x.
Proof.
  intros H. unfold py_int. destruct x as [n d]. cbn [Qnum Qden Qfloor].
  apply Z.quot_div_nonneg; [|lia].
  unfold Qle in H. cbn in H. lia.
Qed.

Lemma pymod_floor (x : Q) (c : Z) :
  (0 < c)%Z ->
  0 <= pymod x (inject_Z c) /\
  Qfloor (pymod x (inject_Z c)) = (Qfloor x mod c)%Z.
Proof.
  intros Hc. unfold pymod. rewrite (Qfloor_div x c Hc).
  rewrite <- inject_Z_mult, Qfloor_menos.
  pose proof (Z.div_mod (Qfloor x) c ltac:(lia)) as D.
  pose proof (Z.mod_pos_bound (Qfloor x) c Hc) as M.
  split.
  - pose proof (Qfloor_le x).
    assert (inject_Z (c * (Qfloor x / c)) <= inject_Z (Qfloor x))
      by (rewrite <- Zle_Qle; lia).
    lra.
  - lia.
Qed.

(** The fields of a timestamp, from the whole seconds [N] of the instant. *)
Lemma campos_tempo_srt_forma (s : Q) :
  campos_tempo_srt s =
  ((Qfloor s / 3600)%Z,
   ((Qfloor s mod 3600) / 60)%Z,
   (Qfloor s mod 60)%Z,
   (Qfloor (s * 1000) - 1000 * Qfloor s)%Z).
Proof.
  unfold campos_tempo_srt.
  change 3600 with (inject_Z 3600). change 60 with (inject_Z 60).
  change 1 with (inject_Z 1).
  destruct (pymod_floor s 3600 ltac:(lia)) as [P1 F1].
  destruct (pymod_floor s 60 ltac:(lia)) as [P2 F2].
  destruct (pymod_floor s 1 ltac:(lia)) as [P3 F3].
  unfold floordiv. rewrite !py_int_inject.
  rewrite (Qfloor_div s 3600) by lia.
  rewrite (Qfloor_div (pymod s (inject_Z 3600)) 60) by lia. rewrite F1.
  rewrite (py_int_floor _ P2), F2.
  assert (P4 : 0 <= pymod s (inject_Z 1) * 1000) by lra.
  rewrite (py_int_floor _ P4).
  do 3 f_equal.
  unfold pymod. rewrite (Qfloor_div s 1) by lia. rewrite Z.div_1_r.
  assert (E : (s - inject_Z 1 * inject_Z (Qfloor s)) * 1000 ==
              s * 1000 - inject_Z (1000 * Qfloor s)).
  { rewrite inject_Z_mult. change (inject_Z 1000) with 1000.
    change (inject_Z 1) with 1. ring. }
  rewrite E, Qfloor_menos. reflexivity.
Qed.

Lemma campos_tempo_srt_total (s : Q) :
  let '(horas, minutos, segs, milisseg) := campos_tempo_srt s in
  (0 <= minutos < 60)%Z /\ (0 <= segs < 60)%Z /\ (0 <= milisseg < 1000)%Z /\
  milissegundos (campos_tempo_srt s) = Qfloor (s * 1000) /\
  horas = (Qfloor s / 3600)%Z.
Proof.
  rewrite campos_tempo_srt_forma. cbn [milissegundos].
  pose proof (Z.div_mod (Qfloor s) 3600 ltac:(lia)) as D1.
  pose proof (Z.mod_pos_bound (Qfloor s) 3600 ltac:(lia)) as M1.
  pose proof (Z.div_mod (Qfloor s mod 3600) 60 ltac:(lia)) as D2.
  pose proof (Z.mod_pos_bound (Qfloor s mod 3600) 60 ltac:(lia)) as M2.
  pose proof (Z.mod_pos_bound (Qfloor s) 60 ltac:(lia)) as M3.
  assert (E : ((Qfloor s mod 3600) mod 60 = Qfloor s mod 60)%Z).
  { pose proof (Z.div_mod (Qfloor s) 60 ltac:(lia)) as D3.
    pose proof (Z.mod_pos_bound (Qfloor s mod 3600) 60 ltac:(lia)) as M4.
    lia. }
  assert (B : (0 <= Qfloor (s * 1000) - 1000 * Qfloor s < 1000)%Z).
  { pose proof (Qfloor_le s) as A1. pose proof (Qlt_floor s) as A2.
    pose proof (Qfloor_le (s * 1000)) as A3.
    pose proof (Qlt_floor (s * 1000)) as A4.
    rewrite inject_Z_plus in A2, A4. change (inject_Z 1) with 1 in A2, A4.
    assert (X1 : (1000 * Qfloor s < Qfloor (s * 1000) + 1)%Z).
    { rewrite Zlt_Qlt, inject_Z_plus, inject_Z_mult.
      change (inject_Z 1000) with 1000. change (inject_Z 1) with 1. lra. }
    assert (X2 : (Qfloor (s * 1000) < 1000 * Qfloor s + 1000)%Z).
    { rewrite Zlt_Qlt, inject_Z_plus, inject_Z_mult.
      change (inject_Z 1000) with 1000. lra. }
    lia. }
  repeat split; try lia.
Qed.

End TempoFacts.

Section TempoForma.

Import TempoSrt.

Lemma fmt_0d_comprimento (largura : nat) (limite : nat) :
  forallb (fun k => (length (fmt_0d largura (Z.of_nat k)) =? largura)%nat)
          (seq 0 limite) = true ->
  forall n, 0 <= n < Z.of_nat limite -> length (fmt_0d largura n) = largura.
Proof.
  intros H n Hn. rewrite forallb_forall in H.
  specialize (H (Z.to_nat n)). rewrite Z2Nat.id in H by lia.
  apply Nat.eqb_eq, H. apply in_seq. lia.
Qed.

Lemma fmt_0d_2 (n : Z) : 0 <= n < 100 -> length (fmt_0d 2 n) = 2%nat.
Proof.
  intros H. apply (fmt_0d_comprimento 2 100); [vm_compute; reflexivity|].
  exact H.
Qed.

Lemma fmt_0d_3 (n : Z) : 0 <= n < 1000 -> length (fmt_0d 3 n) = 3%nat.
Proof.
  intros H. apply (fmt_0d_comprimento 3 1000); [vm_compute; reflexivity|].
  exact H.
Qed.

End TempoForma.

(** X14 — The hours, minutes, seconds and milliseconds computed by
    [_formatar_tempo_srt] are the instant truncated to the millisecond:
    minutes and seconds lie in 0..59, milliseconds in 0..999, the hours
    are the whole seconds divided by 3600, and the four together denote
    exactly floor(1000 * segundos) milliseconds. *)
Theorem X14_timestamp_fields :
  forall (segundos : Q),
  exists horas minutos segs milisseg,
    TempoSrt.campos_tempo_srt segundos = (horas, minutos, segs, milisseg) /\
    0 <= minutos < 60 /\ 0 <= segs < 60 /\ 0 <= milisseg < 1000 /\
    horas = Qfloor segundos / 3600 /\
    TempoSrt.milissegundos (horas, minutos, segs, milisseg) =
    Qfloor (segundos * 1000).
Proof.
  intros s. pose proof (campos_tempo_srt_total s) as H.
  destruct (TempoSrt.campos_tempo_srt s) as [[[h m] sec] ms].
  exists h, m, sec, ms. destruct H as (H1 & H2 & H3 & H4 & H5).
  split; [reflexivity|]. tauto.
Qed.

(** X15 — For an instant from 0 s up to, but not including, 100 hours,
    [_formatar_tempo_srt] returns twelve characters: two digits, a colon,
    two digits, a colon, two digits, a comma and three digits' worth of
    zero-padded fields. *)
Theorem X15_timestamp_shape :
  forall (segundos : Q),
    (0 <= segundos)%Q -> (segundos < 360000)%Q ->
    exists hh mm ss mmm,
      TempoSrt.formatar_tempo_srt segundos =
      hh ++ lit ":" ++ mm ++ lit ":" ++ ss ++ lit "," ++ mmm /\
      length hh = 2%nat /\ length mm = 2%nat /\ length ss = 2%nat /\
      length mmm = 3%nat /\
      length (TempoSrt.formatar_tempo_srt segundos) = 12%nat.
Proof.
  intros s H0 H1. pose proof (campos_tempo_srt_total s) as H.
  unfold TempoSrt.formatar_tempo_srt.
  destruct (TempoSrt.campos_tempo_srt s) as [[[h m] sec] ms].
  destruct H as (Hm & Hs & Hms & _ & Hh).
  assert (Bh : 0 <= h < 100).
  { subst h. pose proof (Qfloor_le s). pose proof (Qlt_floor s).
    assert (0 <= Qfloor s).
    { assert (X : (-1 < Qfloor s)%Z); [|lia].
      rewrite Zlt_Qlt. rewrite inject_Z_plus in H2.
      change (inject_Z 1) with 1%Q in H2. change (inject_Z (-1)) with (-1)%Q.
      lra. }
    assert (Qfloor s < 360000).
    { rewrite Zlt_Qlt. change (inject_Z 360000) with 360000%Q. lra. }
    split; [apply Z.div_pos; lia|apply Z.div_lt_upper_bound; lia]. }
  exists (TempoSrt.fmt_0d 2 h), (TempoSrt.fmt_0d 2 m),
         (TempoSrt.fmt_0d 2 sec), (TempoSrt.fmt_0d 3 ms).
  split; [reflexivity|].
  rewrite !length_app, (fmt_0d_2 h Bh), (fmt_0d_2 m ltac:(lia)),
    (fmt_0d_2 sec ltac:(lia)), (fmt_0d_3 ms Hms).
  repeat split; reflexivity.
Qed.

Lemma X15_timestamp_shape_witness :
  exists hh mm ss mmm,
    TempoSrt.formatar_tempo_srt (7323 + (1 # 2)) =
    hh ++ lit ":" ++ mm ++ lit ":" ++ ss ++ lit "," ++ mmm /\
    length hh = 2%nat /\ length mm = 2%nat /\ length ss = 2%nat /\
    length mmm = 3%nat /\
    length (TempoSrt.formatar_tempo_srt (7323 + (1 # 2))) = 12%nat.
Proof.
  apply (X15_timestamp_shape (7323 + (1 # 2))).
  - unfold Qle; simpl; lia.
  - unfold Qlt; simpl; lia.
Defined.

(** ** The slide store: lookups and updates *)

Section GestorFacts.

Import Gestor.

Lemma substituir_length {A} (i : nat) (x : A) (l : list A) :
  length (substituir i x l) = length l.
Proof.
  revert i. induction l as [|y r IH]; intros [|j]; cbn; auto.
Qed.

Lemma nth_error_substituir {A} (i j : nat) (x : A) (l : list A) :
  nth_error (substituir i x l) j =
  if (j =? i)%nat
  then match nth_error l i with Some _ => Some x | None => None end
  else nth_error l j.
Proof.
  revert i j. induction l as [|y r IH]; intros i j.
  - destruct i, j; cbn; try reflexivity.
    destruct (j =? i)%nat; reflexivity.
  - destruct i as [|i], j as [|j]; cbn [substituir nth_error Nat.eqb];
      try reflexivity.
    apply IH.
Qed.

Lemma num_slides_alterar (g : Apresentacao) (numero : Z)
    (f : SlideInfo -> SlideInfo) :
  num_slides (alterar_slide g numero f) = num_slides g.
Proof.
  unfold alterar_slide. destruct (obter_slide g numero); [|reflexivity].
  destruct g as [slides|]; [|reflexivity].
  cbn [num_slides]. rewrite substituir_length. reflexivity.
Qed.

Lemma obter_slide_alterar (g : Apresentacao) (numero outro : Z)
    (f : SlideInfo -> SlideInfo) :
  obter_slide (alterar_slide g numero f) outro =
  if outro =? numero then option_map f (obter_slide g numero)
  else obter_slide g outro.
Proof.
  pose proof (num_slides_alterar g numero f) as Hn.
  unfold alterar_slide in *.
  destruct (obter_slide g numero) as [slide|] eqn:E.
  - destruct g as [slides|]; [|discriminate].
    cbn [obter_slide] in *. rewrite Hn.
    destruct ((1 <=? numero) && (numero <=? num_slides (Some slides))) eqn:R;
      [|discriminate].
    apply andb_prop in R as [R1 R2].
    apply Z.leb_le in R1. apply Z.leb_le in R2.
    destruct (outro =? numero) eqn:Eo.
    + apply Z.eqb_eq in Eo. subst outro.
      replace ((1 <=? numero) && (numero <=? num_slides (Some slides)))
        with true by (symmetry; apply andb_true_intro; split;
                      apply Z.leb_le; assumption).
      rewrite nth_error_substituir, Nat.eqb_refl, E. reflexivity.
    + apply Z.eqb_neq in Eo.
      destruct ((1 <=? outro) && (outro <=? num_slides (Some slides))) eqn:Ro;
        [|reflexivity].
      apply andb_prop in Ro as [Ro1 Ro2]. apply Z.leb_le in Ro1.
      rewrite nth_error_substituir.
      replace (Z.to_nat (outro - 1) =? Z.to_nat (numero - 1))%nat with false
        by (symmetry; apply Nat.eqb_neq; lia).
      reflexivity.
  - destruct (outro =? numero) eqn:Eo; [|reflexivity].
    apply Z.eqb_eq in Eo. subst outro. exact E.
Qed.

Lemma alterar_slide_fora (g : Apresentacao) (numero : Z)
    (f : SlideInfo -> SlideInfo) :
  obter_slide g numero = None -> alterar_slide g numero f = g.
Proof.
  intros E. unfold alterar_slide. rewrite E. reflexivity.
Qed.

Lemma obter_slide_none (g : Apresentacao) (numero : Z) :
  obter_slide g numero = None <-> numero < 1 \/ num_slides g < numero.
Proof.
  unfold obter_slide. destruct g as [slides|]; cbn [num_slides].
  - destruct (1 <=? numero) eqn:A; cbn [andb].
    + apply Z.leb_le in A.
      destruct (numero <=? Z.of_nat (length slides)) eqn:B.
      * apply Z.leb_le in B. split; [|lia]. intros E.
        apply nth_error_None in E. lia.
      * apply Z.leb_gt in B. split; [lia|reflexivity].
    + apply Z.leb_gt in A. split; [lia|reflexivity].
  - split; [|reflexivity]. intros _.
    destruct (Z_lt_le_dec numero 1); [left; assumption|right; lia].
Qed.

End GestorFacts.

(** X17 — Updating slide [numero] of [GestorPPTX] and then reading a slide
    back: the updated slide comes back with exactly the assigned field(s)
    replaced ([texto_narrar]; [texto_traduzido]; [caminho_audio] and
    [duracao_audio]; [caminho_audio_traduzido] and
    [duracao_audio_traduzido]), every other slide comes back unchanged,
    and the number of slides stays the same. *)
Theorem X17_gestor_update_then_lookup :
  forall (g : Gestor.Apresentacao) (numero : Z) (s : SlideInfo)
         (texto caminho : str) (duracao : Q),
    Gestor.obter_slide g numero = Some s ->
    let g1 := Gestor.atualizar_texto_narrar g numero texto in
    let g2 := Gestor.atualizar_texto_traduzido g numero texto in
    let g3 := Gestor.definir_audio_slide g numero caminho duracao in
    let g4 := Gestor.definir_audio_traduzido_slide g numero caminho duracao in
    (Gestor.obter_slide g1 numero = Some (Gestor.com_texto_narrar texto s) /\
     Gestor.obter_slide g2 numero = Some (Gestor.com_texto_traduzido texto s) /\
     Gestor.obter_slide g3 numero
       = Some (Gestor.com_audio_original caminho duracao s) /\
     Gestor.obter_slide g4 numero
       = Some (Gestor.com_audio_traduzido caminho duracao s)) /\
    (forall outro, outro <> numero ->
       Gestor.obter_slide g1 outro = Gestor.obter_slide g outro /\
       Gestor.obter_slide g2 outro = Gestor.obter_slide g outro /\
       Gestor.obter_slide g3 outro = Gestor.obter_slide g outro /\
       Gestor.obter_slide g4 outro = Gestor.obter_slide g outro) /\
    (Gestor.num_slides g1 = Gestor.num_slides g /\
     Gestor.num_slides g2 = Gestor.num_slides g /\
     Gestor.num_slides g3 = Gestor.num_slides g /\
     Gestor.num_slides g4 = Gestor.num_slides g).
Proof.
  intros g numero s texto caminho duracao E g1 g2 g3 g4.
  subst g1 g2 g3 g4.
  unfold Gestor.atualizar_texto_narrar, Gestor.atualizar_texto_traduzido,
    Gestor.definir_audio_slide, Gestor.definir_audio_traduzido_slide.
  split; [|split].
  - rewrite !obter_slide_alterar, Z.eqb_refl, E. cbn [option_map]. auto.
  - intros outro Ho. rewrite !obter_slide_alterar.
    replace (outro =? numero) with false
      by (symmetry; apply Z.eqb_neq; exact Ho).
    auto.
  - rewrite !num_slides_alterar. auto.
Qed.

Lemma X17_gestor_update_then_lookup_witness :
  let g := Some slides_exemplo in
  let s := slide_de_texto (lit "   ") in
  let g1 := Gestor.atualizar_texto_narrar g 2 (lit "Ola") in
  let g2 := Gestor.atualizar_texto_traduzido g 2 (lit "Ola") in
  let g3 := Gestor.definir_audio_slide g 2 (lit "a.mp3") (3 # 2) in
  let g4 := Gestor.definir_audio_traduzido_slide g 2 (lit "a.mp3") (3 # 2) in
  (Gestor.obter_slide g1 2 = Some (Gestor.com_texto_narrar (lit "Ola") s) /\
   Gestor.obter_slide g2 2 = Some (Gestor.com_texto_traduzido (lit "Ola") s) /\
   Gestor.obter_slide g3 2
     = Some (Gestor.com_audio_original (lit "a.mp3") (3 # 2) s) /\
   Gestor.obter_slide g4 2
     = Some (Gestor.com_audio_traduzido (lit "a.mp3") (3 # 2) s)) /\
  (forall outro, outro <> 2 ->
     Gestor.obter_slide g1 outro = Gestor.obter_slide g outro /\
     Gestor.obter_slide g2 outro = Gestor.obter_slide g outro /\
     Gestor.obter_slide g3 outro = Gestor.obter_slide g outro /\
     Gestor.obter_slide g4 outro = Gestor.obter_slide g outro) /\
  (Gestor.num_slides g1 = Gestor.num_slides g /\
   Gestor.num_slides g2 = Gestor.num_slides g /\
   Gestor.num_slides g3 = Gestor.num_slides g /\
   Gestor.num_slides g4 = Gestor.num_slides g).
Proof.
  apply (X17_gestor_update_then_lookup (Some slides_exemplo) 2
           (slide_de_texto (lit "   ")) (lit "Ola") (lit "a.mp3") (3 # 2)).
  reflexivity.
Defined.

(** X18 — [obter_slide] returns nothing exactly when the number is below 1
    or above the number of slides (which is 0 while no presentation is
    open); for such a number the four update methods leave the store as
    it was. *)
Theorem X18_gestor_out_of_range :
  forall (g : Gestor.Apresentacao) (numero : Z) (texto caminho : str)
         (duracao : Q),
    (Gestor.obter_slide g numero = None <->
     numero < 1 \/ Gestor.num_slides g < numero) /\
    (Gestor.obter_slide g numero = None ->
     Gestor.atualizar_texto_narrar g numero texto = g /\
     Gestor.atualizar_texto_traduzido g numero texto = g /\
     Gestor.definir_audio_slide g numero caminho duracao = g /\
     Gestor.definir_audio_traduzido_slide g numero caminho duracao = g).
Proof.
  intros g numero texto caminho duracao. split.
  - apply obter_slide_none.
  - intros E.
    unfold Gestor.atualizar_texto_narrar, Gestor.atualizar_texto_traduzido,
      Gestor.definir_audio_slide, Gestor.definir_audio_traduzido_slide.
    rewrite !alterar_slide_fora by exact E. auto.
Qed.

(** ** Where the audio icons go *)

Section IconeFacts.

Import Icone.

Lemma igual_eq (a b : str) : igual a b = true <-> a = b.
Proof.
  revert b. induction a as [|x a IH]; intros [|y b]; cbn [igual];
    try (split; [discriminate|discriminate]); [tauto|].
  split.
  - intros H. apply andb_prop in H as [H1 H2].
    apply Ascii.eqb_eq in H1. apply IH in H2. congruence.
  - intros H. injection H as -> ->.
    rewrite Ascii.eqb_refl. cbn. apply IH. reflexivity.
Qed.

Lemma igual_neq (a b : str) : a <> b -> igual a b = false.
Proof.
  intros H. destruct (igual a b) eqn:E; [|reflexivity].
  apply igual_eq in E. contradiction.
Qed.

End IconeFacts.



(** X20 — A position name that is none of the eight documented ones falls
    back to the top-right corner, and then both icons get the very same
    spot, also when a second icon is included. *)
Theorem X20_icon_unknown_position :
  forall (largura altura tamanho : Z) (posicao : str)
         (incluir_segundo tem_legenda : bool),
    ~ In posicao Icone.posicoes ->
    Icone.calcular_posicao_icone largura altura tamanho posicao
                                 incluir_segundo tem_legenda
    = ((largura - tamanho - Icone.margem, Icone.margem),
       (largura - tamanho - Icone.margem, Icone.margem)).
Proof.
  intros largura altura tamanho posicao incluir_segundo tem_legenda H.
  unfold Icone.posicoes in H. cbn [In] in H.
  unfold Icone.calcular_posicao_icone.
  rewrite !igual_neq by (intros E; apply H; rewrite E; tauto).
  reflexivity.
Qed.

Lemma X20_icon_unknown_position_witness :
  Icone.calcular_posicao_icone 9144000 6858000 360000 (lit "meio") true false
  = ((9144000 - 360000 - Icone.margem, Icone.margem),
     (9144000 - 360000 - Icone.margem, Icone.margem)).
Proof.
  apply (X20_icon_unknown_position 9144000 6858000 360000 (lit "meio")
           true false).
  cbn [Icone.posicoes In]. intros H.
  repeat (destruct H as [H | H]; [discriminate H|]). exact H.
Defined.

(** ** Fitting a slide image into the frame *)

Section ImagemFacts.

Local Open Scope Q_scope.

Import Imagem.

Lemma py_int_entre (x : Q) (b : Z) :
  0 <= x -> x <= inject_Z b -> (0 <= py_int x <= b)%Z.
Proof.
  intros H0 Hb. rewrite py_int_floor by exact H0. split.
  - change 0%Z with (Qfloor 0). apply Qfloor_resp_le. exact H0.
  - rewrite <- (Qfloor_Z b). apply Qfloor_resp_le. exact Hb.
Qed.

Lemma Qdiv_pos (a b : Q) : 0 < a -> 0 < b -> 0 < a / b.
Proof.
  intros Ha Hb. apply Qlt_shift_div_l; [exact Hb|]. lra.
Qed.

Lemma Qdiv_vezes (a b : Q) : 0 < b -> a / b * b == a.
Proof.
  intros Hb. field. intros E. rewrite E in Hb. apply (Qlt_irrefl 0 Hb).
Qed.

Lemma redimensionar_forma (largura altura img_w img_h : Z) :
  (0 < largura)%Z -> (0 < altura)%Z -> (0 < img_w)%Z -> (0 < img_h)%Z ->
  exists c,
    redimensionar largura altura img_w img_h = Some c /\
    ((novo_w c = largura /\ (0 <= novo_h c <= altura)%Z) \/
     (novo_h c = altura /\ (0 <= novo_w c <= largura)%Z)) /\
    pos_x c = ((largura - novo_w c) / 2)%Z /\
    pos_y c = ((altura - novo_h c) / 2)%Z.
Proof.
  intros HW HH Hw Hh. unfold redimensionar.
  replace (img_h =? 0)%Z with false by (symmetry; apply Z.eqb_neq; lia).
  replace (altura =? 0)%Z with false by (symmetry; apply Z.eqb_neq; lia).
  cbn [orb].
  assert (QW : 0 < inject_Z largura) by (apply inject_Z_pos; exact HW).
  assert (QH : 0 < inject_Z altura) by (apply inject_Z_pos; exact HH).
  assert (Qw : 0 < inject_Z img_w) by (apply inject_Z_pos; exact Hw).
  assert (Qh : 0 < inject_Z img_h) by (apply inject_Z_pos; exact Hh).
  set (r := inject_Z img_w / inject_Z img_h).
  assert (Hr : 0 < r) by (apply Qdiv_pos; assumption).
  pose proof (Qdiv_vezes (inject_Z largura) (inject_Z altura) QH) as EV.
  destruct (Qltb (inject_Z largura / inject_Z altura) r) eqn:C.
  - apply Qltb_lt in C.
    replace (Qeq_bool r 0) with false.
    2:{ symmetry. destruct (Qeq_bool r 0) eqn:E; [|reflexivity].
        apply Qeq_bool_iff in E. rewrite E in Hr.
        destruct (Qlt_irrefl 0 Hr). }
    eexists. split; [reflexivity|]. cbn [novo_w novo_h pos_x pos_y].
    split; [|split; reflexivity]. left. split; [reflexivity|].
    apply py_int_entre.
    + apply Qlt_le_weak, Qdiv_pos; assumption.
    + apply Qle_shift_div_r; [exact Hr|].
      assert (M : inject_Z largura / inject_Z altura * inject_Z altura
                  < r * inject_Z altura)
        by (apply Qmult_lt_r; assumption).
      rewrite EV in M. rewrite (Qmult_comm (inject_Z altura) r).
      apply Qlt_le_weak. exact M.
  - apply Qltb_ge in C.
    eexists. split; [reflexivity|]. cbn [novo_w novo_h pos_x pos_y].
    split; [|split; reflexivity]. right. split; [reflexivity|].
    apply py_int_entre.
    + apply Qmult_le_0_compat; apply Qlt_le_weak; assumption.
    + assert (M : r * inject_Z altura
                  <= inject_Z largura / inject_Z altura * inject_Z altura)
        by (apply Qmult_le_compat_r; [exact C|apply Qlt_le_weak; exact QH]).
      rewrite EV in M. rewrite (Qmult_comm (inject_Z altura) r). exact M.
Qed.

End ImagemFacts.

(** X21 — For a frame and an image with positive sides,
    [_redimensionar_imagem] never divides by zero; the resized image
    spans the full width or the full height of the frame and does not
    exceed the frame in the other direction, and it is pasted centred, to
    within one pixel, so that it lies entirely inside the frame. *)
Theorem X21_resized_image_fits_frame :
  forall (largura altura img_w img_h : Z),
    0 < largura -> 0 < altura -> 0 < img_w -> 0 < img_h ->
    exists c,
      Imagem.redimensionar largura altura img_w img_h = Some c /\
      (Imagem.novo_w c = largura \/ Imagem.novo_h c = altura) /\
      0 <= Imagem.novo_w c <= largura /\
      0 <= Imagem.novo_h c <= altura /\
      0 <= Imagem.pos_x c /\
      Imagem.pos_x c + Imagem.novo_w c <= largura /\
      0 <= Imagem.pos_y c /\
      Imagem.pos_y c + Imagem.novo_h c <= altura /\
      0 <= (largura - Imagem.novo_w c) - 2 * Imagem.pos_x c <= 1 /\
      0 <= (altura - Imagem.novo_h c) - 2 * Imagem.pos_y c <= 1.
Proof.
  intros largura altura img_w img_h HW HH Hw Hh.
  destruct (redimensionar_forma largura altura img_w img_h HW HH Hw Hh)
    as (c & E & D & Px & Py).
  exists c. split; [exact E|]. rewrite Px, Py.
  destruct D as [[D1 D2] | [D1 D2]]; rewrite D1 in *;
    repeat split; auto; try lia;
    Z.to_euclidean_division_equations; lia.
Qed.

Lemma X21_resized_image_fits_frame_witness :
  exists c,
    Imagem.redimensionar 1920 1080 1024 768 = Some c /\
    (Imagem.novo_w c = 1920 \/ Imagem.novo_h c = 1080) /\
    0 <= Imagem.novo_w c <= 1920 /\
    0 <= Imagem.novo_h c <= 1080 /\
    0 <= Imagem.pos_x c /\
    Imagem.pos_x c + Imagem.novo_w c <= 1920 /\
    0 <= Imagem.pos_y c /\
    Imagem.pos_y c + Imagem.novo_h c <= 1080 /\
    0 <= (1920 - Imagem.novo_w c) - 2 * Imagem.pos_x c <= 1 /\
    0 <= (1080 - Imagem.novo_h c) - 2 * Imagem.pos_y c <= 1.
Proof.
  apply (X21_resized_image_fits_frame 1920 1080 1024 768); lia.
Defined.

(** ** The caption band *)

Section LegendaFacts.

Import Legenda.

Lemma startswith_length (s p : str) :
  startswith s p = true -> (length p <= length s)%nat.
Proof.
  revert s. induction p as [|c p IH]; intros s H; [cbn; lia|].
  destruct s as [|d s]; [discriminate|]. cbn [startswith] in H.
  apply andb_prop in H as [_ H]. apply IH in H. cbn [length]. lia.
Qed.

Lemma endswith_reticencias (a : str) :
  endswith (a ++ lit "...") (lit "...") = true.
Proof.
  unfold endswith. rewrite rev_app_distr.
  change (rev (lit "...")) with ["."%char; "."%char; "."%char].
  reflexivity.
Qed.

Lemma endswith_len (s p : str) : endswith s p = true -> len p <= len s.
Proof.
  unfold endswith, len. intros H. apply startswith_length in H.
  rewrite !length_rev in H. lia.
Qed.

Lemma len_reticencias (u : str) :
  3 < len u -> len (slice_to (-3) u ++ lit "...") = len u.
Proof.
  unfold len, slice_to. intros H. change (0 <=? -3) with false. cbv iota.
  rewrite length_app, length_firstn.
  change (Z.to_nat (- -3)) with 3%nat.
  change (length (lit "...")) with 3%nat. lia.
Qed.

(** What [limitar_linhas] returns when at least one line is allowed. *)
Lemma limitar_linhas_forma (max_linhas : Z) (linhas : list str) :
  1 <= max_linhas ->
  exists r,
    limitar_linhas max_linhas linhas = Some r /\
    length r = Nat.min (length linhas) (Z.to_nat max_linhas) /\
    firstn (length r - 1) r = firstn (length r - 1) linhas /\
    (Z.of_nat (length linhas) <= max_linhas -> r = linhas) /\
    (max_linhas < Z.of_nat (length linhas) ->
     let u := nth (Z.to_nat max_linhas - 1) linhas [] in
     (u = [] /\ last r [] = []) \/
     (u <> [] /\ endswith (last r []) (lit "...") = true /\
      len (last r []) = Z.max 3 (len u))).
Proof.
  intros Hm. unfold limitar_linhas.
  destruct (max_linhas <? Z.of_nat (length linhas)) eqn:C.
  - apply Z.ltb_lt in C. unfold fatia_ate.
    replace (0 <=? max_linhas) with true by (symmetry; apply Z.leb_le; lia).
    set (k := Z.to_nat max_linhas).
    assert (Hk : (1 <= k < length linhas)%nat) by (unfold k; lia).
    assert (Lk : length (firstn k linhas) = k)
      by (rewrite length_firstn; lia).
    destruct (rev (firstn k linhas)) as [|ultima antes] eqn:Er.
    { apply (f_equal (@length str)) in Er. rewrite length_rev, Lk in Er.
      cbn in Er. lia. }
    assert (Ef : firstn k linhas = rev antes ++ [ultima]).
    { rewrite <- (rev_involutive (firstn k linhas)), Er. reflexivity. }
    assert (La : length (rev antes) = (k - 1)%nat).
    { apply (f_equal (@length str)) in Ef.
      rewrite Lk, length_app in Ef. cbn [length] in Ef. lia. }
    assert (El : linhas = (rev antes ++ [ultima]) ++ skipn k linhas)
      by (rewrite <- Ef; symmetry; apply firstn_skipn).
    assert (Eu : nth (k - 1) linhas [] = ultima).
    { rewrite El, <- app_assoc, <- La. cbn [app]. rewrite nth_middle.
      reflexivity. }
    assert (Pre : forall x, firstn (length (rev antes ++ [x]) - 1)
                              (rev antes ++ [x])
                            = firstn (length (rev antes ++ [x]) - 1) linhas).
    { intros x. rewrite length_app. cbn [length].
      replace (length (rev antes) + 1 - 1)%nat with (length (rev antes))
        by lia.
      rewrite El, <- app_assoc, !firstn_app, Nat.sub_diag, firstn_all.
      reflexivity. }
    assert (Len : forall x, length (rev antes ++ [x])
                            = Nat.min (length linhas) k).
    { intros x. rewrite length_app, La. cbn [length]. lia. }
    destruct ultima as [|c ultima'] eqn:Eult; cbn [truthy andb].
    + (* the last line kept is empty *)
      exists (firstn k linhas). split; [reflexivity|].
      rewrite Ef. split; [apply Len|]. split; [apply Pre|].
      split; [lia|]. intros _. cbv zeta. fold k. rewrite Eu. left.
      split; [reflexivity|]. apply last_last.
    + rewrite <- Eult in *. 
      assert (Nu : ultima <> []) by (rewrite Eult; discriminate).
      destruct (endswith ultima (lit "...")) eqn:Ee; cbn [negb].
      * exists (firstn k linhas). split; [reflexivity|].
        rewrite Ef. split; [apply Len|]. split; [apply Pre|].
        split; [lia|]. intros _. cbv zeta. fold k. rewrite Eu. right.
        split; [exact Nu|]. rewrite last_last. split; [exact Ee|].
        apply endswith_len in Ee. change (len (lit "...")) with 3 in Ee.
        lia.
      * eexists. split; [reflexivity|].
        split; [apply Len|]. split; [apply Pre|].
        split; [lia|]. intros _. cbv zeta. fold k. rewrite Eu. right.
        split; [exact Nu|]. rewrite last_last.
        destruct (3 <? len ultima) eqn:E3.
        -- apply Z.ltb_lt in E3. split; [apply endswith_reticencias|].
           rewrite len_reticencias by exact E3. lia.
        -- apply Z.ltb_ge in E3. split; [reflexivity|].
           change (len (lit "...")) with 3. lia.
  - apply Z.ltb_ge in C. exists linhas. split; [reflexivity|].
    split; [lia|]. split; [reflexivity|]. split; [reflexivity|]. lia.
Qed.

Lemma tamanho_fonte_min (altura_orig : Z) : 20 <= tamanho_fonte altura_orig.
Proof.
  unfold tamanho_fonte. lia.
Qed.

(** Every line of a block of at most [max_linhas] lines lies inside the
    band, ten rows or more from its upper and lower edge. *)
Lemma y_linha_na_faixa (modo : bool) (max_linhas altura_orig n i : Z) :
  0 <= n <= max_linhas -> 0 <= i < n ->
  let f := faixa modo max_linhas altura_orig in
  y_barra f + altura_barra f = altura f /\
  y_barra f + 10 <= y_linha f n i /\
  y_linha f n i + altura_linha f <= altura f - 10.
Proof.
  intros Hn Hi f. pose proof (tamanho_fonte_min altura_orig) as Ht.
  set (h := tamanho_fonte altura_orig + 8) in *.
  assert (A : altura_linha f = h) by (subst f; destruct modo; reflexivity).
  assert (B : altura_barra f = max_linhas * h + 20)
    by (subst f; destruct modo; reflexivity).
  assert (T : y_barra f + altura_barra f = altura f).
  { subst f. unfold faixa. destruct modo;
      cbn [y_barra altura_barra altura]; lia. }
  split; [exact T|]. unfold y_linha. rewrite <- T, A, B.
  assert (P1 : 0 <= (max_linhas - n) * h) by nia.
  assert (P2 : 0 <= i * h) by nia.
  assert (P3 : 0 <= (n - 1 - i) * h) by nia.
  split; Z.to_euclidean_division_equations; nia.
Qed.

End LegendaFacts.

(** X22 — Lines 593-596 of [_adicionar_legenda_imagem], with at least one
    line allowed: the lines kept are the first [max_linhas] lines (all of
    them when there are no more than that), unchanged but for the last;
    when lines were dropped, the last line kept ends with an ellipsis
    unless it is empty, and it has the length it had before, or three
    characters when it had fewer.  The step never fails. *)
Theorem X22_caption_lines_truncated :
  forall (max_linhas : Z) (linhas : list str),
    1 <= max_linhas ->
    exists r,
      Legenda.limitar_linhas max_linhas linhas = Some r /\
      length r = Nat.min (length linhas) (Z.to_nat max_linhas) /\
      firstn (length r - 1) r = firstn (length r - 1) linhas /\
      (Z.of_nat (length linhas) <= max_linhas -> r = linhas) /\
      (max_linhas < Z.of_nat (length linhas) ->
       let u := nth (Z.to_nat max_linhas - 1) linhas [] in
       (u = [] /\ last r [] = []) \/
       (u <> [] /\ Legenda.endswith (last r []) (lit "...") = true /\
        len (last r []) = Z.max 3 (len u))).
Proof.
  intros max_linhas linhas Hm. apply limitar_linhas_forma. exact Hm.
Qed.

Lemma X22_caption_lines_truncated_witness :
  exists r,
    Legenda.limitar_linhas 2 [lit "one two"; lit "three four"; lit "five"]
    = Some r /\
    length r = Nat.min 3 (Z.to_nat 2) /\
    firstn (length r - 1) r
    = firstn (length r - 1) [lit "one two"; lit "three four"; lit "five"] /\
    (Z.of_nat 3 <= 2 ->
     r = [lit "one two"; lit "three four"; lit "five"]) /\
    (2 < Z.of_nat 3 ->
     let u := nth (Z.to_nat 2 - 1)
                  [lit "one two"; lit "three four"; lit "five"] [] in
     (u = [] /\ last r [] = []) \/
     (u <> [] /\ Legenda.endswith (last r []) (lit "...") = true /\
      len (last r []) = Z.max 3 (len u))).
Proof.
  apply (X22_caption_lines_truncated 2
           [lit "one two"; lit "three four"; lit "five"]).
  lia.
Defined.

(** X23 — With at least one caption line allowed,
    [_adicionar_legenda_imagem] draws at most [legendas_linhas] lines,
    none of them empty, and every line it draws lies inside the caption
    band: its row is ten pixels or more below the upper edge of the band
    and the line ends ten pixels or more above the lower edge of the
    image, which is also the lower edge of the band.  This holds in both
    caption modes, for every font measure, image size and text. *)
Theorem X23_caption_lines_inside_band :
  forall (fonte : Medida.Fonte) (modo_sobrepor : bool)
         (max_linhas largura_orig altura_orig : Z) (texto : str),
    1 <= max_linhas ->
    let f := Legenda.faixa modo_sobrepor max_linhas altura_orig in
    exists desenhadas,
      Legenda.linhas_desenhadas fonte modo_sobrepor max_linhas largura_orig
                                altura_orig texto = Some desenhadas /\
      Z.of_nat (length desenhadas) <= max_linhas /\
      Legenda.y_barra f + Legenda.altura_barra f = Legenda.altura f /\
      Forall (fun '(y, linha) =>
                linha <> [] /\
                Legenda.y_barra f + 10 <= y /\
                y + Legenda.altura_linha f <= Legenda.altura f - 10)
             desenhadas.
Proof.
  intros fonte modo max_linhas largura_orig altura_orig texto Hm f.
  unfold Legenda.linhas_desenhadas.
  set (linhas := Medida.quebrar_texto_largura fonte _ _).
  destruct (limitar_linhas_forma max_linhas linhas Hm)
    as (r & E & L & _). rewrite E. fold f.
  eexists. split; [reflexivity|].
  assert (Lr : Z.of_nat (length r) <= max_linhas) by lia.
  split; [|split].
  - rewrite length_map.
    pose proof (filter_length_le (fun '(_, linha) => truthy linha)
                  (enumerate r)) as F.
    rewrite enumerate_length in F. lia.
  - destruct (y_linha_na_faixa modo max_linhas altura_orig 1 0) as (T & _);
      [lia|lia|exact T].
  - apply Forall_forall. intros [y linha] Hin.
    apply in_map_iff in Hin as ([i l] & Eq & Hin).
    injection Eq as <- <-.
    apply filter_In in Hin as [Hin Ht].
    unfold enumerate in Hin.
    pose proof (in_combine_l _ _ _ _ Hin) as Hi. apply in_seq in Hi.
    split; [destruct l; [discriminate|discriminate]|].
    destruct (y_linha_na_faixa modo max_linhas altura_orig
                (Z.of_nat (length r)) (Z.of_nat i)) as (_ & A & B);
      [lia|lia|]. 
    fold f in A, B. split; assumption.
Qed.

Lemma X23_caption_lines_inside_band_witness :
  let fonte := {| Medida.textbbox := fun s => (0, 0, 10 * len s, 12) |} in
  let f := Legenda.faixa true 3 1080 in
  exists desenhadas,
    Legenda.linhas_desenhadas fonte true 3 1920 1080 texto_11_palavras
    = Some desenhadas /\
    Z.of_nat (length desenhadas) <= 3 /\
    Legenda.y_barra f + Legenda.altura_barra f = Legenda.altura f /\
    Forall (fun '(y, linha) =>
              linha <> [] /\
              Legenda.y_barra f + 10 <= y /\
              y + Legenda.altura_linha f <= Legenda.altura f - 10)
           desenhadas.
Proof.
  apply (X23_caption_lines_inside_band
           {| Medida.textbbox := fun s => (0, 0, 10 * len s, 12) |}
           true 3 1920 1080 texto_11_palavras).
  lia.
Defined.

(** ** The lines a karaoke frame shows *)

Section QuadroFacts.

Import Quadro.

Lemma conta_app (a b : list (list str)) :
  conta_palavras (a ++ b) = conta_palavras a + conta_palavras b.
Proof.
  unfold conta_palavras. rewrite map_app, list_sum_app. lia.
Qed.

Lemma conta_concat (l : list (list str)) :
  conta_palavras l = Z.of_nat (length (concat l)).
Proof.
  unfold conta_palavras. rewrite length_concat. reflexivity.
Qed.

Lemma conta_nonneg (l : list (list str)) : 0 <= conta_palavras l.
Proof.
  unfold conta_palavras. lia.
Qed.

Lemma conta_firstn_mono (a b : nat) (l : list (list str)) :
  (a <= b)%nat ->
  conta_palavras (firstn a l) <= conta_palavras (firstn b l).
Proof.
  intros H. replace b with (a + (b - a))%nat by lia.
  rewrite firstn_add, conta_app.
  pose proof (conta_nonneg (firstn (b - a) (skipn a l))). lia.
Qed.

Lemma in_enumerate {A} (l : list A) (a k : nat) (x : A) :
  In (k, x) (combine (seq a (length l)) l) <->
  (a <= k)%nat /\ nth_error l (k - a) = Some x.
Proof.
  revert a. induction l as [|y r IH]; intros a.
  - cbn. split; [contradiction|]. intros [_ H].
    destruct (k - a)%nat; discriminate.
  - cbn [length seq combine In]. rewrite IH. split.
    + intros [E | [H1 H2]].
      * injection E as <- <-. rewrite Nat.sub_diag. split; [lia|reflexivity].
      * split; [lia|]. replace (k - a)%nat with (S (k - S a)) by lia.
        exact H2.
    + intros [H1 H2]. destruct (Nat.eq_dec a k) as [<-|Ne].
      * left. rewrite Nat.sub_diag in H2. cbn in H2. congruence.
      * right. split; [lia|].
        replace (k - a)%nat with (S (k - S a)) in H2 by lia. exact H2.
Qed.

(** A window made of consecutive lines, numbered from the words before
    it: every word is drawn under its own index, and the word
    [idx_inicio] is drawn highlighted when it lies in the window. *)
Lemma desenhadas_bloco (antes meio depois : list (list str))
    (idx_inicio idx_fim : Z) :
  let j := {| linhas_visiveis := meio;
              idx_offset := conta_palavras antes |} in
  Forall (fun '(g, p, _) =>
            0 <= g /\
            nth_error (concat (antes ++ meio ++ depois)) (Z.to_nat g)
            = Some p)
         (palavras_desenhadas j idx_inicio idx_fim) /\
  (conta_palavras antes <= idx_inicio
                        < conta_palavras antes + conta_palavras meio ->
   idx_inicio <= idx_fim ->
   exists p, In (idx_inicio, p, true)
                (palavras_desenhadas j idx_inicio idx_fim)).
Proof.
  intros j. unfold palavras_desenhadas. subst j.
  cbn [linhas_visiveis idx_offset]. split.
  - apply Forall_forall. intros [[g p] b] Hin.
    apply in_map_iff in Hin as ([k w] & E & Hin). injection E as <- <- _.
    apply in_enumerate in Hin as [_ Hn]. rewrite Nat.sub_0_r in Hn.
    pose proof (conta_nonneg antes) as Ha. split; [lia|].
    rewrite !concat_app, conta_concat.
    replace (Z.to_nat (Z.of_nat (length (concat antes)) + Z.of_nat k))
      with (length (concat antes) + k)%nat by lia.
    rewrite nth_error_app2 by lia.
    replace (length (concat antes) + k - length (concat antes))%nat with k
      by lia.
    rewrite nth_error_app1; [exact Hn|].
    apply nth_error_Some. congruence.
  - intros [H1 H2] H3. rewrite (conta_concat meio) in H2.
    set (k := Z.to_nat (idx_inicio - conta_palavras antes)).
    destruct (nth_error (concat meio) k) as [p|] eqn:E.
    + exists p. apply in_map_iff. exists (k, p). split.
      * replace (conta_palavras antes + Z.of_nat k) with idx_inicio
          by (unfold k; lia).
        rewrite Z.leb_refl. cbn [andb].
        replace (idx_inicio <=? idx_fim) with true
          by (symmetry; apply Z.leb_le; exact H3).
        reflexivity.
      * apply in_enumerate. rewrite Nat.sub_0_r. split; [lia|exact E].
    + apply nth_error_None in E. unfold k in E. lia.
Qed.

Lemma procurar_linha_acha (linhas : list (list str)) :
  forall (i contador idx : Z),
    contador <= idx < contador + conta_palavras linhas ->
    exists m : nat,
      procurar_linha linhas i contador idx = i + Z.of_nat m /\
      (m < length linhas)%nat /\
      contador + conta_palavras (firstn m linhas) <= idx
        < contador + conta_palavras (firstn (S m) linhas).
Proof.
  induction linhas as [|linha resto IH]; intros i contador idx H.
  - cbn in H. lia.
  - cbn [procurar_linha].
    change (linha :: resto) with ([linha] ++ resto) in H.
    rewrite conta_app in H.
    assert (E1 : conta_palavras [linha] = Z.of_nat (length linha))
      by (unfold conta_palavras; cbn; f_equal; lia).
    destruct (idx <? contador + Z.of_nat (length linha)) eqn:C.
    + apply Z.ltb_lt in C. exists 0%nat. split; [lia|].
      split; [cbn; lia|]. cbn [firstn]. 
      change (conta_palavras []) with 0. rewrite E1. lia.
    + apply Z.ltb_ge in C.
      destruct (IH (i + 1) (contador + Z.of_nat (length linha)) idx)
        as (m & Em & Lm & Hm); [lia|].
      exists (S m). split; [lia|]. split; [cbn; lia|].
      change (firstn (S m) (linha :: resto))
        with ([linha] ++ firstn m resto).
      change (firstn (S (S m)) (linha :: resto))
        with ([linha] ++ firstn (S m) resto).
      rewrite !conta_app, E1. lia.
Qed.

Lemma fatia_entre_dentro {A} (a b : nat) (l : list A) :
  (a <= b <= length l)%nat ->
  fatia_entre (Z.of_nat a) (Z.of_nat b) l = firstn (b - a) (skipn a l).
Proof.
  intros H. unfold fatia_entre, indice_fatia.
  replace (Z.of_nat a <? 0) with false by (symmetry; apply Z.ltb_ge; lia).
  replace (Z.of_nat b <? 0) with false by (symmetry; apply Z.ltb_ge; lia).
  f_equal; [|f_equal]; lia.
Qed.

(** The window of mode "scroll". *)
Lemma janela_scroll_forma (max_linhas idx_inicio : Z)
    (linhas : list (list str)) :
  1 <= max_linhas ->
  0 <= idx_inicio < conta_palavras linhas ->
  exists a c : nat,
    janela_scroll max_linhas idx_inicio linhas
    = Some {| linhas_visiveis := firstn c (skipn a linhas);
              idx_offset := conta_palavras (firstn a linhas) |} /\
    (a + c <= length linhas)%nat /\
    Z.of_nat c = Z.min max_linhas (Z.of_nat (length linhas)) /\
    conta_palavras (firstn a linhas) <= idx_inicio
      < conta_palavras (firstn (a + c) linhas).
Proof.
  intros Hm Hi.
  destruct (procurar_linha_acha linhas 0 0 idx_inicio Hi)
    as (m & Em & Lm & Hw).
  unfold janela_scroll. rewrite Em.
  set (n := Z.of_nat (length linhas)).
  set (a0 := Z.max 0 (0 + Z.of_nat m - max_linhas / 2)).
  set (fim := Z.min n (a0 + max_linhas)).
  set (ini := if fim =? n then Z.max 0 (fim - max_linhas) else a0).
  assert (B : 0 <= ini <= Z.of_nat m /\ Z.of_nat m < fim <= n /\
              fim - ini = Z.min max_linhas n).
  { subst ini fim a0. destruct (Z.min n _ =? n) eqn:C.
    - apply Z.eqb_eq in C. unfold n in *.
      Z.to_euclidean_division_equations. lia.
    - apply Z.eqb_neq in C. unfold n in *.
      Z.to_euclidean_division_equations. lia. }
  destruct B as (B1 & B2 & B3).
  replace (ini <=? n) with true by (symmetry; apply Z.leb_le; lia).
  exists (Z.to_nat ini), (Z.to_nat (fim - ini)).
  split; [|split; [|split; [|split]]].
  - f_equal. f_equal.
    rewrite <- (Z2Nat.id ini) at 1 by lia.
    rewrite <- (Z2Nat.id fim) by lia.
    rewrite fatia_entre_dentro by (unfold n in *; lia).
    f_equal. lia.
  - unfold n in *. lia.
  - lia.
  - pose proof (conta_firstn_mono (Z.to_nat ini) m linhas ltac:(lia)). lia.
  - pose proof (conta_firstn_mono (S m)
                  (Z.to_nat ini + Z.to_nat (fim - ini)) linhas ltac:(lia)).
    lia.
Qed.

Lemma firstn_seq_menor (a m n : nat) :
  (m <= n)%nat -> firstn m (seq a n) = seq a m.
Proof.
  intros H. replace n with (m + (n - m))%nat by lia.
  rewrite seq_app, firstn_app, length_seq, Nat.sub_diag.
  cbn [firstn]. rewrite app_nil_r.
  rewrite <- (length_seq m a) at 1. apply firstn_all.
Qed.

Lemma procurar_pagina_acha (paginas : list (list (list str))) :
  forall (contador idx : Z),
    contador <= idx < contador + conta_palavras (concat paginas) ->
    exists (m : nat) (pagina : list (list str)),
      nth_error paginas m = Some pagina /\
      procurar_pagina paginas contador idx
      = Some {| linhas_visiveis := pagina;
                idx_offset :=
                  contador + conta_palavras (concat (firstn m paginas)) |} /\
      contador + conta_palavras (concat (firstn m paginas)) <= idx
        < contador + conta_palavras (concat (firstn m paginas))
          + conta_palavras pagina.
Proof.
  induction paginas as [|pagina resto IH]; intros contador idx H.
  - cbn in H. lia.
  - cbn [procurar_pagina concat] in *. rewrite conta_app in H.
    destruct (idx <? contador + conta_palavras pagina) eqn:C.
    + apply Z.ltb_lt in C. exists 0%nat, pagina. split; [reflexivity|].
      cbn [firstn concat]. change (conta_palavras []) with 0.
      rewrite Z.add_0_r. split; [reflexivity|]. lia.
    + apply Z.ltb_ge in C.
      destruct (IH (contador + conta_palavras pagina) idx)
        as (m & pg & En & Ep & Hw); [lia|].
      exists (S m), pg. split; [exact En|].
      cbn [firstn concat]. rewrite conta_app, Z.add_assoc.
      split; [exact Ep|]. lia.
Qed.

(** The window of the paged mode: the page, of [max_linhas] lines, that
    holds the word [idx_inicio]. *)
Lemma janela_pagina_forma (max_linhas idx_inicio : Z)
    (linhas : list (list str)) :
  1 <= max_linhas ->
  0 <= idx_inicio < conta_palavras linhas ->
  let k := Z.to_nat max_linhas in
  exists q : nat,
    janela_pagina max_linhas idx_inicio linhas
    = Some {| linhas_visiveis := firstn k (skipn (q * k) linhas);
              idx_offset := conta_palavras (firstn (q * k) linhas) |} /\
    (1 <= length (firstn k (skipn (q * k) linhas)))%nat /\
    conta_palavras (firstn (q * k) linhas) <= idx_inicio
      < conta_palavras (firstn (q * k) linhas)
        + conta_palavras (firstn k (skipn (q * k) linhas)).
Proof.
  intros Hm Hi k. unfold janela_pagina.
  replace (max_linhas =? 0) with false by (symmetry; apply Z.eqb_neq; lia).
  replace (max_linhas <? 0) with false by (symmetry; apply Z.ltb_ge; lia).
  fold k.
  assert (Hk : (1 <= k)%nat) by (unfold k; lia).
  set (paginas := map (fun i => Karaoke.fatia linhas i k)
                      (Karaoke.range_passo (length linhas) k)).
  pose proof (fatias_todas linhas k Hk) as Ec. fold paginas in Ec.
  destruct (procurar_pagina_acha paginas 0 idx_inicio)
    as (m & pagina & En & Ep & Hw); [rewrite Ec; lia|].
  rewrite Ep. rewrite Z.add_0_l in *.
  assert (Lm : (m < (length linhas + k - 1) / k)%nat).
  { assert (L : (m < length paginas)%nat)
      by (apply nth_error_Some; congruence).
    unfold paginas, Karaoke.range_passo in L.
    rewrite !length_map, length_seq in L. exact L. }
  assert (Ea : concat (firstn m paginas) = firstn (m * k) linhas).
  { unfold paginas, Karaoke.range_passo.
    rewrite !firstn_map, firstn_seq_menor by lia.
    rewrite fatias_concat. reflexivity. }
  assert (Eg : pagina = firstn k (skipn (m * k) linhas)).
  { unfold paginas, Karaoke.range_passo in En.
    rewrite !nth_error_map in En.
    rewrite nth_error_seq in En.
    replace (m <? (length linhas + k - 1) / k)%nat with true in En
      by (symmetry; apply Nat.ltb_lt; exact Lm).
    cbn in En. injection En as <-. reflexivity. }
  rewrite Ea in *. rewrite Eg in *.
  exists m. split; [reflexivity|]. split; [|exact Hw].
  pose proof (fatias_nao_vazias linhas k Hk) as Fv. fold paginas in Fv.
  assert (In (firstn k (skipn (m * k) linhas)) paginas) as Hin.
  { unfold paginas. apply in_map_iff. exists (m * k)%nat.
    split; [reflexivity|]. unfold Karaoke.range_passo.
    apply in_map_iff. exists m. split; [reflexivity|].
    apply in_seq. lia. }
  pose proof (proj1 (Forall_forall _ _) Fv _ Hin) as [Nv _].
  destruct (firstn k (skipn (m * k) linhas)); [contradiction|cbn; lia].
Qed.

Lemma janela_mostra_palavra
    (modo_scroll : bool) (max_linhas idx_inicio idx_fim : Z)
    (linhas_palavras : list (list str)) :
  1 <= max_linhas ->
  0 <= idx_inicio < Quadro.conta_palavras linhas_palavras ->
  idx_inicio <= idx_fim ->
  exists j,
    Quadro.janela modo_scroll max_linhas idx_inicio linhas_palavras
    = Some j /\
    1 <= Z.of_nat (length (Quadro.linhas_visiveis j)) <= max_linhas /\
    Forall (fun '(g, palavra, _) =>
              0 <= g /\
              nth_error (concat linhas_palavras) (Z.to_nat g)
              = Some palavra)
           (Quadro.palavras_desenhadas j idx_inicio idx_fim) /\
    exists palavra,
      In (idx_inicio, palavra, true)
         (Quadro.palavras_desenhadas j idx_inicio idx_fim).
Proof.
  revert modo_scroll max_linhas idx_inicio idx_fim linhas_palavras.
  intros modo max_linhas idx_inicio idx_fim linhas Hm Hi Hf.
  assert (Hn : (1 <= length linhas)%nat).
  { destruct linhas; [cbn in Hi; lia|cbn; lia]. }
  assert (Bloco : forall a c : nat,
             linhas = firstn a linhas ++ firstn c (skipn a linhas)
                      ++ skipn c (skipn a linhas)).
  { intros a c. rewrite (firstn_skipn c), (firstn_skipn a). reflexivity. }
  unfold Quadro.janela. destruct modo.
  - destruct (janela_scroll_forma max_linhas idx_inicio linhas Hm Hi)
      as (a & c & E & L & Lc & Hw).
    rewrite E. eexists. split; [reflexivity|].
    cbn [Quadro.linhas_visiveis].
    split; [rewrite length_firstn, length_skipn; lia|].
    destruct (desenhadas_bloco (firstn a linhas)
                (firstn c (skipn a linhas))
                (skipn c (skipn a linhas)) idx_inicio idx_fim) as [F G].
    rewrite <- Bloco in F. split; [exact F|]. apply G; [|exact Hf].
    rewrite <- conta_app, <- firstn_add. exact Hw.
  - destruct (janela_pagina_forma max_linhas idx_inicio linhas Hm Hi)
      as (q & E & L & Hw).
    rewrite E. eexists. split; [reflexivity|].
    cbn [Quadro.linhas_visiveis].
    split; [split; [lia|rewrite length_firstn; lia]|].
    destruct (desenhadas_bloco
                (firstn (q * Z.to_nat max_linhas) linhas)
                (firstn (Z.to_nat max_linhas)
                        (skipn (q * Z.to_nat max_linhas) linhas))
                (skipn (Z.to_nat max_linhas)
                       (skipn (q * Z.to_nat max_linhas) linhas))
                idx_inicio idx_fim) as [F G].
    rewrite <- Bloco in F. split; [exact F|]. apply G; [exact Hw|exact Hf].
Qed.

End QuadroFacts.

(** X24 — A karaoke frame shows the word it starts highlighting.  With at
    least one caption line allowed and a first highlighted word
    [idx_inicio] that exists, in both modes ("scroll" and paged)
    [_criar_frame_karaoke] picks between one and [legendas_linhas]
    consecutive lines; every word it draws carries its own index in the
    text as [idx_palavra_global], and the word [idx_inicio] is among the
    words drawn and gets the highlight box. *)
Theorem X24_karaoke_frame_shows_active_word :
  forall (modo_scroll : bool) (max_linhas idx_inicio idx_fim : Z)
         (linhas_palavras : list (list str)),
    1 <= max_linhas ->
    0 <= idx_inicio < Quadro.conta_palavras linhas_palavras ->
    idx_inicio <= idx_fim ->
    exists j,
      Quadro.janela modo_scroll max_linhas idx_inicio linhas_palavras
      = Some j /\
      1 <= Z.of_nat (length (Quadro.linhas_visiveis j)) <= max_linhas /\
      Forall (fun '(g, palavra, _) =>
                0 <= g /\
                nth_error (concat linhas_palavras) (Z.to_nat g)
                = Some palavra)
             (Quadro.palavras_desenhadas j idx_inicio idx_fim) /\
      exists palavra,
        In (idx_inicio, palavra, true)
           (Quadro.palavras_desenhadas j idx_inicio idx_fim).
Proof.
  intros modo_scroll max_linhas idx_inicio idx_fim linhas_palavras Hm Hi Hf.
  apply janela_mostra_palavra; assumption.
Qed.

Lemma X24_karaoke_frame_shows_active_word_witness :
  let linhas := [[lit "a"; lit "b"]; [lit "c"]; [lit "d"; lit "e"];
                 [lit "f"]] in
  exists j,
    Quadro.janela false 2 3 linhas = Some j /\
    1 <= Z.of_nat (length (Quadro.linhas_visiveis j)) <= 2 /\
    Forall (fun '(g, palavra, _) =>
              0 <= g /\
              nth_error (concat linhas) (Z.to_nat g) = Some palavra)
           (Quadro.palavras_desenhadas j 3 4) /\
    exists palavra,
      In (3, palavra, true) (Quadro.palavras_desenhadas j 3 4).
Proof.
  apply (X24_karaoke_frame_shows_active_word false 2 3 4
           [[lit "a"; lit "b"]; [lit "c"]; [lit "d"; lit "e"]; [lit "f"]]).
  - lia.
  - vm_compute. split; [discriminate|reflexivity].
  - lia.
Defined.

(** X25 — Which lines the two modes pick, under the conditions of X24.
    In mode "scroll" the frame always shows as many lines as it may:
    [legendas_linhas] of them, or all lines when there are fewer.  In the
    paged mode the lines are cut into pages of [legendas_linhas] lines,
    and the frame shows the page that holds the word [idx_inicio],
    numbering its words from the number of words on the pages before. *)
Theorem X25_karaoke_window_by_mode :
  forall (max_linhas idx_inicio : Z) (linhas_palavras : list (list str)),
    1 <= max_linhas ->
    0 <= idx_inicio < Quadro.conta_palavras linhas_palavras ->
    (exists j,
       Quadro.janela true max_linhas idx_inicio linhas_palavras = Some j /\
       Z.of_nat (length (Quadro.linhas_visiveis j))
       = Z.min max_linhas (Z.of_nat (length linhas_palavras))) /\
    (exists (j : Quadro.Janela) (pagina : nat),
       let k := Z.to_nat max_linhas in
       Quadro.janela false max_linhas idx_inicio linhas_palavras = Some j /\
       Quadro.linhas_visiveis j
       = Karaoke.fatia linhas_palavras (pagina * k) k /\
       Quadro.idx_offset j
       = Quadro.conta_palavras (firstn (pagina * k) linhas_palavras) /\
       Quadro.idx_offset j <= idx_inicio
         < Quadro.idx_offset j
           + Quadro.conta_palavras (Quadro.linhas_visiveis j)).
Proof.
  intros max_linhas idx_inicio linhas Hm Hi. split.
  - destruct (janela_scroll_forma max_linhas idx_inicio linhas Hm Hi)
      as (a & c & E & L & Lc & _).
    unfold Quadro.janela. rewrite E. eexists. split; [reflexivity|].
    cbn [Quadro.linhas_visiveis].
    rewrite length_firstn, length_skipn. lia.
  - destruct (janela_pagina_forma max_linhas idx_inicio linhas Hm Hi)
      as (q & E & _ & Hw).
    unfold Quadro.janela. rewrite E. eexists. exists q.
    cbn [Quadro.linhas_visiveis Quadro.idx_offset].
    split; [reflexivity|]. split; [reflexivity|]. split; [reflexivity|].
    exact Hw.
Qed.

Lemma X25_karaoke_window_by_mode_witness :
  let linhas := [[lit "a"; lit "b"]; [lit "c"]; [lit "d"; lit "e"];
                 [lit "f"]] in
  (exists j,
     Quadro.janela true 3 3 linhas = Some j /\
     Z.of_nat (length (Quadro.linhas_visiveis j))
     = Z.min 3 (Z.of_nat (length linhas))) /\
  (exists (j : Quadro.Janela) (pagina : nat),
     let k := Z.to_nat 3 in
     Quadro.janela false 3 3 linhas = Some j /\
     Quadro.linhas_visiveis j = Karaoke.fatia linhas (pagina * k) k /\
     Quadro.idx_offset j
     = Quadro.conta_palavras (firstn (pagina * k) linhas) /\
     Quadro.idx_offset j <= 3
       < Quadro.idx_offset j
         + Quadro.conta_palavras (Quadro.linhas_visiveis j)).
Proof.
  apply (X25_karaoke_window_by_mode 3 3
           [[lit "a"; lit "b"]; [lit "c"]; [lit "d"; lit "e"]; [lit "f"]]).
  - lia.
  - vm_compute. split; [discriminate|reflexivity].
Defined.

(** ** The clips of [gerar_video] *)

Section MontagemFacts.

Local Open Scope Q_scope.

Import Karaoke Video Montagem.

Lemma Qsum_app (a b : list Q) : Qsum (a ++ b) == Qsum a + Qsum b.
Proof.
  induction a as [|x a IH]; cbn [app Qsum]; [ring|]. rewrite IH. ring.
Qed.

Lemma Qsum_iguais {A} (x : Q) (l : list A) :
  Qsum (map (fun _ => x) l) == of_nat (length l) * x.
Proof.
  induction l as [|y l IH]; cbn [map Qsum length].
  - change (of_nat 0) with 0. ring.
  - rewrite IH, of_nat_S. ring.
Qed.

Lemma map_indices_enumerate {A B} (h : nat -> B) (l : list A) (a : nat) :
  map (fun '(i, _) => h i) (combine (seq a (length l)) l)
  = map h (seq a (length l)).
Proof.
  revert a. induction l as [|x l IH]; intros a; [reflexivity|].
  cbn [length seq combine map]. f_equal. apply IH.
Qed.

Lemma audio_path_disponivel (amb : Ambiente) (cfg : ConfigVideo)
    (usar : bool) (slide_info : option SlideInfo) (p : str) :
  audio_path (tempos_slide amb cfg usar slide_info) = Some p ->
  disponivel amb p = true.
Proof.
  unfold tempos_slide. destruct slide_info as [s|]; [|discriminate].
  unfold escolher_audio.
  destruct usar;
    destruct (disponivel amb (caminho_audio_traduzido s)) eqn:D1;
    destruct (disponivel amb (caminho_audio s)) eqn:D2;
    cbn [audio_path]; intros E; try discriminate;
    injection E as <-; assumption.
Qed.

Lemma carregar_audio_disponivel (amb : Ambiente) (p : str) :
  disponivel amb p = true ->
  carregar_audio amb (Some p)
  = match audio_file_clip amb p with Some _ => true | None => false end.
Proof.
  unfold disponivel, carregar_audio. intros ->. reflexivity.
Qed.

(** The caption clips of a slide with two or more segments. *)
Lemma clips_segmentos_forma (amb : Ambiente) (segmentos : list str)
    (d : Q) (caminho : option str) :
  segmentos <> [] ->
  (forall p, caminho = Some p -> disponivel amb p = true) ->
  match clips_segmentos amb segmentos d caminho with
  | Some clips =>
      length clips = length segmentos /\
      Qsum (map duracao_clip clips) == d /\
      map audio clips
      = carregar_audio amb caminho :: repeat false (length clips - 1)
  | None =>
      exists p, caminho = Some p /\ audio_file_clip amb p = None
  end.
Proof.
  intros Hs Hd. unfold clips_segmentos.
  set (com_som := match caminho with Some p => truthy p | None => false end).
  set (carregou := match caminho with
                   | Some p => match audio_file_clip amb p with
                               | Some _ => true | None => false end
                   | None => false end).
  assert (Ec : carregar_audio amb caminho = com_som && carregou).
  { subst com_som carregou. destruct caminho as [p|]; [|reflexivity].
    pose proof (Hd p eq_refl) as D.
    rewrite (carregar_audio_disponivel amb p D).
    unfold disponivel in D. apply andb_prop in D as [-> _]. reflexivity. }
  destruct (com_som && negb carregou) eqn:C.
  - apply andb_prop in C as [C1 C2]. subst com_som carregou.
    destruct caminho as [p|]; [|discriminate]. exists p.
    split; [reflexivity|].
    destruct (audio_file_clip amb p); [discriminate|reflexivity].
  - rewrite length_map, enumerate_length. split; [reflexivity|]. split.
    + rewrite map_map.
      rewrite (map_ext _ (fun _ => d / of_nat (length segmentos)))
        by (intros [i s]; reflexivity).
      rewrite Qsum_iguais, enumerate_length.
      apply Qmul_div_cancel. destruct segmentos; [contradiction|cbn; lia].
    + rewrite map_map. unfold enumerate.
      rewrite (map_ext _ (fun '(i, _) => (i =? 0)%nat && com_som))
        by (intros [i s]; reflexivity).
      rewrite map_indices_enumerate.
      destruct segmentos as [|s r]; [contradiction|]. cbn [length].
      rewrite audio_so_no_primeiro.
      replace (S (length r) - 1)%nat with (length r) by lia. f_equal.
      rewrite Ec. destruct com_som; [|reflexivity].
      cbn [andb] in C. destruct carregou; [reflexivity|discriminate].
Qed.

Variables (amb : Ambiente) (cfg : ConfigVideo).
Variables (legendas_usar_traducao usar_audio_traduzido : bool).

Hypothesis extra_nonneg : 0 <= tempo_extra_slide cfg.
Hypothesis minimo_pos : 0 < tempo_minimo_slide cfg.

(** What one iteration of the loop of [gerar_video] appends. *)
Lemma clips_do_slide_forma (slide_info : option SlideInfo) :
  let t := tempos_slide amb cfg usar_audio_traduzido slide_info in
  match clips_do_slide amb cfg legendas_usar_traducao usar_audio_traduzido
                       slide_info with
  | Some clips =>
      (1 <= length clips)%nat /\
      Qsum (map duracao_clip clips) == duracao t /\
      map audio clips
      = carregar_audio amb (audio_path t) :: repeat false (length clips - 1)
  | None =>
      legendas_embutidas cfg = true /\ karaoke_ativo cfg = false /\
      (exists s,
          slide_info = Some s /\
          (1 < length (dividir_texto_segmentos
                         (legendas_linhas cfg)
                         (texto_legenda legendas_usar_traducao s)))%nat) /\
      exists p, audio_path t = Some p /\ audio_file_clip amb p = None
  end.
Proof.
  intros t. unfold clips_do_slide. fold t.
  assert (S1 : forall fig,
             (1 <= length [clip_simples amb fig (duracao t) (audio_path t)])%nat
             /\ Qsum (map duracao_clip
                        [clip_simples amb fig (duracao t) (audio_path t)])
                == duracao t
             /\ map audio [clip_simples amb fig (duracao t) (audio_path t)]
                = carregar_audio amb (audio_path t)
                  :: repeat false
                       (length [clip_simples amb fig (duracao t)
                                             (audio_path t)] - 1)).
  { intros fig. cbn. split; [lia|]. split; [ring|reflexivity]. }
  destruct slide_info as [s|]; [|apply S1].
  destruct (legendas_embutidas cfg) eqn:Le; [|apply S1].
  destruct (karaoke_ativo cfg) eqn:Ka.
  - (* karaoke *)
    destruct (truthy (texto_karaoke cfg s)
              && truthy (strip (texto_karaoke cfg s))) eqn:Tk; [|apply S1].
    apply andb_prop in Tk as [_ Tk].
    assert (Hw : split (texto_karaoke cfg s) <> []).
    { intros E. apply strip_nil_of_split_nil in E. rewrite E in Tk.
      discriminate. }
    destruct (tempos_slide_dpp amb cfg usar_audio_traduzido s extra_nonneg
                minimo_pos) as [Hpos Hle].
    fold t in Hpos, Hle.
    destruct (gerar_clips_karaoke_ok amb (texto_karaoke cfg s) (duracao t)
                (audio_path t) (Some (duracao_audio_real t)) Hw Hpos)
      as (clips & E & L & S & A).
    rewrite E. destruct clips as [|c clips]; [cbn in L; lia|].
    rewrite length_map, !map_map.
    change (fun x => duracao_clip (de_karaoke x)) with duracao_frame.
    change (fun x => audio (de_karaoke x)) with com_audio.
    split; [exact L|]. split; [|exact A]. rewrite S.
    destruct (py_max_cases 0
                (duracao t -
                 duracao_para_palavras (duracao t)
                   (Some (duracao_audio_real t))))
      as [[H1 ->] | [H1 ->]]; lra.
  - (* captions *)
    destruct (truthy (texto_legenda legendas_usar_traducao s)
              && truthy (strip (texto_legenda legendas_usar_traducao s)));
      [|apply S1].
    set (segmentos := dividir_texto_segmentos (legendas_linhas cfg) _).
    destruct (1 <? length segmentos)%nat eqn:Ns; [|apply S1].
    apply Nat.ltb_lt in Ns.
    pose proof (clips_segmentos_forma amb segmentos (duracao t)
                  (audio_path t)) as F.
    destruct (clips_segmentos amb segmentos (duracao t) (audio_path t))
      as [clips|].
    + destruct F as (L & S & A).
      * intros E. rewrite E in Ns. cbn in Ns. lia.
      * intros p. apply audio_path_disponivel.
      * split; [lia|]. split; assumption.
    + split; [reflexivity|]. split; [reflexivity|].
      split; [exists s; split; [reflexivity|exact Ns]|]. apply F.
      * intros E. rewrite E in Ns. cbn in Ns. lia.
      * intros p. apply audio_path_disponivel.
Qed.

Variable g : Gestor.Apresentacao.

Let slide_da_imagem (i : nat) : option SlideInfo :=
  Gestor.obter_slide g (Z.of_nat i + 1).

Lemma fold_juntar_none (l : list nat) :
  fold_left (juntar_slide amb cfg legendas_usar_traducao
                          usar_audio_traduzido g) l None = None.
Proof.
  induction l as [|i l IH]; [reflexivity|exact IH].
Qed.

(** The loop over the images. *)
Lemma fold_juntar_forma (l : list nat) (acc : list ClipVideo) :
  match fold_left (juntar_slide amb cfg legendas_usar_traducao
                                usar_audio_traduzido g) l (Some acc) with
  | Some clips =>
      exists novos,
        clips = acc ++ novos /\
        (length l <= length novos)%nat /\
        Qsum (map duracao_clip novos)
        == Qsum (map (fun i => duracao (tempos_slide amb cfg
                                          usar_audio_traduzido
                                          (slide_da_imagem i))) l)
  | None =>
      exists i, In i l /\
                clips_do_slide amb cfg legendas_usar_traducao
                               usar_audio_traduzido (slide_da_imagem i)
                = None
  end.
Proof.
  revert acc. induction l as [|i l IH]; intros acc.
  - cbn. exists []. rewrite app_nil_r. split; [reflexivity|].
    split; [cbn; lia|reflexivity].
  - cbn [fold_left juntar_slide]. fold (slide_da_imagem i).
    pose proof (clips_do_slide_forma (slide_da_imagem i)) as F.
    destruct (clips_do_slide amb cfg legendas_usar_traducao
                usar_audio_traduzido (slide_da_imagem i)) as [cs|] eqn:E.
    + cbv zeta in F. destruct F as (L & S & _).
      specialize (IH (acc ++ cs)).
      destruct (fold_left _ l (Some (acc ++ cs))) as [clips|].
      * destruct IH as (novos & -> & Ln & Sn).
        exists (cs ++ novos). split; [symmetry; apply app_assoc|].
        split; [rewrite length_app; cbn [length]; lia|].
        rewrite map_app, Qsum_app. cbn [map Qsum]. rewrite S, Sn.
        reflexivity.
      * destruct IH as (j & Hj & Ej). exists j. split; [right; exact Hj|].
        exact Ej.
    + rewrite fold_juntar_none. exists i. split; [left; reflexivity|].
      exact E.
Qed.

End MontagemFacts.

(** X26 — One slide of [gerar_video], whatever the caption settings (none,
    karaoke, captions in one or in several segments) and whether or not
    the slide is known to the presentation, given a non-negative padding
    and a positive minimum duration.  The iteration fails only in one way:
    captions of two or more segments are drawn and the chosen audio file
    does not load.  Otherwise it appends at least one clip, the clip durations
    add up to the duration of the slide, no clip but the first carries
    audio, and the first carries it exactly when the chosen audio file
    loads. *)
Theorem X26_slide_clips :
  forall (amb : Ambiente) (cfg : Video.ConfigVideo)
         (legendas_usar_traducao usar_audio_traduzido : bool)
         (slide_info : option SlideInfo),
    (0 <= Video.tempo_extra_slide cfg)%Q ->
    (0 < Video.tempo_minimo_slide cfg)%Q ->
    let t := Video.tempos_slide amb cfg usar_audio_traduzido slide_info in
    match Montagem.clips_do_slide amb cfg legendas_usar_traducao
                                  usar_audio_traduzido slide_info with
    | Some clips =>
        (1 <= length clips)%nat /\
        (Qsum (map Montagem.duracao_clip clips) == Video.duracao t)%Q /\
        map Montagem.audio clips
        = Karaoke.carregar_audio amb (Video.audio_path t)
          :: repeat false (length clips - 1)
    | None =>
        Video.legendas_embutidas cfg = true /\
        Video.karaoke_ativo cfg = false /\
        (exists s,
            slide_info = Some s /\
            (1 < length (dividir_texto_segmentos
                           (Video.legendas_linhas cfg)
                           (Montagem.texto_legenda legendas_usar_traducao
                                                   s)))%nat) /\
        exists p, Video.audio_path t = Some p /\
                  audio_file_clip amb p = None
    end.
Proof.
  intros amb cfg lut uat slide_info He Hm.
  apply clips_do_slide_forma; assumption.
Qed.

Lemma X26_slide_clips_witness :
  let t := Video.tempos_slide amb_5_7 cfg_karaoke false (Some slide_5_7) in
  match Montagem.clips_do_slide amb_5_7 cfg_karaoke true false
                                (Some slide_5_7) with
  | Some clips =>
      (1 <= length clips)%nat /\
      (Qsum (map Montagem.duracao_clip clips) == Video.duracao t)%Q /\
      map Montagem.audio clips
      = Karaoke.carregar_audio amb_5_7 (Video.audio_path t)
        :: repeat false (length clips - 1)
  | None =>
      Video.legendas_embutidas cfg_karaoke = true /\
      Video.karaoke_ativo cfg_karaoke = false /\
      (exists s,
          Some slide_5_7 = Some s /\
          (1 < length (dividir_texto_segmentos
                         (Video.legendas_linhas cfg_karaoke)
                         (Montagem.texto_legenda true s)))%nat) /\
      exists p, Video.audio_path t = Some p /\
                audio_file_clip amb_5_7 p = None
  end.
Proof.
  apply (X26_slide_clips amb_5_7 cfg_karaoke true false (Some slide_5_7)).
  - unfold Qle; simpl; lia.
  - unfold Qlt; simpl; lia.
Defined.

(** X27 — The clip list of a whole video, for a presentation that is open
    and at least one exported image, given a non-negative padding and a
    positive minimum duration.  When [gerar_video] gets as far as
    concatenating, there is at least one clip per image and the clip
    durations add up to the sum of the slide durations, an image beyond
    the last slide of the presentation counting with the minimum
    duration.  It does not get that far only when the iteration of some
    image fails. *)
Theorem X27_video_clips :
  forall (amb : Ambiente) (cfg : Video.ConfigVideo)
         (legendas_usar_traducao usar_audio_traduzido : bool)
         (slides : list SlideInfo) (n_imagens : nat),
    (0 <= Video.tempo_extra_slide cfg)%Q ->
    (0 < Video.tempo_minimo_slide cfg)%Q ->
    (1 <= n_imagens)%nat ->
    let g := Some slides in
    let slide_da_imagem i := Gestor.obter_slide g (Z.of_nat i + 1) in
    match Montagem.clips_do_video amb cfg legendas_usar_traducao
                                  usar_audio_traduzido g n_imagens with
    | Some clips =>
        (n_imagens <= length clips)%nat /\
        (Qsum (map Montagem.duracao_clip clips)
         == Qsum (map (fun i => Video.duracao
                                  (Video.tempos_slide amb cfg
                                     usar_audio_traduzido
                                     (slide_da_imagem i)))
                      (seq 0 n_imagens)))%Q
    | None =>
        exists i, (i < n_imagens)%nat /\
                  Montagem.clips_do_slide amb cfg legendas_usar_traducao
                                          usar_audio_traduzido
                                          (slide_da_imagem i) = None
    end.
Proof.
  intros amb cfg lut uat slides n He Hm Hn g slide_da_imagem.
  unfold Montagem.clips_do_video. subst g.
  replace (n =? 0)%nat with false by (symmetry; apply Nat.eqb_neq; lia).
  pose proof (fold_juntar_forma amb cfg lut uat He Hm (Some slides)
                (seq 0 n) []) as F.
  destruct (fold_left _ (seq 0 n) (Some [])) as [clips|].
  - destruct F as (novos & -> & L & S). rewrite length_seq in L.
    cbn [app] in *. destruct novos as [|c novos]; [cbn in L; lia|].
    split; [exact L|exact S].
  - destruct F as (i & Hi & E). exists i. apply in_seq in Hi.
    split; [lia|exact E].
Qed.

Lemma X27_video_clips_witness :
  let g := Some [slide_5_7] in
  let slide_da_imagem i := Gestor.obter_slide g (Z.of_nat i + 1) in
  match Montagem.clips_do_video amb_5_7 cfg_karaoke true false g 2 with
  | Some clips =>
      (2 <= length clips)%nat /\
      (Qsum (map Montagem.duracao_clip clips)
       == Qsum (map (fun i => Video.duracao
                                (Video.tempos_slide amb_5_7 cfg_karaoke
                                   false (slide_da_imagem i)))
                    (seq 0 2)))%Q
  | None =>
      exists i, (i < 2)%nat /\
                Montagem.clips_do_slide amb_5_7 cfg_karaoke true false
                                        (slide_da_imagem i) = None
  end.
Proof.
  apply (X27_video_clips amb_5_7 cfg_karaoke true false [slide_5_7] 2).
  - unfold Qle; simpl; lia.
  - unfold Qlt; simpl; lia.
  - lia.
Defined.

(** ** The two-line caption formatter [_formatar_texto_legenda] *)

Section LegendaDuasLinhas.

Import Linhas.

Variable max_chars : Z.

Hypothesis max_chars_min : 3 <= max_chars.

Lemma custo_snoc (l : list str) (w : str) :
  custo (l ++ [w]) = custo l + len w + 1.
Proof.
  induction l as [|x l IH]; cbn [app custo] in *; lia.
Qed.

Lemma len_join_custo (l : list str) :
  l <> [] -> len (join [space] l) = custo l - 1.
Proof.
  induction l as [|x l IH]; [contradiction|]. intros _.
  destruct l as [|y r].
  - cbn [join custo]. lia.
  - rewrite len_join_cons_cons, IH by discriminate.
    cbn [custo]. lia.
Qed.

Lemma fold_legenda (ws : list str) :
  forall (l1 l2 : list str),
    Forall (fun w => e_palavra w = true) ws ->
    Forall (fun w => e_palavra w = true) l1 ->
    Forall (fun w => e_palavra w = true) l2 ->
    (l1 = [] \/ custo l1 <= max_chars) ->
    let '(l1', l2', t') :=
      fold_left (legenda_passo max_chars) ws (l1, l2, custo l1) in
    Forall (fun w => e_palavra w = true) l1' /\
    Forall (fun w => e_palavra w = true) l2' /\
    (l1' = [] \/ custo l1' <= max_chars).
Proof.
  induction ws as [|w ws IH]; intros l1 l2 Hws H1 H2 Hc.
  - cbn. auto.
  - cbn [fold_left legenda_passo]. apply Forall_cons_iff in Hws as [Hw Hws].
    destruct (custo l1 + len w + 1 <=? max_chars) eqn:C.
    + apply Z.leb_le in C. rewrite <- custo_snoc.
      apply IH; auto.
      * apply Forall_app. auto.
      * right. rewrite custo_snoc. exact C.
    + apply IH; auto. apply Forall_app. auto.
Qed.

Lemma segunda_linha_ok (linha2 : list str) :
  Forall (fun w => e_palavra w = true) linha2 ->
  ~ In newline (segunda_linha max_chars linha2) /\
  len (segunda_linha max_chars linha2) <= max_chars.
Proof.
  intros H. unfold segunda_linha.
  pose proof (join_palavras_sem_newline linha2 H) as Nn.
  destruct (max_chars <? len (join [space] linha2)) eqn:C.
  - apply Z.ltb_lt in C. unfold slice_to.
    replace (0 <=? max_chars - 3) with true
      by (symmetry; apply Z.leb_le; lia).
    split.
    + intros Hin. apply in_app_or in Hin as [Hin | Hin].
      * apply Nn.
        rewrite <- (firstn_skipn (Z.to_nat (max_chars - 3))
                      (join [space] linha2)).
        apply in_or_app. left. exact Hin.
      * cbn in Hin. unfold newline in Hin.
        repeat (destruct Hin as [Hin | Hin]; [discriminate Hin|]).
        exact Hin.
    + rewrite len_app. unfold len in *. rewrite length_firstn.
      change (length (lit "...")) with 3%nat. lia.
  - apply Z.ltb_ge in C. split; assumption.
Qed.

Lemma formatar_texto_legenda_forma (texto : str) :
  exists (linha1 : str) (resto : option str),
    formatar_texto_legenda texto max_chars
    = match resto with
      | None => linha1
      | Some linha2 => linha1 ++ [newline] ++ linha2
      end /\
    ~ In newline linha1 /\ len linha1 <= max_chars /\
    forall linha2, resto = Some linha2 ->
                   ~ In newline linha2 /\ len linha2 <= max_chars.
Proof.
  unfold formatar_texto_legenda.
  set (t := replace_double_space (replace_newline (strip texto))).
  destruct (len t <=? max_chars) eqn:C.
  - apply Z.leb_le in C. exists t, None. split; [reflexivity|].
    split; [apply normalizado_sem_newline|]. split; [exact C|].
    intros linha2 E. discriminate.
  - pose proof (fold_legenda (split t) [] [] (split_palavras t)
                  (Forall_nil _) (Forall_nil _) (or_introl eq_refl)) as F.
    change (custo []) with 0 in F.
    destruct (fold_left (legenda_passo max_chars) (split t) ([], [], 0))
      as [[l1 l2] t'].
    destruct F as (F1 & F2 & F3).
    assert (L1 : len (join [space] l1) <= max_chars).
    { destruct F3 as [-> | F3]; [cbn; lia|].
      destruct l1 as [|x l1]; [cbn; lia|].
      rewrite len_join_custo by discriminate. lia. }
    pose proof (join_palavras_sem_newline l1 F1) as N1.
    destruct l2 as [|w l2].
    + exists (join [space] l1), None. split; [reflexivity|].
      split; [exact N1|]. split; [exact L1|]. intros linha2 E.
      discriminate.
    + exists (join [space] l1), (Some (segunda_linha max_chars (w :: l2))).
      split; [reflexivity|]. split; [exact N1|]. split; [exact L1|].
      intros linha2 E. injection E as <-. apply segunda_linha_ok. exact F2.
Qed.

End LegendaDuasLinhas.

(** X28 — With a limit of three characters or more,
    [_formatar_texto_legenda] returns one line, or two lines separated by
    one line break, and every line is at most [max_chars] characters
    long: also a word longer than the limit ends up cut, with the rest of
    the second line, to [max_chars] characters. *)
Theorem X28_formatar_texto_legenda_lines :
  forall (texto : str) (max_chars : Z),
    3 <= max_chars ->
    exists (linha1 : str) (resto : option str),
      Linhas.formatar_texto_legenda texto max_chars
      = match resto with
        | None => linha1
        | Some linha2 => linha1 ++ [newline] ++ linha2
        end /\
      ~ In newline linha1 /\ len linha1 <= max_chars /\
      forall linha2, resto = Some linha2 ->
                     ~ In newline linha2 /\ len linha2 <= max_chars.
Proof.
  intros texto max_chars H. apply formatar_texto_legenda_forma. exact H.
Qed.

Lemma X28_formatar_texto_legenda_lines_witness :
  exists (linha1 : str) (resto : option str),
    Linhas.formatar_texto_legenda texto_11_palavras 42
    = match resto with
      | None => linha1
      | Some linha2 => linha1 ++ [newline] ++ linha2
      end /\
    ~ In newline linha1 /\ len linha1 <= 42 /\
    forall linha2, resto = Some linha2 ->
                   ~ In newline linha2 /\ len linha2 <= 42.
Proof.
  apply (X28_formatar_texto_legenda_lines texto_11_palavras 42). lia.
Defined.

(** ** Karaoke frames and caption clips, end to end *)

Section PontaAPonta.

Local Open Scope Q_scope.

Import Karaoke.

Lemma organizar_concat (f : Medida.Fonte) (palavras : list str)
    (largura_max : Z) :
  concat (Medida.organizar_palavras_linhas f palavras largura_max)
  = palavras.
Proof.
  unfold Medida.organizar_palavras_linhas.
  destruct (fold_organizar f largura_max palavras [] [] 0 eq_refl
              (or_introl (Nat.le_0_l 1)) (Forall_nil _))
    as (l' & a' & w' & E & _ & _ & C).
  rewrite E. cbn [concat app] in C. destruct a' as [|a0 ar].
  - rewrite app_nil_r in C. exact C.
  - rewrite concat_app. cbn [concat]. rewrite app_nil_r. exact C.
Qed.

(** The word range of every frame lies inside the text. *)
Lemma gerar_clips_karaoke_indices (amb : Ambiente) (texto : str)
    (duracao_slide : Q) (audio_path : option str) (duracao_audio : option Q) :
  split texto <> [] ->
  ~ duracao_para_palavras duracao_slide duracao_audio == 0 ->
  exists clips,
    gerar_clips_karaoke amb texto duracao_slide audio_path duracao_audio
    = Some clips /\
    Forall (fun c => (0 <= idx_palavra_inicio c <= idx_palavra_fim c)%Z /\
                     (idx_palavra_fim c
                      < Z.of_nat (length (split texto)))%Z) clips.
Proof.
  intros Hw Hd. unfold gerar_clips_karaoke. rewrite split_strip.
  set (dpp := duracao_para_palavras duracao_slide duracao_audio) in *.
  destruct (split texto) as [|w ws] eqn:Ew; [contradiction|].
  set (palavras := w :: ws) in *.
  replace (length palavras =? 0)%nat with false by reflexivity.
  assert (Hn : 0 < of_nat (length palavras))
    by (apply of_nat_pos; cbn; lia).
  assert (Ht : ~ dpp / of_nat (length palavras) == 0).
  { intros E. apply Hd.
    rewrite <- (Qmul_div_cancel dpp (length palavras)) by (cbn; lia).
    rewrite E. ring. }
  destruct (agrupar_some palavras _ Hw Ht) as (grupos & Eg & Hg).
  rewrite Eg. eexists. split; [reflexivity|].
  destruct (agrupar_forma palavras _ grupos Eg) as [Cg Ng].
  apply Forall_forall. intros c Hc.
  apply in_map_iff in Hc as ([idx grupo] & <- & Hin).
  unfold enumerate in Hin. apply in_enumerate in Hin as [_ Hn'].
  rewrite Nat.sub_0_r in Hn'.
  pose proof (proj1 (Forall_forall _ _) Ng grupo (nth_error_In _ _ Hn'))
    as Hne.
  destruct (nth_error_split grupos idx Hn') as (l1 & l2 & Es & Ll).
  cbn [clip_do_grupo idx_palavra_inicio idx_palavra_fim].
  unfold palavras_antes.
  assert (Ef : firstn idx grupos = l1).
  { rewrite Es, <- Ll, firstn_app, Nat.sub_diag, firstn_all. cbn.
    apply app_nil_r. }
  rewrite Ef.
  assert (Len : length palavras
                = (list_sum (map (@length str) l1) + length grupo
                   + list_sum (map (@length str) l2))%nat).
  { rewrite <- Cg, Es, length_concat, map_app, list_sum_app.
    unfold list_sum. cbn [map fold_right]. lia. }
  destruct grupo as [|g0 gr]; [contradiction|]. cbn [length] in *.
  split; lia.
Qed.

Lemma map_snd_enumerate {A} (l : list A) (a : nat) :
  map snd (combine (seq a (length l)) l) = l.
Proof.
  revert a. induction l as [|x l IH]; intros a; [reflexivity|].
  cbn [length seq combine map snd]. f_equal. apply IH.
Qed.

End PontaAPonta.

(** X29 — Karaoke end to end.  For a text with a word, a pacing duration
    other than zero and at least one caption line allowed, every frame
    that [_gerar_clips_karaoke] asks [_criar_frame_karaoke] to draw can be
    drawn, in either mode and for every font measure and image width: all
    the words the frame draws are the words of the text at the index they
    are drawn under, and the first word of the frame's group is among
    them, highlighted. *)
Theorem X29_karaoke_frames_show_their_word :
  forall (amb : Ambiente) (fonte : Medida.Fonte) (modo_scroll : bool)
         (max_linhas largura : Z) (texto : str) (duracao_slide : Q)
         (audio_path : option str) (duracao_audio : option Q),
    1 <= max_linhas ->
    split texto <> [] ->
    ~ (Karaoke.duracao_para_palavras duracao_slide duracao_audio == 0)%Q ->
    exists clips,
      Karaoke.gerar_clips_karaoke amb texto duracao_slide audio_path
                                  duracao_audio = Some clips /\
      Forall (fun c =>
                exists desenhadas,
                  criar_frame_karaoke fonte modo_scroll max_linhas largura
                    (split (strip texto)) (Karaoke.idx_palavra_inicio c)
                    (Karaoke.idx_palavra_fim c) = Some desenhadas /\
                  Forall (fun '(g, palavra, _) =>
                            0 <= g /\
                            nth_error (split texto) (Z.to_nat g)
                            = Some palavra) desenhadas /\
                  exists palavra,
                    In (Karaoke.idx_palavra_inicio c, palavra, true)
                       desenhadas)
             clips.
Proof.
  intros amb fonte modo max_linhas largura texto duracao_slide audio_path
         duracao_audio Hm Hw Hd.
  destruct (gerar_clips_karaoke_indices amb texto duracao_slide audio_path
              duracao_audio Hw Hd) as (clips & E & F).
  exists clips. split; [exact E|].
  apply Forall_forall. intros c Hc.
  pose proof (proj1 (Forall_forall _ _) F c Hc) as [[H0 H1] H2].
  unfold criar_frame_karaoke. rewrite split_strip.
  set (linhas := Medida.organizar_palavras_linhas fonte (split texto) _).
  assert (Ec : concat linhas = split texto) by apply organizar_concat.
  assert (Hi : 0 <= Karaoke.idx_palavra_inicio c
               < Quadro.conta_palavras linhas).
  { rewrite conta_concat, Ec. lia. }
  destruct (janela_mostra_palavra modo max_linhas
              (Karaoke.idx_palavra_inicio c) (Karaoke.idx_palavra_fim c)
              linhas Hm Hi H1) as (j & Ej & _ & Fd & Hp).
  rewrite Ej. eexists. split; [reflexivity|].
  rewrite Ec in Fd. split; assumption.
Qed.

Lemma X29_karaoke_frames_show_their_word_witness :
  let fonte := {| Medida.textbbox := fun s => (0, 0, 10 * len s, 12) |} in
  exists clips,
    Karaoke.gerar_clips_karaoke amb_5_7 texto_4_palavras (3 # 2)
                                (Some (lit "orig.mp3")) (Some 1%Q)
    = Some clips /\
    Forall (fun c =>
              exists desenhadas,
                criar_frame_karaoke fonte true 3 1920
                  (split (strip texto_4_palavras))
                  (Karaoke.idx_palavra_inicio c)
                  (Karaoke.idx_palavra_fim c) = Some desenhadas /\
                Forall (fun '(g, palavra, _) =>
                          0 <= g /\
                          nth_error (split texto_4_palavras) (Z.to_nat g)
                          = Some palavra) desenhadas /\
                exists palavra,
                  In (Karaoke.idx_palavra_inicio c, palavra, true)
                     desenhadas)
           clips.
Proof.
  apply (X29_karaoke_frames_show_their_word amb_5_7
           {| Medida.textbbox := fun s => (0, 0, 10 * len s, 12) |}
           true 3 1920 texto_4_palavras (3 # 2)
           (Some (lit "orig.mp3")) (Some 1%Q)).
  - lia.
  - vm_compute. discriminate.
  - vm_compute. discriminate.
Defined.

(** X30 — Captions end to end.  When captions are embedded without
    karaoke, the clips [gerar_video] makes for a slide carry, in their
    captions taken in order, exactly the words of the caption text of the
    slide, each word once: cutting the text into segments neither drops
    nor repeats nor reorders a word.  (A slide whose caption text has no
    word gets a clip without caption.) *)
Theorem X30_caption_clips_carry_the_text :
  forall (amb : Ambiente) (cfg : Video.ConfigVideo)
         (legendas_usar_traducao usar_audio_traduzido : bool)
         (s : SlideInfo) (clips : list Montagem.ClipVideo),
    Video.legendas_embutidas cfg = true ->
    Video.karaoke_ativo cfg = false ->
    Montagem.clips_do_slide amb cfg legendas_usar_traducao
                            usar_audio_traduzido (Some s) = Some clips ->
    concat (map palavras_da_legenda clips)
    = split (Montagem.texto_legenda legendas_usar_traducao s).
Proof.
  intros amb cfg lut uat s clips Le Ka.
  unfold Montagem.clips_do_slide. rewrite Le, Ka.
  set (texto := Montagem.texto_legenda lut s).
  destruct (truthy texto && truthy (strip texto)) eqn:T.
  - set (segmentos := dividir_texto_segmentos (Video.legendas_linhas cfg)
                                              texto).
    destruct (1 <? length segmentos)%nat.
    + unfold Montagem.clips_segmentos.
      destruct (_ && negb _); [discriminate|].
      intros E. injection E as <-. rewrite map_map.
      rewrite (map_ext _ (fun p : nat * str => split (snd p)))
        by (intros [i seg]; reflexivity).
      rewrite <- (map_map snd split). unfold enumerate.
      rewrite map_snd_enumerate.
      apply (dividir_video_palavras
               (max_chars_video (Video.legendas_linhas cfg))).
      reflexivity.
    + intros E. injection E as <-. cbn. apply app_nil_r.
  - intros E. injection E as <-. cbn.
    apply andb_false_iff in T as [T | T].
    + destruct texto; [reflexivity|discriminate].
    + symmetry. apply split_so_espacos.
      destruct (strip texto) eqn:Es; [|discriminate].
      apply split_nil_so_espacos. rewrite <- split_strip, Es. reflexivity.
Qed.

Lemma X30_caption_clips_carry_the_text_witness :
  let cfg := {| Video.tempo_minimo_slide := 3%Q;
                Video.tempo_extra_slide := (1 # 2)%Q;
                Video.legendas_embutidas := true;
                Video.legendas_linhas := 1;
                Video.karaoke_ativo := false;
                Video.karaoke_usar_traducao := false |} in
  let s := slide_de_texto texto_11_palavras in
  let clips :=
    match Montagem.clips_do_slide amb_sem_ficheiros cfg false false
                                  (Some s) with
    | Some clips => clips
    | None => []
    end in
  length clips = 4%nat /\
  concat (map palavras_da_legenda clips)
  = split (Montagem.texto_legenda false s).
Proof.
  intros cfg s clips. split; [vm_compute; reflexivity|].
  apply (X30_caption_clips_carry_the_text amb_sem_ficheiros cfg false false
           s clips).
  - reflexivity.
  - reflexivity.
  - vm_compute. reflexivity.
Defined.

(** ** The subtitle track on doubles: numbers and texts *)

Section SrtNumerosETextos.

Import SrtBinary64.

Variables (amb : Ambiente) (usar_traducao : bool).
Variables (tempo_extra tempo_minimo : float).
Variables (max_chars_segmento max_linhas : Z).




Let passo := passo_slide amb usar_traducao tempo_extra tempo_minimo
                         max_chars_segmento max_linhas.



End SrtNumerosETextos.

